(** * uswap-zero: reseller monitoring pipeline

    A shallow embedding of the explorer client ([explorer.go]), the
    wrapper-logs filter ([wrapperpage.go]) and the notifier helpers of the
    monitor, together with the properties of the written specification that
    are checked against them; further the caller's address and the currency
    search of the front end ([handlers.go]) and the store of the bot's
    subscribers ([tgsubscribers.go]), with properties of their own.

    Conventions.
    - A Go [string] is a sequence of bytes: Stdlib's [string].  The case
      mappings below are the ASCII ones; bytes above 127 are left as they
      are (Go maps whole runes there).
    - Go's [int] and [int64] are 64-bit two's complement: [Z] with the
      wrap-around written out ([wrap64]).
    - [float64] is IEEE 754 binary64: Stdlib's [spec_float] at precision 53
      and maximal exponent 1024.
    - What the Go runtime or a collaborator outside this code base decides
      (HTTP transport, JSON decoding, the token catalogue, USD formatting)
      is a parameter of the section that needs it. *)

From Stdlib Require Import ZArith Bool List Ascii String Lia.
From Stdlib Require Import Floats.SpecFloat Numbers.DecimalString.
From Stdlib Require DecimalFacts DecimalPos DecimalZ.
From stdpp Require Import base option list gmap strings sorting.

Local Open Scope Z_scope.
Local Open Scope string_scope.

(* ===================================================================== *)
(** * Go strings *)
(* ===================================================================== *)

Module GoStrings.

Definition byte_of (c : ascii) : N := N_of_ascii c.

Definition is_lower (c : ascii) : bool :=
  (97 <=? byte_of c)%N && (byte_of c <=? 122)%N.

Definition is_upper (c : ascii) : bool :=
  (65 <=? byte_of c)%N && (byte_of c <=? 90)%N.

Definition to_upper_byte (c : ascii) : ascii :=
  if is_lower c then ascii_of_N (byte_of c - 32) else c.

Definition to_lower_byte (c : ascii) : ascii :=
  if is_upper c then ascii_of_N (byte_of c + 32) else c.

Fixpoint map_bytes (f : ascii -> ascii) (s : string) : string :=
  match s with
  | EmptyString => EmptyString
  | String c s' => String (f c) (map_bytes f s')
  end.

(** [strings.ToUpper], [strings.ToLower] *)
Definition ToUpper : string -> string := map_bytes to_upper_byte.
Definition ToLower : string -> string := map_bytes to_lower_byte.

(** [strings.EqualFold] *)
Definition EqualFold (s t : string) : bool := String.eqb (ToLower s) (ToLower t).

(** [strings.HasPrefix s p] *)
Definition HasPrefix (s p : string) : bool := String.prefix p s.

(** [strings.Contains s sub]: [sub] occurs at some offset of [s]. *)
Fixpoint Contains (s sub : string) : bool :=
  HasPrefix s sub ||
  match s with
  | EmptyString => false
  | String _ s' => Contains s' sub
  end.

(** Position of the first occurrence of a one-byte separator, as the pair
    of what is before it and what is after it. *)
Fixpoint cut (c : ascii) (s : string) : option (string * string) :=
  match s with
  | EmptyString => None
  | String a s' =>
      if Ascii.eqb a c then Some (EmptyString, s')
      else match cut c s' with
           | Some (l, r) => Some (String a l, r)
           | None => None
           end
  end.

(** [strings.SplitN s sep n] for a one-byte [sep] and [n >= 0]: at most
    [n] pieces, the last one being the unsplit remainder. *)
Fixpoint SplitN (s : string) (sep : ascii) (n : nat) : list string :=
  match n with
  | O => []
  | S O => [s]
  | S n' =>
      match cut sep s with
      | Some (l, r) => l :: SplitN r sep n'
      | None => [s]
      end
  end.

Definition is_space (c : ascii) : bool :=
  let b := byte_of c in
  ((9 <=? b)%N && (b <=? 13)%N) || (b =? 32)%N.

Fixpoint TrimLeft (s : string) : string :=
  match s with
  | String c s' => if is_space c then TrimLeft s' else s
  | EmptyString => EmptyString
  end.

Fixpoint TrimRight (s : string) : string :=
  match s with
  | EmptyString => EmptyString
  | String c s' =>
      match TrimRight s' with
      | EmptyString => if is_space c then EmptyString else String c EmptyString
      | t => String c t
      end
  end.

(** [strings.TrimSpace] *)
Definition TrimSpace (s : string) : string := TrimRight (TrimLeft s).

(** [strings.Replace s old new 1] for a one-byte [old]. *)
Definition ReplaceFirst (s : string) (old : ascii) (new : string) : string :=
  match cut old s with
  | Some (l, r) => l ++ new ++ r
  | None => s
  end.

(** The first [n] bytes, [s[:n]]. *)
Definition first_bytes (n : nat) (s : string) : string := String.substring 0 n s.

End GoStrings.
Import GoStrings.

(* ===================================================================== *)
(** * Data model ([explorer.go]) *)
(* ===================================================================== *)

Abbreviation float64 := spec_float.

Record ExplorerAppFee := {
  fee_Recipient : string;
  Fee : Z                       (* basis points *)
}.

Record ExplorerTx := {
  DepositAddress : string;
  DepositMemo : string;
  Recipient : string;
  Status : string;
  AmountInFormatted : string;
  AmountOutFormatted : string;
  AmountInUsd : float64;
  AmountOutUsd : float64;
  OriginAsset : string;
  DestinationAsset : string;
  Senders : list string;
  NearTxHashes : list string;
  OriginChainTxHashes : list string;
  DestinationChainTxHashes : list string;
  AppFees : list ExplorerAppFee;
  CreatedAt : string;
  CreatedAtTimestamp : Z
}.

Record explorerPageResp := {
  Transactions : list ExplorerTx
}.

(** Modelled from the spec: the type of the catalogue entry that
    [findTokenByAssetID] yields is not in these sources; only the two fields
    the monitor reads of it. *)
Record TokenInfo := {
  Ticker : string;
  ChainName : string
}.

(** Modelled from the spec: the type [LogEntry] is not in these sources;
    affiliate name, the transaction and the fee computed for it, as the
    fields [e.Reseller], [e.Tx] and [e.FeeUSD] are used. *)
Record LogEntry := {
  Reseller : string;
  Tx : ExplorerTx;
  FeeUSD : float64
}.

(* ===================================================================== *)
(** * Fee/label resolver: labels ([explorer.go]) *)
(* ===================================================================== *)

(** The map literal of [explorerChainName]. *)
Definition chainNames : gmap string string :=
  list_to_map
    [ ("eth", "Ethereum"); ("btc", "Bitcoin"); ("sol", "Solana"); ("base", "Base");
      ("arb", "Arbitrum"); ("ton", "TON"); ("tron", "TRON"); ("trx", "TRON");
      ("bsc", "BNB Chain"); ("pol", "Polygon"); ("op", "Optimism");
      ("avax", "Avalanche"); ("near", "NEAR"); ("sui", "Sui");
      ("doge", "Dogecoin"); ("ltc", "Litecoin"); ("xrp", "XRP");
      ("bch", "Bitcoin Cash"); ("xlm", "Stellar"); ("nep141", "NEAR") ].

Definition explorerChainName (code : string) : string :=
  match chainNames !! ToLower code with
  | Some dn => dn
  | None => ToUpper code
  end.

(** [parts[0]] of a [SplitN] result; [SplitN _ _ 2] is never empty, so the
    default is not reached. *)
Definition first_part (parts : list string) : string := default "" (head parts).

Section Labels.

(** The token catalogue lookup of the swap front end ([nil] is [None]). *)
Variable findTokenByAssetID : string -> option TokenInfo.

(** [t != nil && t.Ticker != ""] *)
Definition known_ticker (assetID : string) : option string :=
  match findTokenByAssetID assetID with
  | Some t => if String.eqb (Ticker t) "" then None else Some (Ticker t)
  | None => None
  end.

(** [t != nil && t.ChainName != ""] *)
Definition known_chain (assetID : string) : option string :=
  match findTokenByAssetID assetID with
  | Some t => if String.eqb (ChainName t) "" then None else Some (ChainName t)
  | None => None
  end.

Definition txTokenLabel (assetID : string) : string :=
  match known_ticker assetID with
  | Some ticker => ticker
  | None =>
      match SplitN assetID ":" 2 with
      | [p0; p1] =>
          if negb (String.eqb (ToUpper p0) "NEP141") then ToUpper p0
          else ToUpper (first_part (SplitN p1 "." 2))
      | _ => ToUpper assetID
      end
  end.

Definition txChainLabel (assetID : string) : string :=
  match known_chain assetID with
  | Some chain => explorerChainName chain
  | None =>
      match SplitN assetID ":" 2 with
      | p0 :: _ => explorerChainName p0
      | [] => assetID
      end
  end.

End Labels.

(* ===================================================================== *)
(** * Fee/label resolver: fee ([explorer.go]) *)
(* ===================================================================== *)

Module GoNum.

Definition int_min : Z := - 2 ^ 63.
Definition int_max : Z := 2 ^ 63 - 1.

(** Two's-complement wrap-around of a 64-bit signed integer. *)
Definition wrap64 (z : Z) : Z := (z + 2 ^ 63) mod 2 ^ 64 - 2 ^ 63.

Definition in_int (z : Z) : Prop := int_min <= z <= int_max.

(** binary64 *)
Definition prec : Z := 53.
Definition emax : Z := 1024.

Definition fzero : float64 := S754_zero false.

(** The conversion [float64(i)] of an integer: round to nearest, ties to even. *)
Definition float64_of_int (i : Z) : float64 := binary_normalize prec emax i 0 false.

Definition fmul : float64 -> float64 -> float64 := SFmul prec emax.
Definition fdiv : float64 -> float64 -> float64 := SFdiv prec emax.
Definition fadd : float64 -> float64 -> float64 := SFadd prec emax.

(** [x == y] on floats *)
Definition feq (x y : float64) : bool := SFeqb x y.

Definition is_finite (x : float64) : bool :=
  match x with
  | S754_zero _ | S754_finite _ _ _ => true
  | _ => false
  end.

(** The constant [10000.0] *)
Definition f10000 : float64 := Eval vm_compute in float64_of_int 10000.

End GoNum.
Import GoNum.

(** The loop [for _, f := range tx.AppFees { bps += f.Fee }] from [bps]. *)
Fixpoint sum_fees (fees : list ExplorerAppFee) (bps : Z) : Z :=
  match fees with
  | [] => bps
  | f :: rest => sum_fees rest (wrap64 (bps + Fee f))
  end.

Definition txFeeUSD (tx : ExplorerTx) : float64 :=
  let bps := sum_fees (AppFees tx) 0 in
  if (bps =? 0)%Z || feq (AmountInUsd tx) fzero then fzero
  else fdiv (fmul (AmountInUsd tx) (float64_of_int bps)) f10000.

(* ===================================================================== *)
(** * Reporting page filter ([wrapperpage.go]) *)
(* ===================================================================== *)

(** The loop over [tx.NearTxHashes] that sets [hasHash] and breaks. *)
Fixpoint hasHashLoop (q : string) (hashes : list string) : bool :=
  match hashes with
  | [] => false
  | h :: rest => if Contains (ToLower h) q then true else hasHashLoop q rest
  end.

Section Filter.

Variable findTokenByAssetID : string -> option TokenInfo.

(** The closure [filter] of [handleWrapperLogs], over the two values it
    captures. *)
Definition logFilter (filterReseller query : string) (e : LogEntry) : bool :=
  if negb (String.eqb filterReseller "") && negb (EqualFold (Reseller e) filterReseller)
  then false
  else if negb (String.eqb query "") then
    let q := ToLower query in
    let tx := Tx e in
    if negb (Contains (ToLower (Recipient tx)) q) &&
       negb (Contains (ToLower (DepositAddress tx)) q) &&
       negb (Contains (ToLower (txTokenLabel findTokenByAssetID (OriginAsset tx))) q) &&
       negb (Contains (ToLower (txTokenLabel findTokenByAssetID (DestinationAsset tx))) q) &&
       negb (Contains (ToLower (Reseller e)) q)
    then
      if negb (hasHashLoop q (NearTxHashes tx)) then false else true
    else true
  else true.

(** The filter [handleWrapperLogs] builds from the request's [q] and
    [reseller] parameters. *)
Definition wrapperLogsFilter (qParam resellerParam : string) : LogEntry -> bool :=
  logFilter resellerParam (TrimSpace qParam).

End Filter.

(* ===================================================================== *)
(** * Transaction source client ([explorer.go]) *)
(* ===================================================================== *)

Module GoURL.

Definition hex_digit (n : N) : ascii :=
  if (n <? 10)%N then ascii_of_N (48 + n) else ascii_of_N (55 + n).

Definition is_digit (c : ascii) : bool :=
  (48 <=? byte_of c)%N && (byte_of c <=? 57)%N.

(** [shouldEscape c encodeQueryComponent] of [net/url] *)
Definition shouldEscape (c : ascii) : bool :=
  negb (is_lower c || is_upper c || is_digit c ||
        Ascii.eqb c "-" || Ascii.eqb c "_" || Ascii.eqb c "." || Ascii.eqb c "~").

(** [url.QueryEscape] *)
Fixpoint QueryEscape (s : string) : string :=
  match s with
  | EmptyString => EmptyString
  | String c s' =>
      if Ascii.eqb c " " then String "+" (QueryEscape s')
      else if shouldEscape c then
        String "%" (String (hex_digit (byte_of c / 16))
                      (String (hex_digit (byte_of c mod 16)) (QueryEscape s')))
      else String c (QueryEscape s')
  end.

(** [url.Values] is a [map[string][]string]. *)
Abbreviation Values := (gmap string (list string)).

(** [v.Set(key, value)] *)
Definition Set_ (key value : string) (v : Values) : Values := <[key := [value]]> v.

Definition key_le (a b : string) : Prop := String.leb a b = true.

#[export] Instance key_le_dec : RelDecision key_le.
Proof. intros a b. unfold key_le. apply _. Defined.

Definition sorted_keys (v : Values) : list string :=
  merge_sort key_le (fst <$> map_to_list v).

Definition encode_key (v : Values) (k : string) : list string :=
  (fun x => QueryEscape k ++ "=" ++ QueryEscape x) <$> default [] (v !! k).

(** [v.Encode()]: [key=value] pairs, keys in increasing order, joined by [&]. *)
Definition Encode (v : Values) : string :=
  String.concat "&" (concat (encode_key v <$> sorted_keys v)).

End GoURL.

(** [fmt.Sprintf("%d", i)] *)
Definition sprint_d (i : Z) : string := NilZero.string_of_int (Z.to_int i).

(** Go [error] values, by the call that produced them. *)
Inductive error :=
| ErrNewRequest (detail : string)        (* http.NewRequest *)
| ErrDo (detail : string)                (* explorerClient.Do *)
| ErrReadAll (detail : string)           (* io.ReadAll *)
| ErrorF (message : string)              (* fmt.Errorf *)
| ErrUnmarshal (detail : string).        (* json.Unmarshal *)

Record Request := {
  req_method : string;
  req_url : string;
  req_header : gmap string string
}.

(** What one round trip of [explorerClient.Do] followed by [io.ReadAll] of
    the body can give. *)
Inductive exchange :=
| DoFails (e : error)
| ReadFails (status : Z) (e : error)
| Answer (status : Z) (body : string).

(** The network as the client sees it: the requests sent so far, oldest
    first.  An answer may depend on everything sent before. *)
Abbreviation Wire := (list Request).

Definition explorerBaseURL : string := "https://explorer.near-intents.org/api".

Section ExplorerClient.

(** [NEAR_INTENTS_EXPLORER_JWT] *)
Variable explorerJWT : string.
(** [http.NewRequest "GET" url nil]: the error for a URL it rejects. *)
Variable newRequestError : string -> option error.
(** The remote end and the transport. *)
Variable roundTrip : Wire -> Request -> exchange.
(** [json.Unmarshal] into an [explorerPageResp]. *)
Variable jsonUnmarshal : string -> error + explorerPageResp.

Definition explorerGet (endpoint : string) (w : Wire) : (error + string) * Wire :=
  let url := explorerBaseURL ++ endpoint in
  match newRequestError url with
  | Some err => (inl err, w)
  | None =>
      let h0 : gmap string string := <["Accept" := "application/json"]> ∅ in
      let h := if negb (String.eqb explorerJWT "")
               then <["Authorization" := "Bearer " ++ explorerJWT]> h0 else h0 in
      let req := {| req_method := "GET"; req_url := url; req_header := h |} in
      match roundTrip w req with
      | DoFails err => (inl err, (w ++ [req])%list)
      | ReadFails _ err => (inl err, (w ++ [req])%list)
      | Answer status data =>
          if (status <? 200)%Z || (status >=? 300)%Z
          then (inl (ErrorF ("explorer " ++ sprint_d status ++ ": " ++ data)), (w ++ [req])%list)
          else (inr data, (w ++ [req])%list)
      end
  end.

(** The query [fetchExplorerTxs] builds. *)
Definition fetchQuery (affiliate lastAddr lastMemo : string) (count : Z) : GoURL.Values :=
  let q : GoURL.Values := ∅ in
  let q := GoURL.Set_ "affiliate" affiliate q in
  let q := GoURL.Set_ "statuses" "SUCCESS" q in
  let q := GoURL.Set_ "numberOfTransactions" (sprint_d count) q in
  let q := GoURL.Set_ "direction" "next" q in
  if negb (String.eqb lastAddr "") then
    let q := GoURL.Set_ "lastDepositAddress" lastAddr q in
    if negb (String.eqb lastMemo "") then GoURL.Set_ "lastDepositMemo" lastMemo q
    else q
  else q.

Definition fetchExplorerTxs (affiliate lastAddr lastMemo : string) (count : Z) (w : Wire)
  : (error + list ExplorerTx) * Wire :=
  let q := fetchQuery affiliate lastAddr lastMemo count in
  match explorerGet ("/v0/transactions?" ++ GoURL.Encode q) w with
  | (inl err, w') => (inl err, w')
  | (inr data, w') =>
      match jsonUnmarshal data with
      | inl err => (inl err, w')
      | inr r => (inr (Transactions r), w')
      end
  end.

End ExplorerClient.

(* ===================================================================== *)
(** * Notifier ([monitor card and chat description]) *)
(* ===================================================================== *)

Module GoTime.

(** Calendar fields of [time.Unix(ts, 0).UTC()]: the proleptic Gregorian
    calendar, days counted from 1970-01-01.  [Z.div] and [Z.modulo] round
    towards minus infinity, so instants before the epoch need no special
    case. *)

Definition days_of (ts : Z) : Z := ts / 86400.
Definition Hour (ts : Z) : Z := (ts mod 86400) / 3600.
Definition Minute (ts : Z) : Z := (ts mod 3600) / 60.

(** Day of the 400-year era (0 .. 146096), eras starting on 1 March. *)
Definition day_of_era (ts : Z) : Z := (days_of ts + 719468) mod 146097.

Definition year_of_era (doe : Z) : Z :=
  (doe - doe / 1460 + doe / 36524 - doe / 146096) / 365.

(** Day of the year that starts on 1 March (0 .. 365). *)
Definition day_of_year (doe : Z) : Z :=
  let yoe := year_of_era doe in
  doe - (365 * yoe + yoe / 4 - yoe / 100).

(** Month counted from March (0 .. 11). *)
Definition month_from_march (doy : Z) : Z := (5 * doy + 2) / 153.

Definition Day (ts : Z) : Z :=
  let doy := day_of_year (day_of_era ts) in
  doy - (153 * month_from_march doy + 2) / 5 + 1.

Definition Month (ts : Z) : Z :=
  let mp := month_from_march (day_of_year (day_of_era ts)) in
  if (mp <? 10)%Z then mp + 3 else mp - 9.

Definition month_names : list string :=
  [ "January"; "February"; "March"; "April"; "May"; "June"; "July";
    "August"; "September"; "October"; "November"; "December" ].

(** [Month.String()] for a month in 1 .. 12 *)
Definition MonthString (m : Z) : string :=
  default "" (month_names !! Z.to_nat (m - 1)).

End GoTime.

(** The verb [%02d] on a value that is not negative. *)
Definition sprint_02d (i : Z) : string :=
  if (i <? 10)%Z then "0" ++ sprint_d i else sprint_d i.

(** The two bytes of U+00B7, the dot between the fields of a card. *)
Definition middot : string := String (ascii_of_N 194) (String (ascii_of_N 183) "").

Definition monitorFormatTime (ts : Z) : string :=
  if (ts =? 0)%Z then "unknown"
  else
    sprint_d (GoTime.Day ts) ++ " " ++
    first_bytes 3 (GoTime.MonthString (GoTime.Month ts)) ++ " " ++ middot ++ " " ++
    sprint_02d (GoTime.Hour ts) ++ ":" ++ sprint_02d (GoTime.Minute ts) ++ "z".

(** Modelled from the spec: [tgRequest] is not in these sources; the two
    calls [updateMainChatDescription] makes through it to the notification
    sink. *)
Inductive tgCall :=
| GetChat (chat_id : Z)
| SetChatDescription (chat_id : Z) (description : string).

(** Modelled from the spec: the notification sink behind the absent
    [tgRequest], as far as this code sees it: the description of the
    channel and the calls made so far, oldest first. *)
Record Telegram := {
  tg_description : string;
  tg_calls : list tgCall
}.

Definition tg_call (c : tgCall) (tg : Telegram) : Telegram :=
  {| tg_description := tg_description tg; tg_calls := tg_calls tg ++ [c] |}.

Definition tg_set_description (d : string) (tg : Telegram) : Telegram :=
  {| tg_description := d; tg_calls := tg_calls tg |}.

Section Notifier.

Variable monitorMainChatID : Z.
Variable tgBotToken : string.
(** The USD formatter of the front end. *)
Variable formatUSD : float64 -> string.

(** [getOk]: [getChat] succeeds and its result decodes, giving the current
    description of the chat; [setOk]: [setChatDescription] succeeds, making
    its argument the description.  [total] is what [monitorTotalFeeUSD()]
    returns. *)
Definition updateMainChatDescription (getOk setOk : bool) (total : float64)
    (tg : Telegram) : Telegram :=
  if (monitorMainChatID =? 0)%Z || String.eqb tgBotToken "" then tg
  else
    let tg1 := tg_call (GetChat monitorMainChatID) tg in
    if negb getOk then tg1
    else
      let description := tg_description tg1 in
      if String.eqb description "" then tg1
      else if negb (Contains description "$") then tg1
      else
        let newDesc := ReplaceFirst description "$" (formatUSD total) in
        let tg2 := tg_call (SetChatDescription monitorMainChatID newDesc) tg1 in
        if setOk then tg_set_description newDesc tg2 else tg2.

End Notifier.

(* ===================================================================== *)
(** * Bounded log buffer *)
(* ===================================================================== *)

Section LogBuffer.

Context {A : Type}.

(** Modelled from the spec: the log buffer type and its [append] are not in
    these sources (only the call [monitorLogBuf.snapshot(500, filter)] is).
    The entries are kept in insertion order, oldest first; the capacity is a
    fixed configured constant. *)
Variable capacity : nat.

(** Modelled from the spec: [append(entry)] of the absent log buffer; once
    the capacity is reached the oldest entry is evicted on each insert. *)
Definition lb_append (e : A) (buf : list A) : list A :=
  if decide (capacity <= length buf)%nat then drop 1 buf ++ [e] else buf ++ [e].

(** Modelled from the spec: [append] of the absent log buffer, once for
    each entry of [es] in order. *)
Definition lb_append_all (es : list A) (buf : list A) : list A :=
  fold_left (fun b e => lb_append e b) es buf.

(** Modelled from the spec: the scan of the absent [snapshot], over the
    entries newest first; it stops once [limit] matches are collected or the
    entries are exhausted, whichever comes first. *)
Fixpoint lb_collect (limit : nat) (predicate : A -> bool) (newest_first : list A) : list A :=
  match limit, newest_first with
  | O, _ => []
  | _, [] => []
  | S n, e :: rest =>
      if predicate e then e :: lb_collect n predicate rest
      else lb_collect limit predicate rest
  end.

(** Modelled from the spec: [snapshot(limit, predicate)] of the absent log
    buffer, newest first. *)
Definition lb_snapshot (limit : nat) (predicate : A -> bool) (buf : list A) : list A :=
  lb_collect limit predicate (reverse buf).

End LogBuffer.

(** The entries [handleWrapperLogs] shows for the request parameters [q]
    and [reseller]. *)
Definition wrapperLogEntries (findTokenByAssetID : string -> option TokenInfo)
    (qParam resellerParam : string) (monitorLogBuf : list LogEntry) : list LogEntry :=
  lb_snapshot 500 (wrapperLogsFilter findTokenByAssetID qParam resellerParam) monitorLogBuf.

(* ===================================================================== *)
(** * Cursor store, live stats and poller *)
(* ===================================================================== *)

(** Modelled from the spec: the cursor of the absent cursor store, the
    (deposit address, deposit memo) pair of the last processed
    transaction; the zero value stands for no cursor recorded. *)
Record Cursor := {
  cur_addr : string;
  cur_memo : string
}.

(** Modelled from the spec: the zero value of the absent cursor type. *)
Definition zeroCursor : Cursor := {| cur_addr := ""; cur_memo := "" |}.

(** Modelled from the spec: equality of two cursors of the absent cursor
    store, field by field. *)
Definition cursor_eqb (c d : Cursor) : bool :=
  String.eqb (cur_addr c) (cur_addr d) && String.eqb (cur_memo c) (cur_memo d).

(** Modelled from the spec: the pagination key of a transaction, the
    cursor that points at it. *)
Definition txKey (tx : ExplorerTx) : Cursor :=
  {| cur_addr := DepositAddress tx; cur_memo := DepositMemo tx |}.

(** Modelled from the spec: the three counters of the absent [LiveStats]. *)
Record LiveStats := {
  ls_feeUSD : float64;
  ls_volumeUSD : float64;
  ls_swaps : Z
}.

(** Modelled from the spec: the absent [LiveStats] at process start. *)
Definition zeroStats : LiveStats :=
  {| ls_feeUSD := fzero; ls_volumeUSD := fzero; ls_swaps := 0 |}.

(** Modelled from the spec: [record(affiliateID, feeUSD, volumeUSD)] of the
    absent aggregator, on one affiliate's counters. *)
Definition ls_record (feeUSD volumeUSD : float64) (s : LiveStats) : LiveStats :=
  {| ls_feeUSD := fadd (ls_feeUSD s) feeUSD;
     ls_volumeUSD := fadd (ls_volumeUSD s) volumeUSD;
     ls_swaps := wrap64 (ls_swaps s + 1) |}.

(** Modelled from the spec: the state the absent poller works on.  The
    field [mon_recorded] is the history of what was recorded into the
    aggregator, oldest first; it is there to state properties and is read
    by no operation. *)
Record Monitor := {
  mon_cursors : gmap string Cursor;
  mon_stats : gmap string LiveStats;
  mon_log : list LogEntry;
  mon_recorded : list (string * ExplorerTx)
}.

(** Modelled from the spec: the state of the absent poller at its first
    start, nothing fetched yet. *)
Definition emptyMonitor : Monitor :=
  {| mon_cursors := ∅; mon_stats := ∅; mon_log := []; mon_recorded := [] |}.

(** Modelled from the spec: [get(affiliateID)] of the absent cursor store. *)
Definition cursorGet (affiliate : string) (m : Monitor) : Cursor :=
  default zeroCursor (mon_cursors m !! affiliate).

(** Modelled from the spec: [advance(affiliateID, newCursor)] of the absent
    cursor store; [None] reports that persisting failed, and nothing is
    stored then. *)
Definition cursorAdvance (persistOk : bool) (affiliate : string) (c : Cursor)
    (m : Monitor) : option Monitor :=
  if persistOk then
    Some {| mon_cursors := <[affiliate := c]> (mon_cursors m);
            mon_stats := mon_stats m;
            mon_log := mon_log m;
            mon_recorded := mon_recorded m |}
  else None.

(** Modelled from the spec: what the upstream feed holds after a cursor, in
    pagination order. *)
Fixpoint after_cursor (c : Cursor) (txs : list ExplorerTx) : list ExplorerTx :=
  match txs with
  | [] => []
  | t :: rest => if cursor_eqb (txKey t) c then rest else after_cursor c rest
  end.

(** Modelled from the spec: [fetchPage(affiliateID, cursor, pageSize)] on
    one affiliate's history; an empty cursor requests the oldest page. *)
Definition fetchPage (history : list ExplorerTx) (c : Cursor) (pageSize : nat)
  : list ExplorerTx :=
  take pageSize (if cursor_eqb c zeroCursor then history else after_cursor c history).

Section Poller.

Variable logCapacity : nat.
Variable pageSize : nat.
(** Display names of the registered affiliates. *)
Variable displayName : string -> string.
(** The upstream history of each affiliate, in pagination order. *)
Variable feed : string -> list ExplorerTx.

(** Modelled from the spec: step 4 of the absent poller for one
    transaction: compute the fee, record it into the aggregator, append to
    the log buffer. *)
Definition commitTx (affiliate : string) (m : Monitor) (tx : ExplorerTx) : Monitor :=
  let fee := txFeeUSD tx in
  let s := default zeroStats (mon_stats m !! affiliate) in
  {| mon_cursors := mon_cursors m;
     mon_stats := <[affiliate := ls_record fee (AmountInUsd tx) s]> (mon_stats m);
     mon_log := lb_append logCapacity
                  {| Reseller := displayName affiliate; Tx := tx; FeeUSD := fee |}
                  (mon_log m);
     mon_recorded := mon_recorded m ++ [(affiliate, tx)] |}.

(** Modelled from the spec: step 4 of the absent poller for a whole page,
    in page order. *)
Definition commitPage (affiliate : string) (page : list ExplorerTx) (m : Monitor) : Monitor :=
  fold_left (commitTx affiliate) page m.

(** Modelled from the spec: what the surroundings of the absent poller
    decide for one page attempt, whether the fetch succeeds and whether
    persisting the cursor does. *)
Record attempt := {
  fetchOk : bool;
  persistOk : bool
}.

(** Modelled from the spec: steps 1 to 5 of the absent poller for one page;
    the boolean tells whether the cycle goes on to the next page (step 6). *)
Definition pollPage (o : attempt) (affiliate : string) (m : Monitor) : Monitor * bool :=
  let c := cursorGet affiliate m in
  if negb (fetchOk o) then (m, false)
  else
    let page := fetchPage (feed affiliate) c pageSize in
    match last page with
    | None => (m, false)
    | Some lastTx =>
        let m1 := commitPage affiliate page m in
        match cursorAdvance (persistOk o) affiliate (txKey lastTx) m1 with
        | Some m2 => (m2, Nat.eqb (length page) pageSize)
        | None => (m1, false)
        end
    end.

(** Modelled from the spec: one cycle of the absent poller for one
    affiliate; the environment's decisions, one per page attempt, are
    consumed in order and the cycle ends with them at the latest. *)
Fixpoint pollCycle (script : list attempt) (affiliate : string) (m : Monitor) : Monitor :=
  match script with
  | [] => m
  | o :: rest =>
      match pollPage o affiliate m with
      | (m', true) => pollCycle rest affiliate m'
      | (m', false) => m'
      end
  end.

(** Modelled from the spec: a run of the absent poller, cycles of any
    affiliates one after the other. *)
Definition runCycles (cycles : list (string * list attempt)) (m : Monitor) : Monitor :=
  fold_left (fun m c => pollCycle c.2 c.1 m) cycles m.

(** Modelled from the spec: the position of a cursor of the absent cursor
    store, the number of transactions of a history at or before it. *)
Definition cursorPos (history : list ExplorerTx) (c : Cursor) : nat :=
  if cursor_eqb c zeroCursor then O
  else (length history - length (after_cursor c history))%nat.

End Poller.

(* ===================================================================== *)
(** * Notions used in the statements *)
(* ===================================================================== *)

(** [c] occurs in [s]. *)
Fixpoint has_byte (c : ascii) (s : string) : bool :=
  match s with
  | EmptyString => false
  | String a s' => Ascii.eqb a c || has_byte c s'
  end.

(** [assetID] has the shape [prefix:rest], [prefix] being what stands
    before the first colon. *)
Definition splits_at_colon (assetID prefix rest : string) : Prop :=
  assetID = prefix ++ String ":" rest /\ has_byte ":" prefix = false.

(** [s] has the shape [segment.rest] at its first dot, or has no dot and is
    the segment itself. *)
Definition first_segment (s segment : string) : Prop :=
  (exists rest, s = segment ++ String "." rest /\ has_byte "." segment = false) \/
  (s = segment /\ has_byte "." s = false).

(** What stands before the first [c], the whole string when there is none. *)
Definition before_first (c : ascii) (s : string) : string :=
  match cut c s with
  | Some (p, _) => p
  | None => s
  end.

(** ** The rules as the specification words them *)

(** The label rule in the specification's words, read for token labels:
    the catalogue first; failing that the prefix before the colon through
    the chain table, which defaults to the uppercased prefix; for the
    [nep141] namespace the uppercased ticker segment. *)
Definition spec_tokenLabel (findTokenByAssetID : string -> option TokenInfo)
    (assetID : string) : string :=
  match findTokenByAssetID assetID with
  | Some t => Ticker t
  | None =>
      match cut ":" assetID with
      | Some (p, rest) =>
          if String.eqb (ToUpper p) "NEP141"
          then ToUpper (before_first "." rest)
          else explorerChainName p
      | None => explorerChainName assetID
      end
  end.

(** The fields the specification lets a query match: reseller name,
    recipient, deposit address, asset labels, and every recorded chain
    transaction hash. *)
Definition spec_searchFields (findTokenByAssetID : string -> option TokenInfo)
    (e : LogEntry) : list string :=
  let tx := Tx e in
  [ Reseller e; Recipient tx; DepositAddress tx;
    txTokenLabel findTokenByAssetID (OriginAsset tx);
    txChainLabel findTokenByAssetID (OriginAsset tx);
    txTokenLabel findTokenByAssetID (DestinationAsset tx);
    txChainLabel findTokenByAssetID (DestinationAsset tx) ]
  ++ NearTxHashes tx ++ OriginChainTxHashes tx ++ DestinationChainTxHashes tx.

(** The match of the specification: some field contains the query, case
    being ignored. *)
Definition spec_logMatch (findTokenByAssetID : string -> option TokenInfo)
    (query : string) (e : LogEntry) : bool :=
  existsb (fun field => Contains (ToLower field) (ToLower query))
    (spec_searchFields findTokenByAssetID e).

(** The fields the filter of [handleWrapperLogs] looks at. *)
Definition searchedFields (findTokenByAssetID : string -> option TokenInfo)
    (e : LogEntry) : list string :=
  let tx := Tx e in
  [ Recipient tx; DepositAddress tx;
    txTokenLabel findTokenByAssetID (OriginAsset tx);
    txTokenLabel findTokenByAssetID (DestinationAsset tx);
    Reseller e ]
  ++ NearTxHashes tx.

(** ** Reporting filter *)

(** A catalogue that knows one asset, USDT on TRON. *)
Definition usdtTronID : string :=
  "nep141:tron-d28a265909efecdcee7c5028585214ea0b96f015.omft.near".

Definition usdtTronCatalogue (assetID : string) : option TokenInfo :=
  if String.eqb assetID usdtTronID
  then Some {| Ticker := "USDT"; ChainName := "tron" |}
  else None.

(** A swap of ETH into USDT on TRON, and one whose only trace of the query
    is a hash on the origin chain. *)
Definition tronEntry : LogEntry :=
  {| Reseller := "EagleSwap";
     Tx := {| DepositAddress := "0x5a1b3c";
              DepositMemo := "";
              Recipient := "TQn9Y2khEsLJW1ChVWFMSMeRDow5KcbLSE";
              Status := "SUCCESS";
              AmountInFormatted := "0.5";
              AmountOutFormatted := "1842.0";
              AmountInUsd := fzero;
              AmountOutUsd := fzero;
              OriginAsset := "nep141:eth.omft.near";
              DestinationAsset := usdtTronID;
              Senders := [];
              NearTxHashes := ["9xKq"];
              OriginChainTxHashes := [];
              DestinationChainTxHashes := [];
              AppFees := [];
              CreatedAt := "";
              CreatedAtTimestamp := 0 |};
     FeeUSD := fzero |}.

Definition originHashEntry : LogEntry :=
  {| Reseller := "EagleSwap";
     Tx := {| DepositAddress := "0x5a1b3c";
              DepositMemo := "";
              Recipient := "0x77e2";
              Status := "SUCCESS";
              AmountInFormatted := "0.5";
              AmountOutFormatted := "1842.0";
              AmountInUsd := fzero;
              AmountOutUsd := fzero;
              OriginAsset := "nep141:eth.omft.near";
              DestinationAsset := "nep141:btc.omft.near";
              Senders := [];
              NearTxHashes := ["9xKq"];
              OriginChainTxHashes := ["0xdeadbeef"];
              DestinationChainTxHashes := [];
              AppFees := [];
              CreatedAt := "";
              CreatedAtTimestamp := 0 |};
     FeeUSD := fzero |}.

(** ** Fee *)

(** The sum of the basis points of a fee schedule, as a number. *)
Definition total_bps (fees : list ExplorerAppFee) : Z :=
  fold_right (fun f acc => Fee f + acc) 0 fees.

(** The transaction of the specification's scenario: 100 USD in, fee
    schedule of 30 and 20 basis points. *)
Definition eagleTx : ExplorerTx :=
  {| DepositAddress := "0x5a1b3c"; DepositMemo := ""; Recipient := "0x77e2";
     Status := "SUCCESS";
     AmountInFormatted := "100"; AmountOutFormatted := "99.5";
     AmountInUsd := float64_of_int 100; AmountOutUsd := float64_of_int 99;
     OriginAsset := "eth:0xabc"; DestinationAsset := "tron:TXYZ";
     Senders := []; NearTxHashes := []; OriginChainTxHashes := [];
     DestinationChainTxHashes := [];
     AppFees := [ {| fee_Recipient := "eagle"; Fee := 30 |};
                  {| fee_Recipient := "uswap"; Fee := 20 |} ];
     CreatedAt := ""; CreatedAtTimestamp := 1772073660 |}.

(** One half, [0.5]. *)
Definition fhalf : float64 := S754_finite false 4503599627370496 (-53).

(** ** Transaction source client *)

(** The request [explorerGet] sends for an endpoint. *)
Definition explorerRequest (explorerJWT endpoint : string) : Request :=
  {| req_method := "GET";
     req_url := explorerBaseURL ++ endpoint;
     req_header :=
       if String.eqb explorerJWT "" then <["Accept" := "application/json"]> ∅
       else <["Authorization" := "Bearer " ++ explorerJWT]>
              (<["Accept" := "application/json"]> ∅) |}.

(** The endpoint [fetchExplorerTxs] asks for. *)
Definition fetchEndpoint (affiliate lastAddr lastMemo : string) (count : Z) : string :=
  "/v0/transactions?" ++ GoURL.Encode (fetchQuery affiliate lastAddr lastMemo count).

(** The endpoint of a request that carries no cursor. *)
Definition cursorlessEndpoint (affiliate : string) (count : Z) : string :=
  "/v0/transactions?affiliate=" ++ GoURL.QueryEscape affiliate ++
  "&direction=next&numberOfTransactions=" ++ sprint_d count ++ "&statuses=SUCCESS".

Definition is_2xx (status : Z) : Prop := 200 <= status < 300.

(** A string between double quotes. *)
Definition json_quote (s : string) : string :=
  String (ascii_of_N 34) (s ++ String (ascii_of_N 34) "").

(** The body [{"transactions":[{"status":"PENDING"}]}]. *)
Definition pendingBody : string :=
  "{" ++ json_quote "transactions" ++ ":[{" ++ json_quote "status" ++ ":" ++
  json_quote "PENDING" ++ "}]}".

(** What [json.Unmarshal] makes of [pendingBody]: one record, every field
    but the status at its zero value. *)
Definition pendingTx : ExplorerTx :=
  {| DepositAddress := ""; DepositMemo := ""; Recipient := ""; Status := "PENDING";
     AmountInFormatted := ""; AmountOutFormatted := "";
     AmountInUsd := fzero; AmountOutUsd := fzero;
     OriginAsset := ""; DestinationAsset := "";
     Senders := []; NearTxHashes := []; OriginChainTxHashes := [];
     DestinationChainTxHashes := []; AppFees := [];
     CreatedAt := ""; CreatedAtTimestamp := 0 |}.

(** [json.Unmarshal] on the one body it is asked about here. *)
Definition unmarshalPending (data : string) : error + explorerPageResp :=
  if String.eqb data pendingBody then inr {| Transactions := [pendingTx] |}
  else inl (ErrUnmarshal "invalid character").

(** An upstream that answers every request with status 200 and
    [pendingBody]. *)
Definition pendingUpstream (w : Wire) (req : Request) : exchange :=
  Answer 200 pendingBody.

(** An upstream that is down. *)
Definition deadUpstream (w : Wire) (req : Request) : exchange :=
  DoFails (ErrDo "connection refused").

(** ** Notifier *)

(** Several passes of [updateMainChatDescription], one per entry of the
    script: whether [getChat] and [setChatDescription] succeed, and the
    grand total at that moment. *)
Definition updateRepeatedly (monitorMainChatID : Z) (tgBotToken : string)
    (formatUSD : float64 -> string) (script : list (bool * bool * float64))
    (tg : Telegram) : Telegram :=
  fold_left
    (fun tg pass =>
       updateMainChatDescription monitorMainChatID tgBotToken formatUSD
         pass.1.1 pass.1.2 pass.2 tg)
    script tg.

(** Two formatters for examples: one that writes the dollar sign, as the
    titles and cards of the monitor show it, and one that does not. *)
Definition formatWithSign (x : float64) : string := "$24,210".
Definition formatBare (x : float64) : string := "24,210".

(** The decimal text of [i] does not start with the letter [u]. *)
Definition not_u (i : Z) : bool := negb (HasPrefix (sprint_d i) "u").

(** The card's rendering of an instant that has a timestamp. *)
Definition renderTime (day : Z) (month : string) (hour minute : Z) : string :=
  sprint_d day ++ " " ++ first_bytes 3 month ++ " " ++ middot ++ " " ++
  sprint_02d hour ++ ":" ++ sprint_02d minute ++ "z".

(** [f] holds at [start], [start + 1], ..., [n] values in all. *)
Fixpoint holds_from (f : Z -> bool) (start : Z) (n : nat) : bool :=
  match n with
  | O => true
  | S n' => f start && holds_from f (start + 1) n'
  end.

(** ** Poller *)

(** The keys of a history identify its transactions: none is the zero
    cursor and no two are equal. *)
Fixpoint keys_ok (txs : list ExplorerTx) : bool :=
  match txs with
  | [] => true
  | t :: rest =>
      negb (cursor_eqb (txKey t) zeroCursor) &&
      negb (existsb (fun u => cursor_eqb (txKey u) (txKey t)) rest) &&
      keys_ok rest
  end.

(** The transactions of a history at or before a cursor. *)
Definition committed (history : list ExplorerTx) (c : Cursor) : list ExplorerTx :=
  take (cursorPos history c) history.

(** A page as the aggregator's history records it. *)
Definition tagged (affiliate : string) (page : list ExplorerTx)
  : list (string * ExplorerTx) :=
  (fun tx => (affiliate, tx)) <$> page.

(** The log rows of a page. *)
Definition logRows (displayName : string -> string) (affiliate : string)
    (page : list ExplorerTx) : list LogEntry :=
  (fun tx => {| Reseller := displayName affiliate; Tx := tx; FeeUSD := txFeeUSD tx |})
    <$> page.

(** A history [done ++ rest] whose cursor stands at the end of [done]. *)
Definition at_split (history : list ExplorerTx) (c : Cursor)
    (done rest : list ExplorerTx) : Prop :=
  history = (done ++ rest)%list /\ c = from_option txKey zeroCursor (last done).

(** A transaction that is all zero but for its deposit address. *)
Definition depositTx (addr : string) : ExplorerTx :=
  {| DepositAddress := addr; DepositMemo := ""; Recipient := ""; Status := "SUCCESS";
     AmountInFormatted := ""; AmountOutFormatted := "";
     AmountInUsd := fzero; AmountOutUsd := fzero;
     OriginAsset := ""; DestinationAsset := "";
     Senders := []; NearTxHashes := []; OriginChainTxHashes := [];
     DestinationChainTxHashes := []; AppFees := [];
     CreatedAt := ""; CreatedAtTimestamp := 0 |}.

(** Five settled swaps of the affiliate [eagle], none of anyone else. *)
Definition eaglePage : list ExplorerTx :=
  [depositTx "d1"; depositTx "d2"; depositTx "d3"; depositTx "d4"; depositTx "d5"].

Definition eagleFeed (affiliate : string) : list ExplorerTx :=
  if String.eqb affiliate "eagle" then eaglePage else [].

(** What a run of the poller keeps true: for every affiliate the cursor
    stands at the end of a prefix of the history, and everything in that
    prefix has been recorded into the aggregator. *)
Definition poller_inv (feed : string -> list ExplorerTx) (m : Monitor) : Prop :=
  forall affiliate, exists done rest,
    at_split (feed affiliate) (cursorGet affiliate m) done rest /\
    forall tx, tx ∈ done -> (affiliate, tx) ∈ mon_recorded m.

(** Modelled from the spec: [snapshot(affiliateID)] of the absent
    aggregator; an affiliate nothing was recorded for has zero counters. *)
Definition statsSnapshot (affiliate : string) (m : Monitor) : LiveStats :=
  default zeroStats (mon_stats m !! affiliate).

(** The counters after recording every transaction of a page, in order. *)
Definition recordPage (page : list ExplorerTx) (s : LiveStats) : LiveStats :=
  fold_left (fun s tx => ls_record (txFeeUSD tx) (AmountInUsd tx) s) page s.

(* ===================================================================== *)
(** * Notions used in the further properties *)
(* ===================================================================== *)

(** Every byte of [s] satisfies [p]. *)
Fixpoint all_bytes (p : ascii -> bool) (s : string) : bool :=
  match s with
  | EmptyString => true
  | String c s' => p c && all_bytes p s'
  end.



(** A byte below 128. *)
Definition is_ascii_byte (c : ascii) : bool := (byte_of c <? 128)%N.

(** The sign of a float that is a number or an infinity. *)
Definition has_sign (s : bool) (x : float64) : Prop :=
  match x with
  | S754_zero s' | S754_infinity s' | S754_finite s' _ _ => s' = s
  | S754_nan => False
  end.

(** [x < y] on floats *)
Definition flt (x y : float64) : bool := SFltb x y.


(** The swap of [eagleTx] with the entries of its fee schedule in the other
    order. *)
Definition eagleTxSwapped : ExplorerTx :=
  {| DepositAddress := "0x5a1b3c"; DepositMemo := ""; Recipient := "0x77e2";
     Status := "SUCCESS";
     AmountInFormatted := "100"; AmountOutFormatted := "99.5";
     AmountInUsd := float64_of_int 100; AmountOutUsd := float64_of_int 99;
     OriginAsset := "eth:0xabc"; DestinationAsset := "tron:TXYZ";
     Senders := []; NearTxHashes := []; OriginChainTxHashes := [];
     DestinationChainTxHashes := [];
     AppFees := [ {| fee_Recipient := "uswap"; Fee := 20 |};
                  {| fee_Recipient := "eagle"; Fee := 30 |} ];
     CreatedAt := ""; CreatedAtTimestamp := 1772073660 |}.

(* ===================================================================== *)
(** * Log time of the reporting page ([wrapperpage.go]) *)
(* ===================================================================== *)

(** The string made of the given bytes. *)
Fixpoint bytes_string (l : list N) : string :=
  match l with
  | [] => EmptyString
  | b :: rest => String (ascii_of_N b) (bytes_string rest)
  end.

(** Calendar year of [time.Unix(ts, 0).UTC()]; the eras start on 1 March,
    so January and February belong to the next year. *)
Definition Year (ts : Z) : Z :=
  let doe := GoTime.day_of_era ts in
  let era := (GoTime.days_of ts + 719468) / 146097 in
  let y := GoTime.year_of_era doe + era * 400 in
  if (GoTime.month_from_march (GoTime.day_of_year doe) <? 10)%Z then y else y + 1.

(** A number that is not negative on at least four digits. *)
Definition pad4 (i : Z) : string :=
  if (i <? 10)%Z then "000" ++ sprint_d i
  else if (i <? 100)%Z then "00" ++ sprint_d i
  else if (i <? 1000)%Z then "0" ++ sprint_d i
  else sprint_d i.

(** The layout element [2006]: the year on four digits, after a minus sign
    when it is negative. *)
Definition sprint_year (y : Z) : string :=
  if (y <? 0)%Z then "-" ++ pad4 (- y) else pad4 y.

(** The eight bytes of the string literal [formatLogTime] returns for the
    timestamp 0, as they stand in the source file. *)
Definition logTimeNone : string :=
  bytes_string [195; 162; 226; 130; 172; 226; 128; 157]%N.

(** [time.Unix(ts, 0).UTC().Format("02 Jan 2006 15:04z")] for a timestamp
    other than 0. *)
Definition formatLogTime (ts : Z) : string :=
  if (ts =? 0)%Z then logTimeNone
  else
    sprint_02d (GoTime.Day ts) ++ " " ++
    first_bytes 3 (GoTime.MonthString (GoTime.Month ts)) ++ " " ++
    sprint_year (Year ts) ++ " " ++
    sprint_02d (GoTime.Hour ts) ++ ":" ++ sprint_02d (GoTime.Minute ts) ++ "z".

(* ===================================================================== *)
(** * Card frame (double border) *)
(* ===================================================================== *)

Module GoUTF8.

Definition in_range (lo hi : N) (c : ascii) : bool :=
  (lo <=? byte_of c)%N && (byte_of c <=? hi)%N.

(** A continuation byte. *)
Definition cont (c : ascii) : bool := in_range 128 191 c.

(** The encoding of U+FFFD, which stands for a byte that starts no valid
    sequence. *)
Definition replacement : string := bytes_string [239; 191; 189]%N.

(** [[]rune(s)], each rune as its UTF-8 encoding: valid sequences of one to
    four bytes as they are, any other byte as U+FFFD. *)
Fixpoint runes (s : string) : list string :=
  match s with
  | EmptyString => []
  | String c rest =>
      let b := byte_of c in
      if (b <? 128)%N then String c "" :: runes rest
      else if in_range 194 223 c then
        match rest with
        | String c1 r1 =>
            if cont c1 then String c (String c1 "") :: runes r1
            else replacement :: runes rest
        | EmptyString => replacement :: runes rest
        end
      else if in_range 224 239 c then
        match rest with
        | String c1 (String c2 r2) =>
            if in_range (if (b =? 224)%N then 160 else 128)
                        (if (b =? 237)%N then 159 else 191) c1 && cont c2
            then String c (String c1 (String c2 "")) :: runes r2
            else replacement :: runes rest
        | _ => replacement :: runes rest
        end
      else if in_range 240 244 c then
        match rest with
        | String c1 (String c2 (String c3 r3)) =>
            if in_range (if (b =? 240)%N then 144 else 128)
                        (if (b =? 244)%N then 143 else 191) c1 && cont c2 && cont c3
            then String c (String c1 (String c2 (String c3 ""))) :: runes r3
            else replacement :: runes rest
        | _ => replacement :: runes rest
        end
      else replacement :: runes rest
  end.

(** [len([]rune(s))] *)
Definition RuneCount (s : string) : nat := length (runes s).

(** [string(rs)] for a slice of runes *)
Definition string_of_runes (rs : list string) : string := String.concat "" rs.

End GoUTF8.

(** [strings.Repeat s count] for a count that is not negative. *)
Fixpoint Repeat (s : string) (count : nat) : string :=
  match count with
  | O => EmptyString
  | S n => s ++ Repeat s n
  end.

Definition boxTopLeft : string := bytes_string [226; 149; 148]%N.
Definition boxTopRight : string := bytes_string [226; 149; 151]%N.
Definition boxMidLeft : string := bytes_string [226; 149; 160]%N.
Definition boxMidRight : string := bytes_string [226; 149; 163]%N.
Definition boxBotLeft : string := bytes_string [226; 149; 154]%N.
Definition boxBotRight : string := bytes_string [226; 149; 157]%N.
Definition boxHorizontal : string := bytes_string [226; 149; 144]%N.
Definition boxVertical : string := bytes_string [226; 149; 145]%N.

Section Card.

(** The inner width of a card, a constant declared outside these sources
    (31 according to the comment above the helpers). *)
Variable cardInner : nat.

Definition cardTopD : string := boxTopLeft ++ Repeat boxHorizontal cardInner ++ boxTopRight.
Definition cardMidD : string := boxMidLeft ++ Repeat boxHorizontal cardInner ++ boxMidRight.
Definition cardBotD : string := boxBotLeft ++ Repeat boxHorizontal cardInner ++ boxBotRight.

Definition cardRowDLR (left right : string) : string :=
  let l := GoUTF8.runes left in
  let r := GoUTF8.runes right in
  let space := (Z.of_nat cardInner - Z.of_nat (length l) - Z.of_nat (length r))%Z in
  let space := if (space <? 1)%Z then 1%Z else space in
  boxVertical ++ GoUTF8.string_of_runes l ++ Repeat " " (Z.to_nat space) ++
  GoUTF8.string_of_runes r ++ boxVertical.

End Card.

(** The text of a day of the month, of a month's abbreviation and of a
    two-digit field: ASCII and of the expected length. *)
Definition day_text_ok (d : Z) : bool :=
  all_bytes is_ascii_byte (sprint_d d) &&
  ((d <? 10)%Z && Nat.eqb (String.length (sprint_d d)) 1 ||
   (10 <=? d)%Z && Nat.eqb (String.length (sprint_d d)) 2).

Definition month_text_ok (m : Z) : bool :=
  all_bytes is_ascii_byte (first_bytes 3 (GoTime.MonthString m)) &&
  Nat.eqb (String.length (first_bytes 3 (GoTime.MonthString m))) 3.

Definition two_digit_ok (i : Z) : bool :=
  all_bytes is_ascii_byte (sprint_02d i) && Nat.eqb (String.length (sprint_02d i)) 2.

Definition year_text_ok (y : Z) : bool :=
  all_bytes is_ascii_byte (sprint_year y) && Nat.eqb (String.length (sprint_year y)) 4.

(* ===================================================================== *)
(** * The address of the caller  (handlers.go) *)
(* ===================================================================== *)

(** [strings.LastIndex s sep] for a one-byte [sep]: the offset of the last
    occurrence, [-1] when there is none. *)
Fixpoint LastIndex (s : string) (sep : ascii) : Z :=
  match s with
  | EmptyString => -1
  | String a s' =>
      let i := LastIndex s' sep in
      if (0 <=? i)%Z then i + 1
      else if Ascii.eqb a sep then 0 else -1
  end.

(** [xff] is what [r.Header.Get] gives for the forwarding header (the empty
    string when the request has none), [remoteAddr] is [r.RemoteAddr]. *)
Definition clientIP (xff remoteAddr : string) : string :=
  if negb (String.eqb xff "") then
    let parts := GoStrings.SplitN xff "," 2 in
    GoStrings.TrimSpace (first_part parts)
  else
    let idx := LastIndex remoteAddr ":" in
    if (0 <? idx)%Z then GoStrings.first_bytes (Z.to_nat idx) remoteAddr
    else remoteAddr.

(* ===================================================================== *)
(** * The currency search  (handlers.go) *)
(* ===================================================================== *)

Section Networks.

(** The token type of the catalogue is declared outside these sources; the
    search reads its ticker and its name. *)
Variable token : Type.
Variable tokenTicker : token -> string.
Variable tokenName : token -> string.

Record NetworkGroup := {
  ng_Name : string;
  ng_Tokens : list token
}.

(** The test of the inner loop, [q] being the lowercased query. *)
Definition tokenMatches (q : string) (ng : NetworkGroup) (t : token) : bool :=
  GoStrings.Contains (GoStrings.ToLower (tokenTicker t)) q ||
  GoStrings.Contains (GoStrings.ToLower (tokenName t)) q ||
  GoStrings.Contains (GoStrings.ToLower (ng_Name ng)) q.

(** The outer loop. *)
Fixpoint filterGroups (q : string) (networks : list NetworkGroup) : list NetworkGroup :=
  match networks with
  | [] => []
  | ng :: rest =>
      let tokens := List.filter (tokenMatches q ng) (ng_Tokens ng) in
      if (0 <? length tokens)%nat
      then {| ng_Name := ng_Name ng; ng_Tokens := tokens |} :: filterGroups q rest
      else filterGroups q rest
  end.

Definition filterNetworks (networks : list NetworkGroup) (query : string)
    : list NetworkGroup :=
  let q := GoStrings.ToLower query in
  filterGroups q networks.

End Networks.

Arguments ng_Name {token} _.
Arguments ng_Tokens {token} _.
Arguments tokenMatches {token} _ _ _ _ _.
Arguments filterGroups {token} _ _ _ _.
Arguments filterNetworks {token} _ _ _ _.

(* ===================================================================== *)
(** * The subscriber store  (tgsubscribers.go) *)
(* ===================================================================== *)

(** ** Library functions the store calls *)

(** [sha256.Sum256], after FIPS 180-4; bytes and 32-bit words are numbers. *)
Module GoSHA256.

Definition w32 (z : Z) : Z := z mod 2 ^ 32.

Definition rotr (n x : Z) : Z := Z.lor (Z.shiftr x n) (w32 (Z.shiftl x (32 - n))).

Definition Ch (x y z : Z) : Z := Z.lxor (Z.land x y) (Z.land (Z.lxor x 0xffffffff) z).
Definition Maj (x y z : Z) : Z := Z.lxor (Z.lxor (Z.land x y) (Z.land x z)) (Z.land y z).
Definition bsig0 (x : Z) : Z := Z.lxor (Z.lxor (rotr 2 x) (rotr 13 x)) (rotr 22 x).
Definition bsig1 (x : Z) : Z := Z.lxor (Z.lxor (rotr 6 x) (rotr 11 x)) (rotr 25 x).
Definition ssig0 (x : Z) : Z := Z.lxor (Z.lxor (rotr 7 x) (rotr 18 x)) (Z.shiftr x 3).
Definition ssig1 (x : Z) : Z := Z.lxor (Z.lxor (rotr 17 x) (rotr 19 x)) (Z.shiftr x 10).

(** The fractional parts of a square root and of a cube root, on 32 bits;
    the cube root is found bit by bit from the top. *)
Definition sqrt_frac (p : Z) : Z := w32 (Z.sqrt (p * 2 ^ 64)).

Fixpoint cbrt_bits (bits : nat) (n r : Z) : Z :=
  match bits with
  | O => r
  | S k =>
      let r1 := r + 2 ^ Z.of_nat k in
      if (r1 * r1 * r1 <=? n)%Z then cbrt_bits k n r1 else cbrt_bits k n r
  end.

Definition cbrt_frac (p : Z) : Z := w32 (cbrt_bits 40 (p * 2 ^ 96) 0).

Definition is_prime (n : Z) : bool :=
  forallb (fun d => negb (n mod d =? 0)%Z) (seqZ 2 (n - 2)).

(** The round constants: the cube roots of the first 64 primes, which are
    the primes up to 311. *)
Definition K : list Z :=
  Eval vm_compute in map cbrt_frac (List.filter is_prime (seqZ 2 310)).

Record digest := {
  h0 : Z; h1 : Z; h2 : Z; h3 : Z; h4 : Z; h5 : Z; h6 : Z; h7 : Z
}.

(** The initial hash value: the square roots of the first 8 primes. *)
Definition init : digest :=
  {| h0 := sqrt_frac 2; h1 := sqrt_frac 3; h2 := sqrt_frac 5; h3 := sqrt_frac 7;
     h4 := sqrt_frac 11; h5 := sqrt_frac 13; h6 := sqrt_frac 17; h7 := sqrt_frac 19 |}.

(** The big-endian words of a block of bytes. *)
Fixpoint words (bytes : list Z) : list Z :=
  match bytes with
  | b0 :: b1 :: b2 :: b3 :: rest =>
      (((b0 * 256 + b1) * 256 + b2) * 256 + b3) :: words rest
  | _ => []
  end.

(** The message schedule: [n] more words after the ones in [w]. *)
Fixpoint schedule (n : nat) (w : list Z) : list Z :=
  match n with
  | O => w
  | S n' =>
      let t := length w in
      let at_ (k : nat) := nth (t - k) w 0 in
      schedule n'
        (w ++ [w32 (ssig1 (at_ 2%nat) + at_ 7%nat + ssig0 (at_ 15%nat) + at_ 16%nat)])%list
  end.

Definition round (d : digest) (kw : Z * Z) : digest :=
  let t1 := h7 d + bsig1 (h4 d) + Ch (h4 d) (h5 d) (h6 d) + fst kw + snd kw in
  let t2 := bsig0 (h0 d) + Maj (h0 d) (h1 d) (h2 d) in
  {| h0 := w32 (t1 + t2); h1 := h0 d; h2 := h1 d; h3 := h2 d;
     h4 := w32 (h3 d + t1); h5 := h4 d; h6 := h5 d; h7 := h6 d |}.

Definition block (d : digest) (bytes : list Z) : digest :=
  let w := schedule 48 (words bytes) in
  let r := fold_left round (combine K w) d in
  {| h0 := w32 (h0 d + h0 r); h1 := w32 (h1 d + h1 r); h2 := w32 (h2 d + h2 r);
     h3 := w32 (h3 d + h3 r); h4 := w32 (h4 d + h4 r); h5 := w32 (h5 d + h5 r);
     h6 := w32 (h6 d + h6 r); h7 := w32 (h7 d + h7 r) |}.

(** One block per 64 bytes; [fuel] is any number not below the number of
    blocks. *)
Fixpoint blocks (fuel : nat) (data : list Z) (d : digest) : digest :=
  match fuel with
  | O => d
  | S fuel' =>
      match data with
      | [] => d
      | _ => blocks fuel' (drop 64 data) (block d (take 64 data))
      end
  end.

(** The [n] big-endian bytes of a number. *)
Fixpoint be_bytes (n : nat) (z : Z) : list Z :=
  match n with
  | O => []
  | S n' => (be_bytes n' (z / 256) ++ [z mod 256])%list
  end.

(** The message, the byte 0x80, zero bytes up to 56 modulo 64 and the
    length of the message in bits on 8 bytes. *)
Definition pad (msg : list Z) : list Z :=
  let len := Z.of_nat (length msg) in
  let zeros := Z.to_nat ((55 - len) mod 64) in
  (msg ++ [128] ++ replicate zeros 0 ++ be_bytes 8 ((len * 8) mod 2 ^ 64))%list.

Definition sum_bytes (d : digest) : list Z :=
  (be_bytes 4 (h0 d) ++ be_bytes 4 (h1 d) ++ be_bytes 4 (h2 d) ++ be_bytes 4 (h3 d) ++
   be_bytes 4 (h4 d) ++ be_bytes 4 (h5 d) ++ be_bytes 4 (h6 d) ++ be_bytes 4 (h7 d))%list.

Definition Sum256 (msg : list Z) : list Z :=
  let data := pad msg in
  sum_bytes (blocks (length data) data init).

End GoSHA256.

(** [[]byte(s)] *)
Fixpoint string_bytes (s : string) : list Z :=
  match s with
  | EmptyString => []
  | String c s' => Z.of_N (GoStrings.byte_of c) :: string_bytes s'
  end.

Definition lower_hex_digit (n : Z) : ascii :=
  if (n <? 10)%Z then ascii_of_N (Z.to_N (48 + n)) else ascii_of_N (Z.to_N (87 + n)).

(** [hex.EncodeToString] *)
Fixpoint EncodeToString (bytes : list Z) : string :=
  match bytes with
  | [] => EmptyString
  | b :: rest =>
      String (lower_hex_digit (b / 16))
        (String (lower_hex_digit (b mod 16)) (EncodeToString rest))
  end.

Definition newline : ascii := ascii_of_N 10.
Definition carriage_return : ascii := ascii_of_N 13.

(** [bufio.Scanner] with its default split function [bufio.ScanLines] and
    its default buffer. *)
Module GoBufio.

Definition MaxScanTokenSize : Z := 65536.

(** A line, its newline included, has to fit the buffer. *)
Definition fits (line : string) : bool :=
  (Z.of_nat (String.length line) <? MaxScanTokenSize)%Z.

(** One trailing carriage return is dropped. *)
Fixpoint dropCR (line : string) : string :=
  match line with
  | EmptyString => EmptyString
  | String c EmptyString => if Ascii.eqb c carriage_return then EmptyString else line
  | String c rest => String c (dropCR rest)
  end.

(** The tokens [Scan] yields on [data], [cur] being the bytes of the line
    read so far.  A last line without newline is a token unless it is
    empty; a line that does not fit the buffer ends the scan. *)
Fixpoint scan (cur data : string) : list string :=
  match data with
  | EmptyString =>
      match cur with
      | EmptyString => []
      | _ => if fits cur then [dropCR cur] else []
      end
  | String c rest =>
      if Ascii.eqb c newline then
        if fits cur then dropCR cur :: scan EmptyString rest else []
      else scan (cur ++ String c EmptyString) rest
  end.

Definition Lines (data : string) : list string := scan EmptyString data.

End GoBufio.

Module GoStrconv.

(** [strconv.ParseInt s 10 64]: an optional sign, then one decimal digit
    at least and nothing else; a value outside the 64-bit range is an
    error as well. *)
Definition ParseInt (s : string) : option Z :=
  match s with
  | EmptyString => None
  | String c rest =>
      let neg := Ascii.eqb c "-" in
      let digits := if Ascii.eqb c "+" || neg then rest else s in
      match NilZero.uint_of_string digits with
      | Some d =>
          let n := Z.of_uint d in
          let v := if neg then - n else n in
          if (GoNum.int_min <=? v)%Z && (v <=? GoNum.int_max)%Z then Some v else None
      | None => None
      end
  end.

End GoStrconv.

(** ** The store *)

Definition hashChatID (chatID : Z) : string :=
  let h := GoSHA256.Sum256 (string_bytes ("uswap-forget:" ++ sprint_d chatID)) in
  EncodeToString h.

(** What [fmt.Fprintf] writes for the formats [%d\n] and [%s\n], the
    argument being printed already. *)
Definition fileLine (text : string) : string := text ++ String newline EmptyString.

Fixpoint unlines (lines : list string) : string :=
  match lines with
  | [] => EmptyString
  | l :: rest => fileLine l ++ unlines rest
  end.

Module Subscribers.

(** The two maps hold no other value than [true]: they are sets. *)
Record subscriberStore := {
  ids : gset Z;
  unsubs : gset string
}.

(** The two files under [data/], [None] for a file that does not exist. *)
Record Disk := {
  subscriberFile : option string;
  unsubscriberFile : option string
}.

(** The store, the disk, and the messages handed to [tgSendMessage] (which
    is not part of these sources: a call is recorded with its chat and its
    text). *)
Record Bot := {
  subscribers : subscriberStore;
  disk : Disk;
  sent : list (Z * string)
}.

(** What the surroundings decide during one call: whether [os.Create]
    succeeds, whether [os.OpenFile] for appending succeeds, and in which
    order a [range] over a map yields its keys.  A file that was opened is
    written in full. *)
Record outcome := {
  createOk : bool;
  appendOk : bool;
  rangeIDs : gset Z -> list Z;
  rangeHashes : gset string -> list string
}.

Definition greeting : string :=
  "<i>You'll receive occasional important updates. /forget to opt out.</i>".

(** [O_APPEND|O_CREATE|O_WRONLY] *)
Definition appendTo (file : option string) (text : string) : option string :=
  Some (default EmptyString file ++ text).

Fixpoint loadIDs (lines : list string) (ids : gset Z) : gset Z :=
  match lines with
  | [] => ids
  | text :: rest =>
      let line := GoStrings.TrimSpace text in
      match GoStrconv.ParseInt line with
      | Some id => loadIDs rest ({[ id ]} ∪ ids)
      | None => loadIDs rest ids
      end
  end.

Fixpoint loadHashes (lines : list string) (unsubs : gset string) : gset string :=
  match lines with
  | [] => unsubs
  | text :: rest =>
      let line := GoStrings.TrimSpace text in
      if negb (String.eqb line "") then loadHashes rest ({[ line ]} ∪ unsubs)
      else loadHashes rest unsubs
  end.

(** [openIDs] and [openHashes] tell whether [os.Open] succeeds on a file
    that exists. *)
Definition load (openIDs openHashes : bool) (b : Bot) : Bot :=
  let s := subscribers b in
  let ids1 :=
    match subscriberFile (disk b) with
    | Some data => if openIDs then loadIDs (GoBufio.Lines data) (ids s) else ids s
    | None => ids s
    end in
  let unsubs1 :=
    match unsubscriberFile (disk b) with
    | Some data => if openHashes then loadHashes (GoBufio.Lines data) (unsubs s) else unsubs s
    | None => unsubs s
    end in
  {| subscribers := {| ids := ids1; unsubs := unsubs1 |}; disk := disk b; sent := sent b |}.

Definition track (o : outcome) (chatID : Z) (b : Bot) : Bot :=
  let s := subscribers b in
  if bool_decide (chatID ∈ ids s) then b
  else if bool_decide (hashChatID chatID ∈ unsubs s) then b
  else
    let s1 := {| ids := {[ chatID ]} ∪ ids s; unsubs := unsubs s |} in
    if negb (appendOk o) then {| subscribers := s1; disk := disk b; sent := sent b |}
    else
      {| subscribers := s1;
         disk := {| subscriberFile :=
                      appendTo (subscriberFile (disk b)) (fileLine (sprint_d chatID));
                    unsubscriberFile := unsubscriberFile (disk b) |};
         sent := (sent b ++ [(chatID, greeting)])%list |}.

Definition forget (o : outcome) (chatID : Z) (b : Bot) : Bot :=
  let s := subscribers b in
  let ids1 := ids s ∖ {[ chatID ]} in
  if negb (createOk o) then
    {| subscribers := {| ids := ids1; unsubs := unsubs s |}; disk := disk b; sent := sent b |}
  else
    let idsFile := Some (unlines (map sprint_d (rangeIDs o ids1))) in
    let hash := hashChatID chatID in
    let s1 := {| ids := ids1; unsubs := {[ hash ]} ∪ unsubs s |} in
    if negb (appendOk o) then
      {| subscribers := s1;
         disk := {| subscriberFile := idsFile;
                    unsubscriberFile := unsubscriberFile (disk b) |};
         sent := sent b |}
    else
      {| subscribers := s1;
         disk := {| subscriberFile := idsFile;
                    unsubscriberFile :=
                      appendTo (unsubscriberFile (disk b)) (fileLine hash) |};
         sent := sent b |}.

Definition resubscribe (o : outcome) (chatID : Z) (b : Bot) : Bot :=
  let s := subscribers b in
  let hash := hashChatID chatID in
  let unsubs1 := unsubs s ∖ {[ hash ]} in
  if negb (createOk o) then
    {| subscribers := {| ids := ids s; unsubs := unsubs1 |}; disk := disk b; sent := sent b |}
  else
    let hashFile := Some (unlines (rangeHashes o unsubs1)) in
    if negb (bool_decide (chatID ∈ ids s)) then
      let s1 := {| ids := {[ chatID ]} ∪ ids s; unsubs := unsubs1 |} in
      if negb (appendOk o) then
        {| subscribers := s1;
           disk := {| subscriberFile := subscriberFile (disk b);
                      unsubscriberFile := hashFile |};
           sent := sent b |}
      else
        {| subscribers := s1;
           disk := {| subscriberFile :=
                        appendTo (subscriberFile (disk b)) (fileLine (sprint_d chatID));
                      unsubscriberFile := hashFile |};
           sent := sent b |}
    else
      {| subscribers := {| ids := ids s; unsubs := unsubs1 |};
         disk := {| subscriberFile := subscriberFile (disk b);
                    unsubscriberFile := hashFile |};
         sent := sent b |}.

Definition count (b : Bot) : Z := Z.of_nat (size (ids (subscribers b))).

End Subscribers.

(** ** Notions used in the properties of the store *)

Definition is_lower_hex (c : ascii) : bool :=
  let b := GoStrings.byte_of c in
  ((48 <=? b)%N && (b <=? 57)%N) || ((97 <=? b)%N && (b <=? 102)%N).

(** A call of the bot on the store. *)
Inductive call :=
  | Track (chatID : Z)
  | Forget (chatID : Z)
  | Resubscribe (chatID : Z).

Definition chat_of (c : call) : Z :=
  match c with
  | Track chatID | Forget chatID | Resubscribe chatID => chatID
  end.

Definition step (b : Subscribers.Bot) (oc : Subscribers.outcome * call) : Subscribers.Bot :=
  match snd oc with
  | Track chatID => Subscribers.track (fst oc) chatID b
  | Forget chatID => Subscribers.forget (fst oc) chatID b
  | Resubscribe chatID => Subscribers.resubscribe (fst oc) chatID b
  end.

(** Calls one after the other, each with what the surroundings decide
    during it. *)
Definition run (script : list (Subscribers.outcome * call)) (b : Subscribers.Bot)
    : Subscribers.Bot :=
  fold_left step script b.

(** The process at its start: empty maps, no file, nothing sent. *)
Definition boot : Subscribers.Bot :=
  {| Subscribers.subscribers := {| Subscribers.ids := ∅; Subscribers.unsubs := ∅ |};
     Subscribers.disk := {| Subscribers.subscriberFile := None;
                            Subscribers.unsubscriberFile := None |};
     Subscribers.sent := [] |}.

(** A new process on the same disk: empty maps, then [load] with both
    files readable. *)
Definition restart (b : Subscribers.Bot) : Subscribers.Bot :=
  Subscribers.load true true
    {| Subscribers.subscribers := {| Subscribers.ids := ∅; Subscribers.unsubs := ∅ |};
       Subscribers.disk := Subscribers.disk b;
       Subscribers.sent := Subscribers.sent b |}.

(** [range] yields every key of the map once, in some order. *)
Definition fair_range (o : Subscribers.outcome) : Prop :=
  (forall s, Subscribers.rangeIDs o s ≡ₚ elements s) /\
  (forall s, Subscribers.rangeHashes o s ≡ₚ elements s).

(** No file operation fails. *)
Definition io_ok (o : Subscribers.outcome) : Prop :=
  Subscribers.createOk o = true /\ Subscribers.appendOk o = true.

(** The outcome in which nothing fails and [range] follows the order of
    [elements]. *)
Definition allGood : Subscribers.outcome :=
  {| Subscribers.createOk := true; Subscribers.appendOk := true;
     Subscribers.rangeIDs := elements; Subscribers.rangeHashes := elements |}.

(** The outcome in which no file can be opened for writing. *)
Definition diskDown : Subscribers.outcome :=
  {| Subscribers.createOk := false; Subscribers.appendOk := false;
     Subscribers.rangeIDs := elements; Subscribers.rangeHashes := elements |}.

(** The messages sent to one chat. *)
Definition sent_to (chatID : Z) (b : Subscribers.Bot) : list (Z * string) :=
  List.filter (fun m => (fst m =? chatID)%Z) (Subscribers.sent b).

(** Neither white space nor a line end. *)
Definition is_plain (c : ascii) : bool := negb (GoStrings.is_space c).

(** A line the scanner gives back as it was written. *)
Definition plain_line (l : string) : Prop :=
  all_bytes is_plain l = true /\ GoBufio.fits l = true.

(** The shape of a hash: 64 lowercase hexadecimal digits. *)
Definition hash_line (h : string) : Prop :=
  all_bytes is_lower_hex h = true /\ String.length h = 64%nat.

(** The file is made of these lines, each one ended by a newline; a file
    that does not exist has none. *)
Definition file_holds (file : option string) (lines : list string) : Prop :=
  file = None /\ lines = [] \/ file = Some (unlines lines).

(** The subscriber file lists the chat IDs [zs] in decimal and the
    unsubscriber file the hashes [hs]; all of them and the keys of the two
    maps are 64-bit numbers and hashes. *)
Definition kept (b : Subscribers.Bot) (zs : list Z) (hs : list string) : Prop :=
  file_holds (Subscribers.subscriberFile (Subscribers.disk b)) (map sprint_d zs) /\
  file_holds (Subscribers.unsubscriberFile (Subscribers.disk b)) hs /\
  Forall GoNum.in_int zs /\
  Forall hash_line hs /\
  set_Forall GoNum.in_int (Subscribers.ids (Subscribers.subscribers b)) /\
  set_Forall hash_line (Subscribers.unsubs (Subscribers.subscribers b)).

Definition is_track (oc : Subscribers.outcome * call) : Prop :=
  match snd oc with
  | Track _ => True
  | _ => False
  end.

(** The chat ID is a 64-bit number and [range] is a range. *)
Definition sound_call (oc : Subscribers.outcome * call) : Prop :=
  fair_range (fst oc) /\ GoNum.in_int (chat_of (snd oc)).

(** Not a [resubscribe] of the chat, nor of one with the same hash. *)
Definition spares (chatID : Z) (oc : Subscribers.outcome * call) : Prop :=
  match snd oc with
  | Resubscribe other => hashChatID other <> hashChatID chatID
  | _ => True
  end.

(* ===================================================================== *)
(** * Properties of the labels *)
(* ===================================================================== *)

Lemma cut_None c s : cut c s = None <-> has_byte c s = false.
Proof.
  induction s as [|a s IH]; simpl; [done|].
  destruct (Ascii.eqb a c); simpl; [split; discriminate|].
  destruct (cut c s) as [[l r]|]; rewrite <- IH; split; (done || discriminate).
Qed.

Lemma cut_Some c s l r :
  cut c s = Some (l, r) <-> s = l ++ String c r /\ has_byte c l = false.
Proof.
  revert l. induction s as [|a s IH]; intros l; simpl.
  - split; [discriminate|]. intros [H _]. destruct l; discriminate.
  - destruct (Ascii.eqb_spec a c) as [->|Hne].
    + split.
      * intros [= <- <-]. done.
      * intros [H Hl]. destruct l as [|b l]; simpl in *.
        -- injection H as ->. done.
        -- injection H as <- _. rewrite Ascii.eqb_refl in Hl. discriminate.
    + destruct (cut c s) as [[l' r']|] eqn:Hc.
      * split.
        -- intros [= <- <-]. simpl.
           destruct (IH l') as [IH1 _]. destruct (IH1 eq_refl) as [-> Hl'].
           split; [done|]. apply Ascii.eqb_neq in Hne. by rewrite Hne.
        -- intros [H Hl]. destruct l as [|b l]; simpl in *.
           ++ injection H as -> _. done.
           ++ injection H as <- H. apply orb_false_iff in Hl as [_ Hl].
              destruct (IH l) as [_ IH2]. specialize (IH2 (conj H Hl)).
              by injection IH2 as -> ->.
      * split; [discriminate|].
        intros [H Hl]. destruct l as [|b l]; simpl in *.
        -- injection H as -> _. done.
        -- injection H as <- H. apply orb_false_iff in Hl as [_ Hl].
           destruct (IH l) as [_ IH2]. specialize (IH2 (conj H Hl)). discriminate.
Qed.

Lemma SplitN_2 s c :
  SplitN s c 2 = match cut c s with Some (l, r) => [l; r] | None => [s] end.
Proof. simpl. by destruct (cut c s) as [[l r]|]. Qed.

Lemma before_first_segment s segment :
  first_segment s segment -> before_first "." s = segment.
Proof.
  unfold before_first. intros [[rest [Hs Hseg]]|[<- Hs]].
  - by rewrite (proj2 (cut_Some "." s segment rest) (conj Hs Hseg)).
  - by rewrite (proj2 (cut_None "." s) Hs).
Qed.

Lemma known_ticker_None find assetID :
  known_ticker find assetID = None <->
  (forall t, find assetID = Some t -> Ticker t = "").
Proof.
  unfold known_ticker. destruct (find assetID) as [t|]; [|done].
  destruct (String.eqb_spec (Ticker t) ""); split; try done.
  - by intros _ ? [= <-].
  - intros H. by specialize (H t eq_refl).
Qed.

Lemma known_chain_None find assetID :
  known_chain find assetID = None <->
  (forall t, find assetID = Some t -> ChainName t = "").
Proof.
  unfold known_chain. destruct (find assetID) as [t|]; [|done].
  destruct (String.eqb_spec (ChainName t) ""); split; try done.
  - by intros _ ? [= <-].
  - intros H. by specialize (H t eq_refl).
Qed.

Lemma txTokenLabel_known find assetID t :
  find assetID = Some t -> Ticker t <> "" -> txTokenLabel find assetID = Ticker t.
Proof.
  intros Hf Ht. unfold txTokenLabel, known_ticker. rewrite Hf.
  by destruct (String.eqb_spec (Ticker t) "").
Qed.

Lemma txChainLabel_known find assetID t :
  find assetID = Some t -> ChainName t <> "" ->
  txChainLabel find assetID = explorerChainName (ChainName t).
Proof.
  intros Hf Ht. unfold txChainLabel, known_chain. rewrite Hf.
  by destruct (String.eqb_spec (ChainName t) "").
Qed.

Lemma txTokenLabel_prefixed find assetID p rest :
  known_ticker find assetID = None -> splits_at_colon assetID p rest ->
  txTokenLabel find assetID =
    if String.eqb (ToUpper p) "NEP141" then ToUpper (before_first "." rest)
    else ToUpper p.
Proof.
  intros Hk [Hs Hp]. unfold txTokenLabel. rewrite Hk, SplitN_2.
  rewrite (proj2 (cut_Some ":" assetID p rest) (conj Hs Hp)).
  destruct (String.eqb (ToUpper p) "NEP141"); simpl; [|done].
  unfold before_first. by destruct (cut "." rest) as [[l r]|].
Qed.

Lemma txTokenLabel_plain find assetID :
  known_ticker find assetID = None -> has_byte ":" assetID = false ->
  txTokenLabel find assetID = ToUpper assetID.
Proof.
  intros Hk Hc. unfold txTokenLabel. rewrite Hk, SplitN_2.
  by rewrite (proj2 (cut_None ":" assetID) Hc).
Qed.

Lemma txChainLabel_unknown find assetID :
  known_chain find assetID = None ->
  txChainLabel find assetID = explorerChainName (before_first ":" assetID).
Proof.
  intros Hk. unfold txChainLabel, before_first. rewrite Hk, SplitN_2.
  by destruct (cut ":" assetID) as [[l r]|].
Qed.

(** C8, as the code has it.  Both labels take the catalogue entry of the
    exact identifier first, when it has a non-empty ticker (resp. chain
    name).  Failing that, the chain label is the chain table's name for the
    prefix before the first colon (the whole identifier when it has no
    colon), the uppercased prefix when the table does not know it; the
    token label is the uppercased prefix itself, without the chain table,
    except in the [nep141] namespace, where it is the uppercased segment
    before the first dot of what follows the colon. *)
Theorem label_resolution (find : string -> option TokenInfo) (assetID : string) :
  (forall t, find assetID = Some t -> Ticker t <> "" ->
     txTokenLabel find assetID = Ticker t) /\
  (forall t, find assetID = Some t -> ChainName t <> "" ->
     txChainLabel find assetID = explorerChainName (ChainName t)) /\
  ((forall t, find assetID = Some t -> Ticker t = "") ->
     (forall p rest segment,
        splits_at_colon assetID p rest -> first_segment rest segment ->
        txTokenLabel find assetID =
          if String.eqb (ToUpper p) "NEP141" then ToUpper segment else ToUpper p) /\
     (has_byte ":" assetID = false -> txTokenLabel find assetID = ToUpper assetID)) /\
  ((forall t, find assetID = Some t -> ChainName t = "") ->
     (forall p rest, splits_at_colon assetID p rest ->
        txChainLabel find assetID = explorerChainName p) /\
     (has_byte ":" assetID = false ->
        txChainLabel find assetID = explorerChainName assetID)) /\
  (forall code,
     explorerChainName code = default (ToUpper code) (chainNames !! ToLower code)).
Proof.
  split; [by apply txTokenLabel_known|].
  split; [by apply txChainLabel_known|].
  split; [|split].
  - intros Hk%known_ticker_None. split.
    + intros p rest segment Hs Hseg.
      rewrite (txTokenLabel_prefixed _ _ _ _ Hk Hs).
      by rewrite (before_first_segment _ _ Hseg).
    + by apply txTokenLabel_plain.
  - intros Hk%known_chain_None. split.
    + intros p rest [Hs Hp]. rewrite (txChainLabel_unknown _ _ Hk).
      unfold before_first.
      by rewrite (proj2 (cut_Some ":" assetID p rest) (conj Hs Hp)).
    + intros Hc. rewrite (txChainLabel_unknown _ _ Hk). unfold before_first.
      by rewrite (proj2 (cut_None ":" assetID) Hc).
  - intros code. unfold explorerChainName. by destruct (chainNames !! ToLower code).
Qed.

(** The rule at work on a NEAR-namespace asset the catalogue does not know:
    token label from the ticker segment, chain label from the table. *)
Lemma label_resolution_witness :
  txTokenLabel (fun _ => None) "nep141:wrap.near" = "WRAP" /\
  txChainLabel (fun _ => None) "nep141:wrap.near" = "NEAR".
Proof.
  pose proof (label_resolution (fun _ => None) "nep141:wrap.near")
    as (_ & _ & Htok & Hchain & _).
  split.
  - destruct Htok as [Htok _]; [done|].
    apply (Htok "nep141" "wrap.near" "wrap").
    + split; reflexivity.
    + left. exists "near". split; reflexivity.
  - destruct Hchain as [Hchain _]; [done|].
    rewrite (Hchain "nep141" "wrap.near"); [reflexivity|].
    split; reflexivity.
Defined.

(** C8 as stated fails for token labels: with no catalogue entry,
    [eth:0xabc] gets the uppercased prefix, not the chain table's name that
    the worded rule gives. *)
Lemma token_label_skips_chain_table :
  txTokenLabel (fun _ => None) "eth:0xabc" = "ETH" /\
  spec_tokenLabel (fun _ => None) "eth:0xabc" = "Ethereum" /\
  txTokenLabel (fun _ => None) "eth:0xabc" <> spec_tokenLabel (fun _ => None) "eth:0xabc".
Proof. repeat split; [vm_compute; reflexivity..|vm_compute; discriminate]. Qed.

(* ===================================================================== *)
(** * Properties of the reporting filter *)
(* ===================================================================== *)

Lemma hasHashLoop_existsb q hashes :
  hasHashLoop q hashes = existsb (fun h => Contains (ToLower h) q) hashes.
Proof.
  induction hashes as [|h rest IH]; simpl; [done|].
  rewrite IH. by destruct (Contains (ToLower h) q).
Qed.

Lemma logFilter_bool find filterReseller query e :
  logFilter find filterReseller query e =
    (String.eqb filterReseller "" || EqualFold (Reseller e) filterReseller) &&
    (String.eqb query "" ||
     existsb (fun field => Contains (ToLower field) (ToLower query))
       (searchedFields find e)).
Proof.
  unfold logFilter, searchedFields. rewrite hasHashLoop_existsb. simpl.
  destruct (String.eqb filterReseller ""), (EqualFold (Reseller e) filterReseller),
    (String.eqb query ""); simpl; try done;
  destruct (Contains (ToLower (Recipient (Tx e))) (ToLower query)),
    (Contains (ToLower (DepositAddress (Tx e))) (ToLower query)),
    (Contains (ToLower (txTokenLabel find (OriginAsset (Tx e)))) (ToLower query)),
    (Contains (ToLower (txTokenLabel find (DestinationAsset (Tx e)))) (ToLower query)),
    (Contains (ToLower (Reseller e)) (ToLower query)); simpl; try done;
  by destruct (existsb _ _).
Qed.

Lemma logFilter_iff find filterReseller query e :
  logFilter find filterReseller query e = true <->
  (filterReseller = "" \/ EqualFold (Reseller e) filterReseller = true) /\
  (query = "" \/
   exists field, In field (searchedFields find e) /\
                 Contains (ToLower field) (ToLower query) = true).
Proof.
  rewrite logFilter_bool, andb_true_iff, !orb_true_iff, existsb_exists.
  by rewrite !String.eqb_eq.
Qed.

(** C3, as the code has it.  The filter of the reporting page keeps an
    entry exactly when the reseller selector is empty or equals the
    entry's reseller up to case, and the trimmed query is empty or occurs,
    case being ignored, in the recipient, the deposit address, the token
    label of the origin or of the destination asset, the reseller name, or
    one of the NEAR transaction hashes.  So the query [TRON] keeps an entry
    whose destination token label is [TRON], and drops an entry none of
    whose searched fields contains it. *)
Theorem wrapper_filter_matches (find : string -> option TokenInfo)
    (qParam resellerParam : string) (e : LogEntry) :
  (wrapperLogsFilter find qParam resellerParam e = true <->
   (resellerParam = "" \/ EqualFold (Reseller e) resellerParam = true) /\
   (TrimSpace qParam = "" \/
    exists field, In field (searchedFields find e) /\
                  Contains (ToLower field) (ToLower (TrimSpace qParam)) = true)) /\
  (txTokenLabel find (DestinationAsset (Tx e)) = "TRON" ->
   wrapperLogsFilter find "TRON" "" e = true) /\
  ((forall field, In field (searchedFields find e) ->
                  Contains (ToLower field) "tron" = false) ->
   wrapperLogsFilter find "TRON" "" e = false).
Proof.
  split; [apply logFilter_iff|]. split.
  - intros Hd. apply logFilter_iff. split; [by left|]. right.
    exists "TRON". split; [|reflexivity].
    unfold searchedFields. rewrite Hd. simpl. tauto.
  - intros Hnone. apply not_true_iff_false. intros Hf.
    apply logFilter_iff in Hf as [_ [Hq|(field & Hin & Hc)]].
    + vm_compute in Hq. discriminate.
    + change (ToLower (TrimSpace "TRON")) with "tron" in Hc.
      rewrite (Hnone field Hin) in Hc. discriminate.
Qed.

(** The scenario on two entries of an empty catalogue: the destination
    [tron:TXYZ] has token label [TRON] and is kept; an Ethereum destination
    with no other trace of the query is dropped. *)
Lemma wrapper_filter_matches_witness :
  let kept :=
    {| Reseller := "EagleSwap";
       Tx := {| DepositAddress := "0x5a1b3c"; DepositMemo := "";
                Recipient := "TQn9Y2kh"; Status := "SUCCESS";
                AmountInFormatted := ""; AmountOutFormatted := "";
                AmountInUsd := fzero; AmountOutUsd := fzero;
                OriginAsset := "eth:0xabc"; DestinationAsset := "tron:TXYZ";
                Senders := []; NearTxHashes := []; OriginChainTxHashes := [];
                DestinationChainTxHashes := []; AppFees := [];
                CreatedAt := ""; CreatedAtTimestamp := 0 |};
       FeeUSD := fzero |} in
  let dropped :=
    {| Reseller := "EagleSwap";
       Tx := {| DepositAddress := "0x5a1b3c"; DepositMemo := "";
                Recipient := "0x77e2"; Status := "SUCCESS";
                AmountInFormatted := ""; AmountOutFormatted := "";
                AmountInUsd := fzero; AmountOutUsd := fzero;
                OriginAsset := "btc:native"; DestinationAsset := "eth:0xabc";
                Senders := []; NearTxHashes := []; OriginChainTxHashes := [];
                DestinationChainTxHashes := []; AppFees := [];
                CreatedAt := ""; CreatedAtTimestamp := 0 |};
       FeeUSD := fzero |} in
  wrapperLogsFilter (fun _ => None) "TRON" "" kept = true /\
  wrapperLogsFilter (fun _ => None) "TRON" "" dropped = false.
Proof.
  intros kept dropped. split.
  - apply (wrapper_filter_matches (fun _ => None) "TRON" "" kept). reflexivity.
  - apply (wrapper_filter_matches (fun _ => None) "TRON" "" dropped).
    intros field Hin. simpl in Hin.
    repeat (destruct Hin as [<-|Hin]; [reflexivity|]). destruct Hin.
Defined.

(** C3 as stated fails.  The swap into USDT on TRON has destination chain
    label [TRON], yet the query [TRON] does not return it, since chain
    labels are not searched; and a hash recorded for the origin chain is
    not searched either.  The worded match accepts both. *)
Lemma filter_misses_chain_label_and_origin_hash :
  (txChainLabel usdtTronCatalogue (DestinationAsset (Tx tronEntry)) = "TRON" /\
   spec_logMatch usdtTronCatalogue "TRON" tronEntry = true /\
   wrapperLogsFilter usdtTronCatalogue "TRON" "" tronEntry = false) /\
  (spec_logMatch usdtTronCatalogue "0xDEADBEEF" originHashEntry = true /\
   wrapperLogsFilter usdtTronCatalogue "0xDEADBEEF" "" originHashEntry = false).
Proof. vm_compute. repeat split. Qed.

(* ===================================================================== *)
(** * Properties of the fee *)
(* ===================================================================== *)

Lemma wrap64_add_l a b : wrap64 (wrap64 a + b) = wrap64 (a + b).
Proof.
  unfold wrap64. f_equal.
  replace ((a + 2 ^ 63) mod 2 ^ 64 - 2 ^ 63 + b + 2 ^ 63)
    with ((a + 2 ^ 63) mod 2 ^ 64 + b) by lia.
  rewrite Zplus_mod_idemp_l. f_equal. lia.
Qed.

Lemma wrap64_in_int z : in_int z -> wrap64 z = z.
Proof.
  unfold in_int, int_min, int_max, wrap64. intros H.
  rewrite Z.mod_small; lia.
Qed.

Lemma sum_fees_wrap fees x :
  sum_fees fees (wrap64 x) = wrap64 (x + total_bps fees).
Proof.
  revert x. induction fees as [|f rest IH]; intros x;
    cbn [sum_fees total_bps fold_right].
  - f_equal. lia.
  - rewrite IH, <- Z.add_assoc, wrap64_add_l. reflexivity.
Qed.

Lemma sum_fees_total fees : sum_fees fees 0 = wrap64 (total_bps fees).
Proof. apply (sum_fees_wrap fees 0). Qed.

Lemma f10000_value : f10000 = float64_of_int 10000.
Proof. reflexivity. Qed.

Section FloatFacts.

Local Close Scope string_scope.

Lemma digits2_pos_size p : digits2_pos p = Pos.size p.
Proof. induction p; simpl; congruence. Qed.

Lemma Zdigits2_nonneg m : 0 <= Zdigits2 m.
Proof. destruct m; simpl; lia. Qed.

Lemma Zdigits2_gt m : 0 <= m -> m < 2 ^ Zdigits2 m.
Proof.
  destruct m as [|p|p]; simpl; [lia| |lia]. intros _.
  rewrite digits2_pos_size. pose proof (Pos.size_gt p) as H.
  apply Pos2Z.pos_lt_pos in H. by rewrite Pos2Z.inj_pow in H.
Qed.

Lemma Zdigits2_le m k : 0 <= k -> 0 <= m < 2 ^ k -> Zdigits2 m <= k.
Proof.
  destruct m as [|p|p]; simpl; [lia| |lia]. intros Hk [_ Hm].
  rewrite digits2_pos_size. pose proof (Pos.size_le p) as H.
  apply Pos2Z.pos_le_pos in H. rewrite Pos2Z.inj_pow in H.
  destruct (Z.le_gt_cases (Z.pos (Pos.size p)) k) as [|Hgt]; [done|exfalso].
  assert (2 ^ (k + 1) <= 2 ^ Z.pos (Pos.size p)) by (apply Z.pow_le_mono_r; lia).
  rewrite Z.pow_add_r in * by lia. change (Z.pos p~0) with (2 * Z.pos p) in H. lia.
Qed.

Lemma Zdigits2_succ m : 0 <= m -> Zdigits2 (m + 1) <= Zdigits2 m + 1.
Proof.
  intros Hm. pose proof (Zdigits2_gt m Hm). pose proof (Zdigits2_nonneg m).
  apply Zdigits2_le; [lia|]. rewrite Z.pow_add_r by lia. lia.
Qed.

Lemma shr_1_digits mrs :
  0 <= shr_m mrs ->
  0 <= shr_m (shr_1 mrs) /\
  Zdigits2 (shr_m (shr_1 mrs)) = Z.max 0 (Zdigits2 (shr_m mrs) - 1).
Proof.
  destruct mrs as [m r s]. simpl. intros Hm.
  destruct m as [|[p|p|]|p]; simpl; lia.
Qed.

Lemma iter_shr_1_digits p : forall mrs,
  0 <= shr_m mrs ->
  0 <= shr_m (SpecFloat.iter_pos shr_1 p mrs) /\
  Zdigits2 (shr_m (SpecFloat.iter_pos shr_1 p mrs)) = Z.max 0 (Zdigits2 (shr_m mrs) - Z.pos p).
Proof.
  induction p as [p IH|p IH|]; intros mrs Hm; simpl.
  - destruct (shr_1_digits mrs Hm) as [H1 E1].
    destruct (IH _ H1) as [H2 E2]. destruct (IH _ H2) as [H3 E3].
    split; [done|]. rewrite E3, E2, E1. lia.
  - destruct (IH _ Hm) as [H2 E2]. destruct (IH _ H2) as [H3 E3].
    split; [done|]. rewrite E3, E2. lia.
  - by apply shr_1_digits.
Qed.

Lemma shr_record_of_loc_m m l : shr_m (shr_record_of_loc m l) = m.
Proof. by destruct l as [|[]]. Qed.

Lemma shr_fexp_bounds m e l :
  0 <= m ->
  0 <= shr_m (shr_fexp prec emax m e l).1 /\
  (shr_fexp prec emax m e l).2 = Z.max e (fexp prec emax (Zdigits2 m + e)) /\
  Zdigits2 (shr_m (shr_fexp prec emax m e l).1) + (shr_fexp prec emax m e l).2
    <= Z.max (shr_fexp prec emax m e l).2 (Zdigits2 m + e).
Proof.
  intros Hm. unfold shr_fexp, shr.
  destruct (fexp prec emax (Zdigits2 m + e) - e) as [|p|p] eqn:Hn; simpl;
    rewrite ?shr_record_of_loc_m; try (split; [done|]; split; lia).
  destruct (iter_shr_1_digits p (shr_record_of_loc m l)) as [H1 E1];
    [by rewrite shr_record_of_loc_m|].
  rewrite shr_record_of_loc_m in E1. split; [done|]. rewrite E1. lia.
Qed.

Lemma round_nearest_even_bounds m l :
  m <= round_nearest_even m l <= m + 1.
Proof. destruct l as [|[]]; simpl; try lia. destruct (Z.even m); lia. Qed.

Lemma fexp_le x : fexp prec emax x <= Z.max (x - 53) (-1074).
Proof. unfold fexp, SpecFloat.emin, prec, emax. lia. Qed.

(** Rounding a mantissa that is not negative gives a number or an
    infinity, and a number when the magnitude is small. *)
Lemma binary_round_aux_cases sx mx ex lx :
  0 <= mx ->
  binary_round_aux prec emax sx mx ex lx <> S754_nan /\
  (ex <= 64 -> Zdigits2 mx + ex <= 1000 ->
   is_finite (binary_round_aux prec emax sx mx ex lx) = true).
Proof.
  intros Hm. unfold binary_round_aux.
  destruct (shr_fexp_bounds mx ex lx Hm) as (H1 & E1 & D1).
  destruct (shr_fexp prec emax mx ex lx) as [mrs' e']. simpl in *.
  pose proof (round_nearest_even_bounds (shr_m mrs') (loc_of_shr_record mrs')) as Hr.
  set (m'' := round_nearest_even (shr_m mrs') (loc_of_shr_record mrs')) in *.
  destruct (shr_fexp_bounds m'' e' loc_Exact ltac:(lia)) as (H2 & E2 & D2).
  destruct (shr_fexp prec emax m'' e' loc_Exact) as [mrs'' e'']. simpl in *.
  destruct (shr_m mrs'') as [|p|p]; [done| |lia].
  split; [by destruct (e'' <=? emax - prec)|].
  intros Hex Hd.
  assert (Zdigits2 m'' <= Zdigits2 (shr_m mrs') + 1) as Hd''.
  { destruct (Z.eq_dec m'' (shr_m mrs')) as [->|]; [lia|].
    replace m'' with (shr_m mrs' + 1) by lia. by apply Zdigits2_succ. }
  pose proof (fexp_le (Zdigits2 mx + ex)).
  pose proof (fexp_le (Zdigits2 m'' + e')).
  assert ((e'' <=? emax - prec) = true) as ->; [|done].
  apply Z.leb_le. unfold emax, prec. lia.
Qed.

Lemma digits2_pos_shift p d :
  Z.pos (digits2_pos (Pos.iter xO p d)) = Z.pos (digits2_pos p) + Z.pos d.
Proof.
  induction d as [|d IH] using Pos.peano_ind.
  - simpl. lia.
  - rewrite Pos.iter_succ. simpl. rewrite Pos2Z.inj_succ, IH. lia.
Qed.

Lemma float64_of_int_finite i :
  in_int i -> is_finite (float64_of_int i) = true.
Proof.
  intros Hi. unfold float64_of_int, binary_normalize.
  assert (forall sx p, Z.pos p <= 2 ^ 63 ->
            is_finite (binary_round prec emax sx p 0) = true) as Hround.
  { intros sx p Hp. unfold binary_round.
    assert (Zdigits2 (Z.pos p) <= 64) as Hd by (apply Zdigits2_le; lia).
    simpl in Hd. unfold shl_align.
    destruct (fexp prec emax (Z.pos (digits2_pos p) + 0) - 0) as [|d|d] eqn:Hf.
    - apply binary_round_aux_cases; simpl; lia.
    - apply binary_round_aux_cases; simpl; lia.
    - apply binary_round_aux_cases; [lia| |].
      + pose proof (fexp_le (Z.pos (digits2_pos p) + 0)). lia.
      + simpl. rewrite digits2_pos_shift. lia. }
  unfold in_int, int_min, int_max in Hi.
  destruct i as [|p|p]; [done| |]; apply Hround; lia.
Qed.

Lemma fmul_finite x y :
  is_finite x = true -> is_finite y = true -> fmul x y <> S754_nan.
Proof.
  destruct x as [sx|sx| |sx mx ex], y as [sy|sy| |sy my ey]; try done.
  intros _ _. by apply binary_round_aux_cases.
Qed.

Lemma fdiv_f10000 x : x <> S754_nan -> fdiv x f10000 <> S754_nan.
Proof.
  destruct x as [sx|sx| |sx mx ex]; try done. intros _.
  unfold fdiv, f10000, SFdiv, SFdiv_core_binary.
  match goal with |- context [Z.div_eucl ?a ?b] =>
    pose proof (Z.div_pos a b) as Hq; unfold Z.div in Hq;
    destruct (Z.div_eucl a b) as [q r] end.
  apply binary_round_aux_cases. apply Hq; [|lia].
  match goal with |- 0 <= match ?s with _ => _ end => destruct s eqn:Hs end;
    try lia.
  apply Z.shiftl_nonneg. lia.
Qed.

Lemma feq_refl x : x <> S754_nan -> feq x x = true.
Proof.
  destruct x as [sx|sx| |sx mx ex]; try done; intros _; unfold feq, SFeqb; simpl.
  - by destruct sx.
  - destruct sx; by rewrite Z.compare_refl, Pos.compare_cont_refl.
Qed.

Lemma feq_zero x : is_finite x = true -> feq x fzero = true -> exists s, x = S754_zero s.
Proof.
  destruct x as [sx|sx| |sx mx ex]; try done; [by eexists|].
  intros _. unfold feq, SFeqb, fzero. simpl. by destruct sx.
Qed.

Lemma zero_fee_formula s y :
  is_finite y = true -> feq fzero (fdiv (fmul (S754_zero s) y) f10000) = true.
Proof. destruct y as [sy|sy| |sy my ey]; done. Qed.

Lemma in_int_wrap64 z : in_int (wrap64 z).
Proof.
  unfold in_int, int_min, int_max, wrap64.
  pose proof (Z.mod_pos_bound (z + 2 ^ 63) (2 ^ 64) ltac:(lia)). lia.
Qed.

End FloatFacts.

(** C2.  With [b] the sum of the basis points of the fee schedule as the
    Go integer it is accumulated in (the exact sum whenever that fits an
    [int]) and [n] the USD notional: the fee is exactly zero when [b] is
    zero or [n] equals zero, and otherwise it is [n * float64(b) / 10000]
    in binary64 arithmetic.  For a notional that is a number the fee
    equals [n * float64(b) / 10000] in every case, the zero cases
    included. *)
Theorem txFeeUSD_spec (tx : ExplorerTx) :
  let b := wrap64 (total_bps (AppFees tx)) in
  let n := AmountInUsd tx in
  (in_int (total_bps (AppFees tx)) -> b = total_bps (AppFees tx)) /\
  (b = 0 \/ feq n fzero = true -> txFeeUSD tx = fzero) /\
  (b <> 0 -> feq n fzero = false ->
   txFeeUSD tx = fdiv (fmul n (float64_of_int b)) f10000) /\
  (is_finite n = true ->
   feq (txFeeUSD tx) (fdiv (fmul n (float64_of_int b)) f10000) = true).
Proof.
  intros b n. split; [apply wrap64_in_int|].
  unfold txFeeUSD. rewrite sum_fees_total. fold b n. split; [|split].
  - intros [-> | ->]; [done|]. by rewrite orb_true_r.
  - intros Hb%Z.eqb_neq ->. by rewrite Hb.
  - intros Hn.
    pose proof (float64_of_int_finite b (in_int_wrap64 _)) as Hy.
    destruct (Z.eqb_spec b 0) as [->|Hb]; simpl.
    + destruct n as [sn|sn| |sn mn en]; done.
    + destruct (feq n fzero) eqn:Hz.
      * destruct (feq_zero n Hn Hz) as [s ->]. by apply zero_fee_formula.
      * apply feq_refl, fdiv_f10000. by apply fmul_finite.
Qed.

(** The scenario of the specification: 100 USD at 30 + 20 basis points
    gives a fee of one half of a dollar. *)
Lemma txFeeUSD_spec_witness :
  total_bps (AppFees eagleTx) = 50 /\ txFeeUSD eagleTx = fhalf.
Proof.
  split; [reflexivity|].
  destruct (txFeeUSD_spec eagleTx) as (_ & _ & H & _).
  rewrite H; [vm_compute; reflexivity|vm_compute; discriminate|reflexivity].
Defined.

(* ===================================================================== *)
(** * Properties of the transaction source client *)
(* ===================================================================== *)

Section ExplorerClientFacts.

Variable explorerJWT : string.
Variable newRequestError : string -> option error.
Variable roundTrip : Wire -> Request -> exchange.
Variable jsonUnmarshal : string -> error + explorerPageResp.

Let get := explorerGet explorerJWT newRequestError roundTrip.
Let fetch := fetchExplorerTxs explorerJWT newRequestError roundTrip jsonUnmarshal.

Lemma explorerGet_request endpoint w :
  get endpoint w =
    let req := explorerRequest explorerJWT endpoint in
    match newRequestError (req_url req) with
    | Some err => (inl err, w)
    | None =>
        (match roundTrip w req with
         | DoFails err => inl err
         | ReadFails _ err => inl err
         | Answer status data =>
             if (status <? 200)%Z || (status >=? 300)%Z
             then inl (ErrorF ("explorer " ++ sprint_d status ++ ": " ++ data))
             else inr data
         end, (w ++ [req])%list)
    end.
Proof.
  unfold get, explorerGet, explorerRequest. simpl.
  destruct (newRequestError _); [done|].
  destruct (String.eqb explorerJWT ""); simpl;
    destruct (roundTrip w _) as [e|s e|s data]; try done;
    by destruct ((s <? 200)%Z || (s >=? 300)%Z).
Qed.

Lemma fetch_unfold affiliate lastAddr lastMemo count w :
  fetch affiliate lastAddr lastMemo count w =
    let req := explorerRequest explorerJWT (fetchEndpoint affiliate lastAddr lastMemo count) in
    match newRequestError (req_url req) with
    | Some err => (inl err, w)
    | None =>
        (match roundTrip w req with
         | DoFails err => inl err
         | ReadFails _ err => inl err
         | Answer status data =>
             if (status <? 200)%Z || (status >=? 300)%Z
             then inl (ErrorF ("explorer " ++ sprint_d status ++ ": " ++ data))
             else match jsonUnmarshal data with
                  | inl err => inl err
                  | inr r => inr (Transactions r)
                  end
         end, (w ++ [req])%list)
    end.
Proof.
  unfold fetch, fetchExplorerTxs. fold get.
  fold (fetchEndpoint affiliate lastAddr lastMemo count).
  rewrite explorerGet_request. cbv zeta.
  destruct (newRequestError _); [done|].
  destruct (roundTrip w _) as [e|s e|s data]; try done.
  destruct ((s <? 200)%Z || (s >=? 300)%Z); [done|].
  by destruct (jsonUnmarshal data).
Qed.

Lemma not_2xx status :
  (status <? 200)%Z || (status >=? 300)%Z = true <-> ~ is_2xx status.
Proof. unfold is_2xx. rewrite orb_true_iff, Z.ltb_lt, Z.geb_le. lia. Qed.

(** C5.  [fetchExplorerTxs] returns an error, and then no list, exactly
    when the request cannot be made or carried out (building it, the round
    trip or reading the body fails), the status is outside 2xx, or the body
    does not decode.  The error is the failing call's own, or for a status
    outside 2xx one that spells out the status and the body.  Whatever
    happens, at most one request goes out: there is no retry. *)
Theorem fetch_errors_exactly (affiliate lastAddr lastMemo : string) (count : Z) (w : Wire) :
  let req := explorerRequest explorerJWT (fetchEndpoint affiliate lastAddr lastMemo count) in
  let res := fetch affiliate lastAddr lastMemo count w in
  ((exists e, res.1 = inl e) <->
     is_Some (newRequestError (req_url req)) \/
     (exists e, roundTrip w req = DoFails e) \/
     (exists s e, roundTrip w req = ReadFails s e) \/
     (exists s body, roundTrip w req = Answer s body /\
        (~ is_2xx s \/ exists e, jsonUnmarshal body = inl e))) /\
  (forall e, newRequestError (req_url req) = Some e -> res = (inl e, w)) /\
  (newRequestError (req_url req) = None ->
     res.2 = (w ++ [req])%list /\
     (forall e, roundTrip w req = DoFails e -> res.1 = inl e) /\
     (forall s e, roundTrip w req = ReadFails s e -> res.1 = inl e) /\
     (forall s body, roundTrip w req = Answer s body -> ~ is_2xx s ->
        res.1 = inl (ErrorF ("explorer " ++ sprint_d s ++ ": " ++ body))) /\
     (forall s body e, roundTrip w req = Answer s body -> is_2xx s ->
        jsonUnmarshal body = inl e -> res.1 = inl e) /\
     (forall s body r, roundTrip w req = Answer s body -> is_2xx s ->
        jsonUnmarshal body = inr r -> res.1 = inr (Transactions r))).
Proof.
  intros req res. subst res. rewrite fetch_unfold. fold req. cbv zeta.
  destruct (newRequestError (req_url req)) as [e0|] eqn:Hnew.
  { split; [|split]; [|by intros e [= ->]|done].
    split; [intros _; left; by eexists|intros _; by eexists]. }
  split; [|split; [done|]].
  - destruct (roundTrip w req) as [e|s e|s body] eqn:Hrt; cbn [fst].
    + split; [intros _|intros _; by eexists]. right; left. by eexists.
    + split; [intros _|intros _; by eexists]. right; right; left. by do 2 eexists.
    + destruct ((s <? 200)%Z || (s >=? 300)%Z) eqn:Hs.
      * apply not_2xx in Hs.
        split; [intros _|intros _; by eexists].
        right; right; right. exists s, body. split; [done|by left].
      * assert (is_2xx s) as H2.
        { unfold is_2xx. apply orb_false_iff in Hs as [H1 H2].
          apply Z.ltb_ge in H1. rewrite Z.geb_leb in H2. apply Z.leb_gt in H2. lia. }
        destruct (jsonUnmarshal body) as [e|r] eqn:Hj.
        -- split; [intros _|intros _; by eexists].
           right; right; right. exists s, body. split; [done|right; by eexists].
        -- split; [by intros [e [=]]|].
           intros [[e [=]]|[[e [=]]|[(s' & e & [=])|(s' & b' & [= <- <-] & [Hn|[e He]])]]].
           ++ done.
           ++ rewrite Hj in He. discriminate.
  - intros _. split; [done|]. cbn [fst].
    destruct (roundTrip w req) as [e|s e|s body] eqn:Hrt.
    + repeat split; try done. by intros e' [= ->].
    + repeat split; try done. by intros s' e' [= _ ->].
    + repeat split; try done.
      * intros s' b' [= <- <-] Hn. apply not_2xx in Hn. by rewrite Hn.
      * intros s' b' e [= <- <-] H2 Hj.
        destruct ((s <? 200)%Z || (s >=? 300)%Z) eqn:Hs;
          [by apply not_2xx in Hs|]. by rewrite Hj.
      * intros s' b' r [= <- <-] H2 Hj.
        destruct ((s <? 200)%Z || (s >=? 300)%Z) eqn:Hs;
          [by apply not_2xx in Hs|]. by rewrite Hj.
Qed.

End ExplorerClientFacts.

Lemma fetchQuery_no_cursor affiliate lastMemo count :
  fetchQuery affiliate "" lastMemo count !! "lastDepositAddress" = None /\
  fetchQuery affiliate "" lastMemo count !! "lastDepositMemo" = None.
Proof. split; reflexivity. Qed.

Lemma QueryEscape_uint d :
  GoURL.QueryEscape (NilEmpty.string_of_uint d) = NilEmpty.string_of_uint d.
Proof. induction d; simpl; [done|by rewrite IHd..]. Qed.

Lemma QueryEscape_sprint_d i : GoURL.QueryEscape (sprint_d i) = sprint_d i.
Proof.
  unfold sprint_d. destruct (Z.to_int i) as [d|d]; simpl.
  - destruct d; try apply QueryEscape_uint. reflexivity.
  - f_equal. destruct d; try apply QueryEscape_uint. reflexivity.
Qed.

Lemma Encode_no_cursor affiliate lastMemo count :
  GoURL.Encode (fetchQuery affiliate "" lastMemo count) =
    "affiliate=" ++ GoURL.QueryEscape affiliate ++
    "&direction=next&numberOfTransactions=" ++ GoURL.QueryEscape (sprint_d count) ++
    "&statuses=SUCCESS".
Proof.
  unfold fetchQuery. generalize (sprint_d count). intros digits.
  vm_compute. reflexivity.
Qed.

Lemma fetchEndpoint_no_cursor affiliate lastMemo count :
  fetchEndpoint affiliate "" lastMemo count = cursorlessEndpoint affiliate count.
Proof.
  unfold fetchEndpoint, cursorlessEndpoint.
  rewrite Encode_no_cursor, QueryEscape_sprint_d. reflexivity.
Qed.

Lemma fetchQuery_memo_needs_address affiliate lastAddr lastMemo count :
  is_Some (fetchQuery affiliate lastAddr lastMemo count !! "lastDepositMemo") ->
  lastAddr <> "" /\
  fetchQuery affiliate lastAddr lastMemo count !! "lastDepositAddress" = Some [lastAddr].
Proof.
  unfold fetchQuery.
  destruct (String.eqb_spec lastAddr "") as [->|Hne]; simpl.
  - intros [x Hx]. vm_compute in Hx. discriminate.
  - intros _. split; [done|]. by destruct (String.eqb lastMemo "").
Qed.

Lemma fetchQuery_statuses affiliate lastAddr lastMemo count :
  fetchQuery affiliate lastAddr lastMemo count !! "statuses" = Some ["SUCCESS"].
Proof.
  unfold fetchQuery.
  by destruct (String.eqb lastAddr ""), (String.eqb lastMemo "").
Qed.

(** C9.  With an empty cursor address the query has neither cursor
    parameter, whatever the cursor memo is, and the endpoint asked for is
    the one without cursor; any request that goes out is for it.  In
    general a query that has [lastDepositMemo] also has
    [lastDepositAddress], with the non-empty address given. *)
Theorem no_memo_without_address
    (explorerJWT : string) (newRequestError : string -> option error)
    (roundTrip : Wire -> Request -> exchange)
    (jsonUnmarshal : string -> error + explorerPageResp)
    (affiliate lastAddr lastMemo : string) (count : Z) (w : Wire) :
  let q := fetchQuery affiliate "" lastMemo count in
  let sent :=
    (fetchExplorerTxs explorerJWT newRequestError roundTrip jsonUnmarshal
       affiliate "" lastMemo count w).2 in
  q !! "lastDepositAddress" = None /\
  q !! "lastDepositMemo" = None /\
  fetchEndpoint affiliate "" lastMemo count = cursorlessEndpoint affiliate count /\
  (sent = w \/
   sent = (w ++ [explorerRequest explorerJWT (cursorlessEndpoint affiliate count)])%list) /\
  (is_Some (fetchQuery affiliate lastAddr lastMemo count !! "lastDepositMemo") ->
   lastAddr <> "" /\
   fetchQuery affiliate lastAddr lastMemo count !! "lastDepositAddress" = Some [lastAddr]).
Proof.
  intros q sent.
  split; [apply fetchQuery_no_cursor|]. split; [apply fetchQuery_no_cursor|].
  split; [apply fetchEndpoint_no_cursor|].
  split; [|apply fetchQuery_memo_needs_address].
  subst sent. rewrite fetch_unfold, fetchEndpoint_no_cursor. cbv zeta.
  destruct (newRequestError _); [by left|by right].
Qed.

(** A memo given without an address: the request that goes out to a dead
    upstream has no cursor in it. *)
Lemma no_memo_without_address_witness :
  (fetchExplorerTxs "" (fun _ => None) deadUpstream unmarshalPending
     "eagle" "" "memo-17" 100 []).2 =
  [ {| req_method := "GET";
       req_url := "https://explorer.near-intents.org/api/v0/transactions?affiliate=eagle&direction=next&numberOfTransactions=100&statuses=SUCCESS";
       req_header := <["Accept" := "application/json"]> ∅ |} ].
Proof.
  destruct (no_memo_without_address "" (fun _ => None) deadUpstream unmarshalPending
              "eagle" "" "memo-17" 100 []) as (_ & _ & _ & [H|H] & _).
  - vm_compute in H. discriminate.
  - rewrite H. reflexivity.
Defined.

(** A dead upstream: the transport's error comes back as it is and one
    request was sent. *)
Lemma fetch_errors_exactly_witness :
  fetchExplorerTxs "" (fun _ => None) deadUpstream unmarshalPending
    "eagle" "" "" 100 [] =
  (inl (ErrDo "connection refused"),
   [explorerRequest "" (fetchEndpoint "eagle" "" "" 100)]).
Proof.
  destruct (fetch_errors_exactly "" (fun _ => None) deadUpstream unmarshalPending
              "eagle" "" "" 100 []) as (_ & _ & H).
  destruct (H eq_refl) as (Hw & Hdo & _).
  specialize (Hdo (ErrDo "connection refused") eq_refl).
  destruct (fetchExplorerTxs _ _ _ _ _ _ _ _ _) as [res sent].
  simpl in Hw, Hdo. by rewrite Hw, Hdo.
Defined.

(** C4, as the code has it.  Every query asks for the status [SUCCESS]
    only.  A list that is returned is the list of records the answer
    decodes to, unchanged: the client checks no status itself.  So the
    returned transactions all have status [SUCCESS] whenever the records of
    the answer do. *)
Theorem fetch_returns_decoded_records
    (explorerJWT : string) (newRequestError : string -> option error)
    (roundTrip : Wire -> Request -> exchange)
    (jsonUnmarshal : string -> error + explorerPageResp)
    (affiliate lastAddr lastMemo : string) (count : Z) (w : Wire)
    (txs : list ExplorerTx) :
  let req := explorerRequest explorerJWT (fetchEndpoint affiliate lastAddr lastMemo count) in
  fetchQuery affiliate lastAddr lastMemo count !! "statuses" = Some ["SUCCESS"] /\
  ((fetchExplorerTxs explorerJWT newRequestError roundTrip jsonUnmarshal
      affiliate lastAddr lastMemo count w).1 = inr txs ->
   exists s body r,
     roundTrip w req = Answer s body /\ is_2xx s /\
     jsonUnmarshal body = inr r /\ txs = Transactions r /\
     (Forall (fun tx => Status tx = "SUCCESS") (Transactions r) ->
      Forall (fun tx => Status tx = "SUCCESS") txs)).
Proof.
  intros req. split; [apply fetchQuery_statuses|].
  rewrite fetch_unfold. fold req. cbv zeta.
  destruct (newRequestError _); [discriminate|]. cbn [fst].
  destruct (roundTrip w req) as [e|s e|s body]; try discriminate.
  destruct ((s <? 200)%Z || (s >=? 300)%Z) eqn:Hs; [discriminate|].
  destruct (jsonUnmarshal body) as [e|r] eqn:Hj; [discriminate|].
  intros [= <-]. exists s, body, r. repeat split; try done.
  - apply orb_false_iff in Hs as [H1 H2]. apply Z.ltb_ge in H1. done.
  - apply orb_false_iff in Hs as [H1 H2].
    rewrite Z.geb_leb in H2. apply Z.leb_gt in H2. done.
Qed.

(** An upstream that answers with a pending record: the list returned is
    the decoded one. *)
Lemma fetch_returns_decoded_records_witness :
  exists s body r,
    pendingUpstream [] (explorerRequest "" (fetchEndpoint "eagle" "" "" 100)) = Answer s body /\
    unmarshalPending body = inr r /\ [pendingTx] = Transactions r.
Proof.
  destruct (fetch_returns_decoded_records "" (fun _ => None) pendingUpstream
              unmarshalPending "eagle" "" "" 100 [] [pendingTx]) as [_ H].
  destruct (H eq_refl) as (s & body & r & H1 & _ & H2 & H3 & _).
  by exists s, body, r.
Defined.

(** C4 as stated fails: when the upstream answers with a record whose
    status is not [SUCCESS], that record is returned. *)
Lemma fetch_returns_pending_record :
  (fetchExplorerTxs "" (fun _ => None) pendingUpstream unmarshalPending
     "eagle" "" "" 100 []).1 = inr [pendingTx] /\
  Status pendingTx = "PENDING" /\
  ~ Forall (fun tx => Status tx = "SUCCESS") [pendingTx].
Proof.
  split; [vm_compute; reflexivity|]. split; [reflexivity|].
  intros H. apply Forall_cons_1 in H as [H _]. discriminate.
Qed.

(* ===================================================================== *)
(** * Properties of the notifier *)
(* ===================================================================== *)

Lemma Contains_byte c s : Contains s (String c "") = has_byte c s.
Proof.
  induction s as [|a s IH]; simpl; [done|].
  rewrite IH. unfold HasPrefix. simpl.
  destruct (ascii_dec c a) as [->|Hne].
  - rewrite Ascii.eqb_refl. by destruct s.
  - assert (Ascii.eqb a c = false) as -> by (apply Ascii.eqb_neq; congruence).
    done.
Qed.

Lemma ReplaceFirst_absent s c new : has_byte c s = false -> ReplaceFirst s c new = s.
Proof. intros H. unfold ReplaceFirst. by rewrite (proj2 (cut_None c s) H). Qed.

Lemma ReplaceFirst_present l r c new :
  has_byte c l = false -> ReplaceFirst (l ++ String c r) c new = l ++ new ++ r.
Proof.
  intros H. unfold ReplaceFirst.
  by rewrite (proj2 (cut_Some c (l ++ String c r) l r) (conj eq_refl H)).
Qed.

Section NotifierFacts.

Variable monitorMainChatID : Z.
Variable tgBotToken : string.
Variable formatUSD : float64 -> string.

Let update := updateMainChatDescription monitorMainChatID tgBotToken formatUSD.

Lemma update_without_placeholder getOk setOk total tg :
  has_byte "$" (tg_description tg) = false ->
  tg_description (update getOk setOk total tg) = tg_description tg /\
  (tg_calls (update getOk setOk total tg) = tg_calls tg \/
   tg_calls (update getOk setOk total tg) = (tg_calls tg ++ [GetChat monitorMainChatID])%list).
Proof.
  intros H. unfold update, updateMainChatDescription.
  destruct ((monitorMainChatID =? 0)%Z || String.eqb tgBotToken ""); [by split; [|left]|].
  destruct getOk; simpl; [|by split; [|right]].
  destruct (String.eqb (tg_description tg) ""); [by split; [|right]|].
  rewrite Contains_byte, H. simpl. by split; [|right].
Qed.

Lemma update_with_placeholder total tg l r :
  monitorMainChatID <> 0 -> tgBotToken <> "" ->
  tg_description tg = l ++ String "$" r -> has_byte "$" l = false ->
  update true true total tg =
    {| tg_description := l ++ formatUSD total ++ r;
       tg_calls := ((tg_calls tg ++ [GetChat monitorMainChatID]) ++
                    [SetChatDescription monitorMainChatID
                       (l ++ formatUSD total ++ r)%string])%list |}.
Proof.
  intros Hid%Z.eqb_neq Htok%String.eqb_neq Hd Hl.
  unfold update, updateMainChatDescription. rewrite Hid, Htok. simpl.
  rewrite Hd.
  assert (String.eqb (l ++ String "$" r) "" = false) as ->.
  { apply String.eqb_neq. by destruct l. }
  rewrite Contains_byte.
  assert (has_byte "$" (l ++ String "$" r) = true) as ->.
  { clear. induction l as [|a l IH]; simpl; [done|]. rewrite IH. apply orb_true_r. }
  simpl. by rewrite ReplaceFirst_present.
Qed.

Lemma update_description_cases getOk setOk total tg :
  tg_description (update getOk setOk total tg) = tg_description tg \/
  exists l r,
    tg_description tg = l ++ String "$" r /\ has_byte "$" l = false /\
    tg_description (update getOk setOk total tg) = l ++ formatUSD total ++ r.
Proof.
  unfold update, updateMainChatDescription.
  destruct ((monitorMainChatID =? 0)%Z || String.eqb tgBotToken ""); [by left|].
  destruct getOk; simpl; [|by left].
  destruct (String.eqb (tg_description tg) ""); [by left|].
  destruct (Contains (tg_description tg) "$"); simpl; [|by left].
  destruct setOk; simpl; [|by left].
  unfold ReplaceFirst.
  destruct (cut "$" (tg_description tg)) as [[l r]|] eqn:Hc; [|by left].
  apply cut_Some in Hc as [Hd Hl]. right. by exists l, r.
Qed.

Lemma updateRepeatedly_without_placeholder script tg :
  has_byte "$" (tg_description tg) = false ->
  tg_description (updateRepeatedly monitorMainChatID tgBotToken formatUSD script tg)
    = tg_description tg.
Proof.
  revert tg. induction script as [|[[g s] t] script IH]; intros tg H; simpl; [done|].
  destruct (update_without_placeholder g s t tg H) as [Hd _].
  fold update. rewrite IH; [done|]. by rewrite Hd.
Qed.

(** C6, as the code has it.  A pass rewrites the description only when it
    contains the placeholder [$], and then to the description with its
    first [$] replaced by the formatted grand total; with the chat and the
    token configured and both calls succeeding it does so.  A description
    without [$] is left as it is, by one pass and by any number of passes,
    and no [setChatDescription] is sent for it. *)
Theorem description_rewrite (getOk setOk : bool) (total : float64) (tg : Telegram) :
  (tg_description (update getOk setOk total tg) = tg_description tg \/
   exists l r,
     tg_description tg = l ++ String "$" r /\ has_byte "$" l = false /\
     tg_description (update getOk setOk total tg) = l ++ formatUSD total ++ r) /\
  (forall l r,
     monitorMainChatID <> 0 -> tgBotToken <> "" ->
     tg_description tg = l ++ String "$" r -> has_byte "$" l = false ->
     tg_description (update true true total tg) = l ++ formatUSD total ++ r) /\
  (has_byte "$" (tg_description tg) = false ->
     (tg_calls (update getOk setOk total tg) = tg_calls tg \/
      tg_calls (update getOk setOk total tg) = (tg_calls tg ++ [GetChat monitorMainChatID])%list) /\
     forall script,
       tg_description (updateRepeatedly monitorMainChatID tgBotToken formatUSD script tg)
         = tg_description tg).
Proof.
  split; [apply update_description_cases|]. split.
  - intros l r Hid Htok Hd Hl. by rewrite (update_with_placeholder total tg l r).
  - intros H. split; [by apply update_without_placeholder|].
    intros script. by apply updateRepeatedly_without_placeholder.
Qed.

End NotifierFacts.

(** One pass on a description that ends in the placeholder, and passes on
    one that has none. *)
Lemma description_rewrite_witness :
  let tg := {| tg_description := "Total profit: $"; tg_calls := [] |} in
  let plain := {| tg_description := "Total profit so far"; tg_calls := [] |} in
  tg_description (updateMainChatDescription 7 "token" formatBare true true fzero tg)
    = "Total profit: 24,210" /\
  tg_description
    (updateRepeatedly 7 "token" formatBare [(true, true, fzero); (true, true, fhalf)] plain)
    = "Total profit so far".
Proof.
  intros tg plain. split.
  - destruct (description_rewrite 7 "token" formatBare true true fzero tg) as (_ & H & _).
    apply (H "Total profit: " ""); done.
  - destruct (description_rewrite 7 "token" formatBare true true fzero plain) as (_ & _ & H).
    destruct (H eq_refl) as [_ Hrep]. apply Hrep.
Defined.

(** C6 as stated fails: the pass is not idempotent.  When the formatted
    total starts with the dollar sign the rewritten description still has a
    [$], and the next pass substitutes again; and with two placeholders the
    second pass takes the second one. *)
Lemma description_rewrite_not_idempotent :
  let pass f := updateMainChatDescription 7 "token" f true true fzero in
  let tg := {| tg_description := "Total profit: $"; tg_calls := [] |} in
  let two := {| tg_description := "In: $, out: $"; tg_calls := [] |} in
  (tg_description (pass formatWithSign tg) = "Total profit: $24,210" /\
   tg_description (pass formatWithSign (pass formatWithSign tg))
     = "Total profit: $24,21024,210") /\
  (tg_description (pass formatBare two) = "In: 24,210, out: $" /\
   tg_description (pass formatBare (pass formatBare two)) = "In: 24,210, out: 24,210") /\
  pass formatWithSign (pass formatWithSign tg) <> pass formatWithSign tg /\
  pass formatBare (pass formatBare two) <> pass formatBare two.
Proof.
  intros pass tg two. repeat split; try (vm_compute; reflexivity);
    vm_compute; discriminate.
Qed.

(* ===================================================================== *)
(** * Properties of the card's time stamp *)
(* ===================================================================== *)

Lemma holds_from_spec f n : forall start z,
  holds_from f start n = true -> start <= z < start + Z.of_nat n -> f z = true.
Proof.
  induction n as [|n IH]; intros start z Hall Hz; [lia|].
  simpl in Hall. apply andb_true_iff in Hall as [H0 Hrest].
  destruct (Z.eq_dec z start) as [->|Hne]; [done|].
  apply (IH (start + 1)); [done|lia].
Qed.

Lemma not_u_days : holds_from not_u 1 31 = true.
Proof. vm_compute. reflexivity. Qed.

Lemma day_of_year_range doe :
  0 <= doe < 146097 -> 0 <= GoTime.day_of_year doe <= 365.
Proof.
  intros H. unfold GoTime.day_of_year, GoTime.year_of_era.
  Z.div_mod_to_equations. lia.
Qed.

Lemma calendar_range ts :
  1 <= GoTime.Day ts <= 31 /\ 1 <= GoTime.Month ts <= 12.
Proof.
  unfold GoTime.Day, GoTime.Month.
  pose proof (day_of_year_range (GoTime.day_of_era ts)) as Hdoy.
  generalize dependent (GoTime.day_of_year (GoTime.day_of_era ts)).
  intros doy Hdoy. specialize (Hdoy ltac:(unfold GoTime.day_of_era; apply Z.mod_pos_bound; lia)).
  unfold GoTime.month_from_march.
  destruct (Z.ltb_spec ((5 * doy + 2) / 153) 10); Z.div_mod_to_equations; lia.
Qed.

Lemma clock_range ts :
  0 <= GoTime.Hour ts <= 23 /\ 0 <= GoTime.Minute ts <= 59.
Proof.
  unfold GoTime.Hour, GoTime.Minute.
  pose proof (Z.mod_pos_bound ts 86400 ltac:(lia)).
  pose proof (Z.mod_pos_bound ts 3600 ltac:(lia)).
  split; split; try (apply Z.div_pos; lia).
  - apply Z.lt_succ_r, Z.div_lt_upper_bound; lia.
  - apply Z.lt_succ_r, Z.div_lt_upper_bound; lia.
Qed.

(** C10.  For the timestamp 0 the card shows [unknown].  For any other
    timestamp it shows the day of the month, the first three letters of
    the month's name, and hour and minute on two digits each, of the
    instant in UTC; these are calendar and clock values in range, and the
    text is never [unknown].  So a transaction without timestamp is never
    shown with the date of the epoch. *)
Theorem monitorFormatTime_spec (ts : Z) :
  (ts = 0 -> monitorFormatTime ts = "unknown") /\
  (ts <> 0 ->
     monitorFormatTime ts =
       renderTime (GoTime.Day ts) (GoTime.MonthString (GoTime.Month ts))
         (GoTime.Hour ts) (GoTime.Minute ts) /\
     1 <= GoTime.Day ts <= 31 /\ 1 <= GoTime.Month ts <= 12 /\
     0 <= GoTime.Hour ts <= 23 /\ 0 <= GoTime.Minute ts <= 59 /\
     monitorFormatTime ts <> "unknown").
Proof.
  split; [by intros ->|].
  intros Hne. unfold monitorFormatTime.
  apply Z.eqb_neq in Hne. rewrite Hne.
  destruct (calendar_range ts) as [Hd Hmo].
  pose proof (holds_from_spec _ _ _ (GoTime.Day ts) not_u_days ltac:(lia)) as Hu.
  unfold not_u in Hu. apply negb_true_iff in Hu.
  destruct (clock_range ts) as [Hh Hm].
  repeat split; try lia.
  intros Heq. unfold HasPrefix in Hu.
  destruct (sprint_d (GoTime.Day ts)) as [|c rest]; [discriminate|].
  simpl in Heq. injection Heq as -> _. simpl in Hu.
  by destruct rest.
Qed.

(** A swap settled on 26 February 2026 at 02:41 UTC. *)
Lemma monitorFormatTime_spec_witness :
  monitorFormatTime 1772073660 =
    "26 Feb " ++ middot ++ " 02:41z" /\
  monitorFormatTime 0 = "unknown".
Proof.
  destruct (monitorFormatTime_spec 1772073660) as [_ H].
  destruct H as (H & _); [done|].
  split; [rewrite H; vm_compute; reflexivity|].
  by apply (monitorFormatTime_spec 0).
Defined.

(* ===================================================================== *)
(** * Properties of the bounded log buffer *)
(* ===================================================================== *)

Section LogBufferFacts.

Local Close Scope string_scope.
Local Open Scope nat_scope.

Context {A : Type}.
Variable capacity : nat.
Hypothesis capacity_pos : (0 < capacity)%nat.

(** The last [capacity] entries of a list. *)
Let newest (l : list A) : list A := drop (length l - capacity) l.

Lemma lb_append_length e (buf : list A) :
  (length buf <= capacity)%nat -> (length (lb_append capacity e buf) <= capacity)%nat.
Proof.
  intros H. unfold lb_append. case_decide.
  - rewrite length_app, length_drop. simpl. lia.
  - rewrite length_app. simpl. lia.
Qed.

Lemma lb_append_full e (buf : list A) :
  length buf = capacity ->
  lb_append capacity e buf = drop 1 buf ++ [e] /\
  length (lb_append capacity e buf) = capacity.
Proof.
  intros H. unfold lb_append. rewrite decide_True by lia.
  split; [done|]. rewrite length_app, length_drop. simpl. lia.
Qed.

Lemma lb_append_newest e (l : list A) :
  lb_append capacity e (newest l) = newest (l ++ [e]).
Proof.
  unfold lb_append, newest. rewrite length_drop, length_app. simpl.
  case_decide as Hc.
  - rewrite drop_drop, <- drop_app_le by lia. f_equal. lia.
  - rewrite <- drop_app_le by lia. f_equal. lia.
Qed.

Lemma lb_append_all_newest es (l : list A) :
  lb_append_all capacity es (newest l) = newest (l ++ es).
Proof.
  revert l. induction es as [|e es IH]; intros l; simpl.
  - by rewrite app_nil_r.
  - rewrite lb_append_newest, IH. by rewrite <- app_assoc.
Qed.

Lemma lb_append_all_drop es (buf : list A) k :
  (length buf <= capacity)%nat -> length es = (capacity + k)%nat ->
  lb_append_all capacity es buf = drop k es.
Proof.
  intros Hb He.
  assert (newest buf = buf) as Hn.
  { unfold newest. by replace (length buf - capacity) with O by lia. }
  rewrite <- Hn at 1. rewrite lb_append_all_newest. unfold newest.
  rewrite length_app, He, drop_app_ge by lia. f_equal. lia.
Qed.

Lemma lb_collect_filter limit (predicate : A -> bool) (l : list A) :
  lb_collect limit predicate l = take limit (List.filter predicate l).
Proof.
  revert limit. induction l as [|e l IH]; intros [|n]; simpl; try done.
  destruct (predicate e); simpl; by rewrite IH.
Qed.

Lemma lb_snapshot_all limit (buf : list A) :
  (length buf <= limit)%nat -> lb_snapshot limit (fun _ => true) buf = reverse buf.
Proof.
  intros H. unfold lb_snapshot. rewrite lb_collect_filter.
  assert (forall l : list A, List.filter (fun _ => true) l = l) as ->.
  { induction l; simpl; congruence. }
  apply take_ge. by rewrite length_reverse.
Qed.

(** C7.  After appending [capacity + k] entries to a buffer, a snapshot of
    everything holds exactly [capacity] entries: the entries appended after
    the first [k], newest first.  The [k] oldest of the appended entries
    are absent when the entries are pairwise distinct, as is whatever the
    buffer held before; and each insert into a full buffer drops the oldest
    entry and keeps the size. *)
Theorem log_buffer_keeps_newest (k limit : nat) (buf es : list A) :
  (length buf <= capacity)%nat -> length es = (capacity + k)%nat ->
  (capacity <= limit)%nat ->
  let snap := lb_snapshot limit (fun _ => true) (lb_append_all capacity es buf) in
  length snap = capacity /\
  snap = reverse (drop k es) /\
  (NoDup (buf ++ es) -> forall e, e ∈ buf ++ take k es -> e ∉ snap) /\
  (forall e (full : list A), length full = capacity ->
     lb_append capacity e full = drop 1 full ++ [e] /\
     length (lb_append capacity e full) = capacity).
Proof.
  intros Hb He Hl snap.
  assert (snap = reverse (drop k es)) as Hsnap.
  { subst snap. rewrite (lb_append_all_drop es buf k Hb He).
    apply lb_snapshot_all. rewrite length_drop. lia. }
  split; [|split; [done|split]].
  - rewrite Hsnap, length_reverse, length_drop. lia.
  - intros Hnd e Hin Hs. rewrite Hsnap, elem_of_reverse in Hs.
    rewrite <- (take_drop k es), app_assoc in Hnd.
    apply NoDup_app in Hnd as (_ & Hdis & _). by apply (Hdis e).
  - intros e full Hf. by apply lb_append_full.
Qed.

End LogBufferFacts.

(** A buffer of capacity 3 that receives five entries keeps the last
    three, newest first. *)
Lemma log_buffer_keeps_newest_witness :
  lb_snapshot 500 (fun _ => true) (lb_append_all 3 [1; 2; 3; 4; 5]%nat []) = [5; 4; 3]%nat /\
  (1%nat ∉ [5; 4; 3]%nat) /\ (2%nat ∉ [5; 4; 3]%nat).
Proof.
  destruct (log_buffer_keeps_newest 3 ltac:(lia) 2 500 [] [1; 2; 3; 4; 5]%nat)
    as (_ & Hsnap & Habs & _); [simpl; lia|reflexivity|lia|].
  split; [exact Hsnap|].
  rewrite Hsnap in Habs.
  assert (NoDup ([] ++ [1; 2; 3; 4; 5]%nat)) as Hnd.
  { apply NoDup_ListNoDup. repeat constructor; simpl; lia. }
  split; apply (Habs Hnd); simpl; set_solver.
Defined.

(* ===================================================================== *)
(** * Properties of the poller *)
(* ===================================================================== *)

Section PollerFacts.

Local Close Scope string_scope.
Local Close Scope Z_scope.
Local Open Scope nat_scope.

Variable logCapacity : nat.
Variable pageSize : nat.
Variable displayName : string -> string.
Variable feed : string -> list ExplorerTx.

Let page_of (affiliate : string) (m : Monitor) : list ExplorerTx :=
  fetchPage (feed affiliate) (cursorGet affiliate m) pageSize.
Let poll := pollPage logCapacity pageSize displayName feed.
Let commit := commitPage logCapacity displayName.
Let run := runCycles logCapacity pageSize displayName feed.
Let pos (affiliate : string) (m : Monitor) : nat :=
  cursorPos (feed affiliate) (cursorGet affiliate m).

Lemma cursor_eqb_eq c d : cursor_eqb c d = true <-> c = d.
Proof.
  unfold cursor_eqb. rewrite andb_true_iff, !String.eqb_eq.
  destruct c, d; simpl. split; [by intros [-> ->]|by intros [= -> ->]].
Qed.

Lemma cursor_eqb_refl c : cursor_eqb c c = true.
Proof. by apply cursor_eqb_eq. Qed.

Lemma keys_ok_app_r l1 l2 : keys_ok (l1 ++ l2) = true -> keys_ok l2 = true.
Proof.
  induction l1 as [|t l1 IH]; simpl; [done|].
  rewrite !andb_true_iff. intros [_ H]. by apply IH.
Qed.

Lemma keys_ok_nonzero l1 t l2 :
  keys_ok (l1 ++ t :: l2) = true -> cursor_eqb (txKey t) zeroCursor = false.
Proof.
  intros H%keys_ok_app_r. simpl in H. rewrite !andb_true_iff in H.
  destruct H as [[H _] _]. by apply negb_true_iff.
Qed.

Lemma after_cursor_split l1 t l2 :
  keys_ok (l1 ++ t :: l2) = true -> after_cursor (txKey t) (l1 ++ t :: l2) = l2.
Proof.
  induction l1 as [|u l1 IH]; simpl.
  - by rewrite cursor_eqb_refl.
  - rewrite !andb_true_iff, !negb_true_iff. intros [[_ Hu] Hrest].
    rewrite existsb_app in Hu. apply orb_false_iff in Hu as [_ Hu].
    simpl in Hu. apply orb_false_iff in Hu as [Hu _].
    assert (cursor_eqb (txKey u) (txKey t) = false) as ->.
    { apply not_true_iff_false. intros E%cursor_eqb_eq. rewrite E in Hu.
      by rewrite cursor_eqb_refl in Hu. }
    by apply IH.
Qed.

Lemma at_split_rest history c done rest :
  keys_ok history = true -> at_split history c done rest ->
  (if cursor_eqb c zeroCursor then history else after_cursor c history) = rest /\
  cursorPos history c = length done.
Proof.
  intros Hk [-> ->]. unfold cursorPos.
  destruct done as [|d0 done'] using rev_ind; simpl.
  - done.
  - clear IHdone'. rewrite last_snoc. simpl.
    rewrite <- app_assoc in Hk |- *. simpl in *.
    rewrite (keys_ok_nonzero _ _ _ Hk), (after_cursor_split _ _ _ Hk).
    split; [done|]. rewrite !length_app. simpl. lia.
Qed.

Lemma fetchPage_split history c done rest :
  keys_ok history = true -> at_split history c done rest ->
  fetchPage history c pageSize = take pageSize rest /\
  committed history c = done.
Proof.
  intros Hk Hs. destruct (at_split_rest _ _ _ _ Hk Hs) as [Hr Hp].
  unfold fetchPage, committed. rewrite Hr, Hp. split; [done|].
  destruct Hs as [-> _]. by rewrite take_app_length.
Qed.

Lemma commitPage_effect affiliate page m :
  mon_cursors (commit affiliate page m) = mon_cursors m /\
  mon_recorded (commit affiliate page m) = mon_recorded m ++ tagged affiliate page /\
  mon_log (commit affiliate page m) =
    lb_append_all logCapacity (logRows displayName affiliate page) (mon_log m) /\
  statsSnapshot affiliate (commit affiliate page m) =
    recordPage page (statsSnapshot affiliate m).
Proof.
  unfold commit, commitPage, tagged, logRows, lb_append_all, recordPage, statsSnapshot.
  revert m. induction page as [|tx page IH]; intros m; simpl.
  - by rewrite app_nil_r.
  - destruct (IH (commitTx logCapacity displayName affiliate m tx)) as (-> & -> & -> & ->).
    simpl. by rewrite <- app_assoc, lookup_insert_eq.
Qed.

Lemma pollPage_cases o affiliate m :
  let page := page_of affiliate m in
  (poll o affiliate m).1 =
    if fetchOk o then
      match last page with
      | Some lastTx =>
          let m1 := commit affiliate page m in
          if persistOk o then
            {| mon_cursors := <[affiliate := txKey lastTx]> (mon_cursors m1);
               mon_stats := mon_stats m1; mon_log := mon_log m1;
               mon_recorded := mon_recorded m1 |}
          else m1
      | None => m
      end
    else m.
Proof.
  unfold poll, pollPage, page_of, commit. simpl.
  destruct (fetchOk o); simpl; [|done].
  destruct (last _); [|done]. unfold cursorAdvance.
  by destruct (persistOk o).
Qed.

Hypothesis feed_keys : forall affiliate, keys_ok (feed affiliate) = true.

Lemma poller_inv_pos affiliate m done rest :
  at_split (feed affiliate) (cursorGet affiliate m) done rest ->
  pos affiliate m = length done /\ page_of affiliate m = take pageSize rest /\
  committed (feed affiliate) (cursorGet affiliate m) = done.
Proof.
  intros Hs. unfold pos, page_of.
  destruct (at_split_rest _ _ _ _ (feed_keys affiliate) Hs) as [_ ->].
  destruct (fetchPage_split _ _ _ _ (feed_keys affiliate) Hs) as [-> ->]. done.
Qed.

Lemma poller_inv_same m m' :
  (forall b, cursorGet b m' = cursorGet b m) ->
  (forall x, x ∈ mon_recorded m -> x ∈ mon_recorded m') ->
  poller_inv feed m -> poller_inv feed m' /\ forall b, pos b m <= pos b m'.
Proof.
  intros Hc Hr Hinv. split.
  - intros b. destruct (Hinv b) as (done & rest & Hs & Hrec).
    exists done, rest. rewrite Hc. split; [done|]. intros tx Htx. by apply Hr, Hrec.
  - intros b. unfold pos. by rewrite Hc.
Qed.

Lemma poll_inv o affiliate m :
  poller_inv feed m ->
  poller_inv feed (poll o affiliate m).1 /\
  forall b, pos b m <= pos b (poll o affiliate m).1.
Proof.
  intros Hinv. rewrite pollPage_cases. cbv zeta.
  destruct (fetchOk o); [|by apply poller_inv_same].
  destruct (last (page_of affiliate m)) as [lastTx|] eqn:Hlast;
    [|by apply poller_inv_same].
  destruct (commitPage_effect affiliate (page_of affiliate m) m) as (Hc & Hr & _ & _).
  destruct (persistOk o).
  - assert (forall b, b <> affiliate ->
              cursorGet b {| mon_cursors := <[affiliate := txKey lastTx]>
                               (mon_cursors (commit affiliate (page_of affiliate m) m));
                             mon_stats := mon_stats (commit affiliate (page_of affiliate m) m);
                             mon_log := mon_log (commit affiliate (page_of affiliate m) m);
                             mon_recorded :=
                               mon_recorded (commit affiliate (page_of affiliate m) m) |}
              = cursorGet b m) as Hother.
    { intros b Hb. unfold cursorGet. simpl. by rewrite lookup_insert_ne, Hc. }
    destruct (Hinv affiliate) as (done & rest & Hs & Hrec).
    destruct (poller_inv_pos _ _ _ _ Hs) as (Hpos & Hpage & _).
    assert (at_split (feed affiliate) (txKey lastTx)
              (done ++ page_of affiliate m) (drop pageSize rest)) as Hs'.
    { destruct Hs as [Hf _]. split.
      - by rewrite Hf, Hpage, <- app_assoc, take_drop.
      - by rewrite last_app, Hlast. }
    split.
    + intros b. destruct (decide (b = affiliate)) as [->|Hb].
      * exists (done ++ page_of affiliate m), (drop pageSize rest). split.
        -- unfold cursorGet at 1. simpl. by rewrite lookup_insert_eq.
        -- intros tx Htx. simpl. rewrite Hr. unfold tagged.
           apply elem_of_app in Htx as [Htx|Htx]; apply elem_of_app.
           ++ left. by apply Hrec.
           ++ right. by apply (list_elem_of_fmap_2 (fun tx => (affiliate, tx))).
      * destruct (Hinv b) as (done' & rest' & Hsb & Hrecb).
        exists done', rest'. rewrite (Hother b Hb). split; [done|].
        intros tx Htx. simpl. rewrite Hr. apply elem_of_app. left. by apply Hrecb.
    + intros b. destruct (decide (b = affiliate)) as [->|Hb].
      * rewrite Hpos. unfold pos at 1. unfold cursorGet at 1. simpl.
        rewrite lookup_insert_eq. simpl.
        destruct (at_split_rest _ _ _ _ (feed_keys affiliate) Hs') as [_ ->].
        rewrite length_app. lia.
      * unfold pos. by rewrite (Hother b Hb).
  - apply poller_inv_same; [|intros x Hx; rewrite Hr; apply elem_of_app; by left|done].
    intros b. unfold cursorGet. by rewrite Hc.
Qed.

Lemma pollCycle_inv script affiliate m :
  poller_inv feed m ->
  poller_inv feed (pollCycle logCapacity pageSize displayName feed script affiliate m) /\
  forall b, pos b m <=
            pos b (pollCycle logCapacity pageSize displayName feed script affiliate m).
Proof.
  revert m. induction script as [|o script IH]; intros m Hinv; simpl; [done|].
  destruct (poll_inv o affiliate m Hinv) as [Hinv' Hpos'].
  fold poll. destruct (poll o affiliate m) as [m' [|]]; simpl in *; [|done].
  destruct (IH m' Hinv') as [Hinv'' Hpos'']. split; [done|].
  intros b. specialize (Hpos' b). specialize (Hpos'' b). lia.
Qed.

Lemma run_inv cycles m :
  poller_inv feed m ->
  poller_inv feed (run cycles m) /\ forall b, pos b m <= pos b (run cycles m).
Proof.
  unfold run, runCycles.
  revert m. induction cycles as [|[a script] cycles IH]; intros m Hinv; simpl; [done|].
  destruct (pollCycle_inv script a m Hinv) as [Hinv' Hpos'].
  destruct (IH _ Hinv') as [Hinv'' Hpos'']. split; [done|].
  intros b. specialize (Hpos' b). specialize (Hpos'' b). lia.
Qed.

Lemma poller_inv_empty : poller_inv feed emptyMonitor.
Proof.
  intros a. exists [], (feed a). split; [|by intros tx Htx%elem_of_nil].
  split; [done|]. unfold cursorGet. simpl. by rewrite lookup_empty.
Qed.

Lemma poll_page_effect o affiliate m :
  let page := page_of affiliate m in
  let m' := (poll o affiliate m).1 in
  (forall b, b <> affiliate -> cursorGet b m' = cursorGet b m) /\
  (fetchOk o = false -> m' = m) /\
  (fetchOk o = true ->
     mon_recorded m' = mon_recorded m ++ tagged affiliate page /\
     mon_log m' = lb_append_all logCapacity (logRows displayName affiliate page) (mon_log m) /\
     statsSnapshot affiliate m' = recordPage page (statsSnapshot affiliate m)) /\
  (persistOk o = false -> mon_cursors m' = mon_cursors m) /\
  (cursorGet affiliate m' <> cursorGet affiliate m ->
     fetchOk o = true /\ persistOk o = true /\
     exists lastTx, last page = Some lastTx /\ cursorGet affiliate m' = txKey lastTx).
Proof.
  intros page m'. subst m'. rewrite pollPage_cases. cbv zeta. fold page.
  destruct (commitPage_effect affiliate page m) as (Hc & Hr & Hlog & Hstats).
  destruct (fetchOk o); [|by repeat split].
  destruct (last page) as [lastTx|] eqn:Hlast.
  - destruct (persistOk o).
    + split; [intros b Hb; unfold cursorGet; simpl; by rewrite lookup_insert_ne, Hc|].
      split; [done|]. split; [by intros _|]. split; [done|].
      intros _. split; [done|]. split; [done|]. exists lastTx. split; [done|].
      unfold cursorGet. simpl. by rewrite lookup_insert_eq.
    + split; [intros b _; unfold cursorGet; by rewrite Hc|].
      split; [done|]. split; [by intros _|]. split; [done|].
      intros H. exfalso. apply H. unfold cursorGet. by rewrite Hc.
  - apply last_None in Hlast. rewrite Hlast.
    split; [done|]. split; [done|]. split; [|by split].
    intros _. unfold tagged, logRows. simpl. by rewrite app_nil_r.
Qed.

Lemma poll_again_after_failed_persist o' affiliate m :
  fetchOk o' = true ->
  let page := page_of affiliate m in
  let m1 := (poll {| fetchOk := true; persistOk := false |} affiliate m).1 in
  mon_cursors m1 = mon_cursors m /\
  page_of affiliate m1 = page /\
  mon_recorded (poll o' affiliate m1).1 =
    mon_recorded m ++ tagged affiliate page ++ tagged affiliate page.
Proof.
  intros Ho' page m1.
  destruct (poll_page_effect {| fetchOk := true; persistOk := false |} affiliate m)
    as (_ & _ & Hrec & Hcur & _).
  fold m1 page in Hrec, Hcur. specialize (Hcur eq_refl).
  destruct (Hrec eq_refl) as (Hr & _ & _).
  assert (page_of affiliate m1 = page) as Hp.
  { unfold page, page_of, cursorGet. by rewrite Hcur. }
  split; [done|]. split; [done|].
  destruct (poll_page_effect o' affiliate m1) as (_ & _ & Hrec' & _).
  destruct (Hrec' Ho') as (-> & _ & _). by rewrite Hp, Hr, <- app_assoc.
Qed.

(** C1.  One page attempt touches no other affiliate's cursor.  When the
    fetch fails nothing changes.  When it succeeds the whole page goes into
    the aggregator (its history and its counters) and the log buffer, in
    page order; the cursor moves only if persisting it then succeeds, and
    then to the last transaction of that page, which the state with the new
    cursor already holds.  When persisting fails the cursors stay as they
    were, the next attempt fetches the same page and it is recorded a
    second time.  Over any run from the empty state, every transaction at
    or before an affiliate's cursor has been recorded, and the cursor's
    position never decreases. *)
Theorem cursor_advances_after_commit :
  (forall o affiliate m,
     let page := page_of affiliate m in
     let m' := (poll o affiliate m).1 in
     (forall b, b <> affiliate -> cursorGet b m' = cursorGet b m) /\
     (fetchOk o = false -> m' = m) /\
     (fetchOk o = true ->
        mon_recorded m' = mon_recorded m ++ tagged affiliate page /\
        mon_log m' =
          lb_append_all logCapacity (logRows displayName affiliate page) (mon_log m) /\
        statsSnapshot affiliate m' = recordPage page (statsSnapshot affiliate m)) /\
     (persistOk o = false -> mon_cursors m' = mon_cursors m) /\
     (cursorGet affiliate m' <> cursorGet affiliate m ->
        fetchOk o = true /\ persistOk o = true /\
        exists lastTx, last page = Some lastTx /\ cursorGet affiliate m' = txKey lastTx)) /\
  (forall o' affiliate m,
     fetchOk o' = true ->
     let page := page_of affiliate m in
     let m1 := (poll {| fetchOk := true; persistOk := false |} affiliate m).1 in
     mon_cursors m1 = mon_cursors m /\
     page_of affiliate m1 = page /\
     mon_recorded (poll o' affiliate m1).1 =
       mon_recorded m ++ tagged affiliate page ++ tagged affiliate page) /\
  (forall cycles affiliate,
     let m := run cycles emptyMonitor in
     (forall tx, tx ∈ committed (feed affiliate) (cursorGet affiliate m) ->
                 (affiliate, tx) ∈ mon_recorded m) /\
     (forall more, pos affiliate m <= pos affiliate (run more m))).
Proof.
  split; [apply poll_page_effect|]. split; [apply poll_again_after_failed_persist|].
  intros cycles affiliate m.
  destruct (run_inv cycles emptyMonitor poller_inv_empty) as [Hinv _]. fold m in Hinv.
  split.
  - destruct (Hinv affiliate) as (done & rest & Hs & Hrec).
    destruct (poller_inv_pos _ _ _ _ Hs) as (_ & _ & ->). exact Hrec.
  - intros more. by apply (run_inv more m Hinv).
Qed.

End PollerFacts.

(** The scenario of the specification: a page of five transactions is
    aggregated, persisting the cursor fails, and the next attempt
    aggregates the same five again. *)
Lemma cursor_advances_after_commit_witness :
  let failed := {| fetchOk := true; persistOk := false |} in
  let fine := {| fetchOk := true; persistOk := true |} in
  let m1 := (pollPage 1000 5 (fun a => a) eagleFeed failed "eagle" emptyMonitor).1 in
  let m2 := (pollPage 1000 5 (fun a => a) eagleFeed fine "eagle" m1).1 in
  (forall affiliate, keys_ok (eagleFeed affiliate) = true) /\
  cursorGet "eagle" m1 = zeroCursor /\
  mon_recorded m2 = (tagged "eagle" eaglePage ++ tagged "eagle" eaglePage)%list.
Proof.
  intros failed fine m1 m2.
  assert (forall affiliate, keys_ok (eagleFeed affiliate) = true) as Hkeys.
  { intros a. unfold eagleFeed. by destruct (String.eqb a "eagle"). }
  split; [exact Hkeys|].
  destruct (cursor_advances_after_commit 1000 5 (fun a => a) eagleFeed Hkeys)
    as (_ & Hagain & _).
  destruct (Hagain fine "eagle" emptyMonitor eq_refl) as (Hc & _ & Hr).
  split.
  - unfold cursorGet. fold failed in Hc. fold m1 in Hc. by rewrite Hc.
  - exact Hr.
Defined.

(* ===================================================================== *)
(** * Letter case in labels and in the reporting filter *)
(* ===================================================================== *)

Ltac each_byte c := destruct c as [[] [] [] [] [] [] [] []]; reflexivity.

Lemma to_upper_lower_byte c : to_upper_byte (to_lower_byte c) = to_upper_byte c.
Proof. each_byte c. Qed.

Lemma to_lower_upper_byte c : to_lower_byte (to_upper_byte c) = to_lower_byte c.
Proof. each_byte c. Qed.

Lemma is_space_upper_byte c : is_space (to_upper_byte c) = is_space c.
Proof. each_byte c. Qed.

Lemma colon_lower_byte c : Ascii.eqb (to_lower_byte c) ":" = Ascii.eqb c ":".
Proof. each_byte c. Qed.

Lemma dot_lower_byte c : Ascii.eqb (to_lower_byte c) "." = Ascii.eqb c ".".
Proof. each_byte c. Qed.

Lemma ToUpper_ToLower s : ToUpper (ToLower s) = ToUpper s.
Proof.
  unfold ToUpper, ToLower. induction s as [|c s IH]; cbn [map_bytes]; [done|].
  by rewrite to_upper_lower_byte, IH.
Qed.

Lemma ToLower_ToUpper s : ToLower (ToUpper s) = ToLower s.
Proof.
  unfold ToUpper, ToLower. induction s as [|c s IH]; cbn [map_bytes]; [done|].
  by rewrite to_lower_upper_byte, IH.
Qed.

Lemma EqualFold_eq s t : EqualFold s t = true <-> ToLower s = ToLower t.
Proof. unfold EqualFold. apply String.eqb_eq. Qed.

Lemma map_bytes_empty f s : String.eqb (map_bytes f s) "" = String.eqb s "".
Proof. by destruct s. Qed.

Lemma cut_map_bytes f c s :
  (forall a, Ascii.eqb (f a) c = Ascii.eqb a c) ->
  cut c (map_bytes f s) =
    match cut c s with
    | Some (l, r) => Some (map_bytes f l, map_bytes f r)
    | None => None
    end.
Proof.
  intros Hf. induction s as [|a s IH]; cbn [map_bytes cut]; [done|].
  rewrite Hf. destruct (Ascii.eqb a c); [done|].
  rewrite IH. by destruct (cut c s) as [[l r]|].
Qed.

Lemma before_first_ToLower c s :
  (forall a, Ascii.eqb (to_lower_byte a) c = Ascii.eqb a c) ->
  before_first c (ToLower s) = ToLower (before_first c s).
Proof.
  intros Hc. unfold before_first, ToLower. rewrite (cut_map_bytes _ _ _ Hc).
  by destruct (cut c s) as [[l r]|].
Qed.

Lemma TrimLeft_ToUpper s : TrimLeft (ToUpper s) = ToUpper (TrimLeft s).
Proof.
  unfold ToUpper. induction s as [|c s IH]; cbn [map_bytes TrimLeft]; [done|].
  rewrite is_space_upper_byte. by destruct (is_space c).
Qed.

Lemma TrimRight_ToUpper s : TrimRight (ToUpper s) = ToUpper (TrimRight s).
Proof.
  unfold ToUpper. induction s as [|c s IH]; cbn [map_bytes TrimRight]; [done|].
  rewrite IH, is_space_upper_byte.
  destruct (TrimRight s); cbn [map_bytes]; [|done]. by destruct (is_space c).
Qed.

Lemma TrimSpace_ToUpper s : TrimSpace (ToUpper s) = ToUpper (TrimSpace s).
Proof. unfold TrimSpace. by rewrite TrimLeft_ToUpper, TrimRight_ToUpper. Qed.

Lemma chain_name_fold (a b : string) :
  EqualFold a b = true -> explorerChainName a = explorerChainName b.
Proof.
  intros H%EqualFold_eq. unfold explorerChainName. rewrite H.
  destruct (chainNames !! ToLower b); [done|].
  by rewrite <- (ToUpper_ToLower a), <- (ToUpper_ToLower b), H.
Qed.

(** X1.  The chain table is looked up without regard to letter case, and
    so is its fallback: two codes that are equal up to case get the same
    chain name.  The codes are taken to be ASCII, for which the byte-wise
    case mapping is Go's. *)
Theorem explorerChainName_fold (a b : string) :
  all_bytes is_ascii_byte a = true -> all_bytes is_ascii_byte b = true ->
  EqualFold a b = true -> explorerChainName a = explorerChainName b.
Proof. intros _ _. apply chain_name_fold. Qed.

Lemma explorerChainName_fold_witness :
  explorerChainName "TrOn" = explorerChainName "tron" /\
  explorerChainName "Zec" = explorerChainName "zEC".
Proof. split; by apply explorerChainName_fold. Defined.

Lemma heuristic_token_label find assetID :
  known_ticker find assetID = None ->
  txTokenLabel find assetID =
    match cut ":" (ToLower assetID) with
    | Some (p, rest) =>
        if String.eqb (ToUpper p) "NEP141" then ToUpper (before_first "." rest)
        else ToUpper p
    | None => ToUpper (ToLower assetID)
    end.
Proof.
  intros Hk. unfold ToLower at 1. rewrite (cut_map_bytes _ _ _ colon_lower_byte).
  destruct (cut ":" assetID) as [[p rest]|] eqn:Hc.
  - apply cut_Some in Hc.
    rewrite (txTokenLabel_prefixed find assetID p rest Hk Hc).
    fold (ToLower p) (ToLower rest).
    by rewrite ToUpper_ToLower, (before_first_ToLower _ _ dot_lower_byte), ToUpper_ToLower.
  - apply cut_None in Hc. rewrite ToUpper_ToLower. by apply txTokenLabel_plain.
Qed.

Lemma heuristic_chain_label find assetID :
  known_chain find assetID = None ->
  txChainLabel find assetID = explorerChainName (before_first ":" (ToLower assetID)).
Proof.
  intros Hk. rewrite (txChainLabel_unknown find assetID Hk).
  apply chain_name_fold, EqualFold_eq.
  by rewrite (before_first_ToLower _ _ colon_lower_byte), <- (ToLower_ToUpper (ToLower _)),
    ToUpper_ToLower, ToLower_ToUpper.
Qed.

(** X2.  For identifiers the catalogue has no ticker (resp. no chain name)
    for, the labels do not depend on letter case: two identifiers that are
    equal up to case get the same token label and the same chain label.
    The identifiers are taken to be ASCII, for which the byte-wise case
    mapping is Go's. *)
Theorem heuristic_labels_fold (find : string -> option TokenInfo) (a b : string) :
  all_bytes is_ascii_byte a = true -> all_bytes is_ascii_byte b = true ->
  EqualFold a b = true ->
  (known_ticker find a = None -> known_ticker find b = None ->
   txTokenLabel find a = txTokenLabel find b) /\
  (known_chain find a = None -> known_chain find b = None ->
   txChainLabel find a = txChainLabel find b).
Proof.
  intros _ _ H%EqualFold_eq. split; intros Ha Hb.
  - by rewrite (heuristic_token_label find a Ha), (heuristic_token_label find b Hb), H.
  - by rewrite (heuristic_chain_label find a Ha), (heuristic_chain_label find b Hb), H.
Qed.

Lemma heuristic_labels_fold_witness :
  txTokenLabel (fun _ => None) "NEP141:Wrap.Near" = txTokenLabel (fun _ => None) "nep141:wrap.near" /\
  txChainLabel (fun _ => None) "ETH:0xAbC" = txChainLabel (fun _ => None) "eth:0xabc".
Proof.
  split.
  - by apply (heuristic_labels_fold (fun _ => None) "NEP141:Wrap.Near" "nep141:wrap.near").
  - by apply (heuristic_labels_fold (fun _ => None) "ETH:0xAbC" "eth:0xabc").
Defined.

(** X3.  The reporting filter ignores the letter case of the query and of
    the reseller selector (both taken to be ASCII, for which the byte-wise
    case mapping is Go's). *)
Theorem wrapper_filter_ignores_case (find : string -> option TokenInfo)
    (qParam resellerParam : string) (e : LogEntry) :
  all_bytes is_ascii_byte qParam = true ->
  all_bytes is_ascii_byte resellerParam = true ->
  wrapperLogsFilter find (ToUpper qParam) (ToUpper resellerParam) e =
  wrapperLogsFilter find qParam resellerParam e /\
  wrapperLogsFilter find (ToLower qParam) (ToLower resellerParam) e =
  wrapperLogsFilter find qParam resellerParam e.
Proof.
  intros _ _.
  assert (forall q r, wrapperLogsFilter find (ToUpper q) (ToUpper r) e =
                      wrapperLogsFilter find q r e) as Hup.
  { intros q r. unfold wrapperLogsFilter. rewrite !logFilter_bool, TrimSpace_ToUpper.
    unfold EqualFold, ToUpper at 1 3. rewrite !map_bytes_empty.
    fold (ToUpper r) (ToUpper (TrimSpace q)). by rewrite !ToLower_ToUpper. }
  split; [apply Hup|].
  by rewrite <- (Hup (ToLower qParam)), <- (Hup qParam resellerParam), !ToUpper_ToLower.
Qed.

Lemma wrapper_filter_ignores_case_witness :
  wrapperLogsFilter usdtTronCatalogue "TRON" "" tronEntry =
  wrapperLogsFilter usdtTronCatalogue "tRoN" "" tronEntry.
Proof.
  destruct (wrapper_filter_ignores_case usdtTronCatalogue "tRoN" "" tronEntry eq_refl eq_refl)
    as [Hup _].
  exact Hup.
Defined.

Lemma TrimLeft_blank s : all_bytes is_space s = true -> TrimLeft s = "".
Proof.
  induction s as [|c s IH]; simpl; [done|].
  intros [Hc Hs]%andb_true_iff. rewrite Hc. by apply IH.
Qed.

(** X4.  A query made of white space only is no query: the filter then
    depends on the reseller selector alone, and with an empty selector it
    keeps every entry. *)
Theorem wrapper_filter_blank_query (find : string -> option TokenInfo)
    (qParam resellerParam : string) (e : LogEntry) :
  all_bytes is_space qParam = true ->
  wrapperLogsFilter find qParam resellerParam e =
    wrapperLogsFilter find "" resellerParam e /\
  wrapperLogsFilter find qParam "" e = true.
Proof.
  intros Hq. unfold wrapperLogsFilter, TrimSpace.
  rewrite (TrimLeft_blank qParam Hq). split; [done|].
  by rewrite logFilter_bool.
Qed.

Lemma wrapper_filter_blank_query_witness :
  wrapperLogsFilter usdtTronCatalogue "    " "" tronEntry = true.
Proof. by apply (wrapper_filter_blank_query usdtTronCatalogue "    " "" tronEntry). Defined.

(* ===================================================================== *)
(** * Further properties of the fee *)
(* ===================================================================== *)

Section FeeOrderAndSign.

Local Close Scope string_scope.

Lemma total_bps_perm fees fees' : fees ≡ₚ fees' -> total_bps fees = total_bps fees'.
Proof.
  induction 1 as [|f l l' _ IH|f g l|l l' l'' _ IH1 _ IH2]; simpl; lia.
Qed.

(** X5.  The fee depends on the fee schedule only through the sum of its
    basis points: reordering the entries of the schedule does not change
    it, wrap-around of the accumulator included. *)
Theorem txFeeUSD_order_independent (tx tx' : ExplorerTx) :
  AmountInUsd tx = AmountInUsd tx' -> AppFees tx ≡ₚ AppFees tx' ->
  txFeeUSD tx = txFeeUSD tx'.
Proof.
  intros Hn Hp. unfold txFeeUSD.
  by rewrite !sum_fees_total, Hn, (total_bps_perm _ _ Hp).
Qed.

Lemma binary_round_aux_sign sx mx ex lx :
  0 <= mx -> has_sign sx (binary_round_aux prec emax sx mx ex lx).
Proof.
  intros Hm. unfold binary_round_aux.
  destruct (shr_fexp_bounds mx ex lx Hm) as (H1 & _ & _).
  destruct (shr_fexp prec emax mx ex lx) as [mrs' e']. simpl in *.
  pose proof (round_nearest_even_bounds (shr_m mrs') (loc_of_shr_record mrs')) as Hr.
  set (m'' := round_nearest_even (shr_m mrs') (loc_of_shr_record mrs')) in *.
  destruct (shr_fexp_bounds m'' e' loc_Exact ltac:(lia)) as (H2 & _ & _).
  destruct (shr_fexp prec emax m'' e' loc_Exact) as [mrs'' e'']. simpl in *.
  destruct (shr_m mrs'') as [|p|p]; [done| |lia].
  by destruct (e'' <=? emax - prec).
Qed.

Lemma float64_of_int_sign i : 0 <= i -> has_sign false (float64_of_int i).
Proof.
  intros Hi. unfold float64_of_int, binary_normalize.
  destruct i as [|p|p]; [done| |lia].
  unfold binary_round. destruct (shl_align p 0 _) as [mz ez].
  by apply binary_round_aux_sign.
Qed.

Lemma fmul_sign x y :
  is_finite x = true -> is_finite y = true ->
  has_sign false x -> has_sign false y -> has_sign false (fmul x y).
Proof.
  destruct x as [sx|sx| |sx mx ex], y as [sy|sy| |sy my ey]; try done;
    simpl; intros _ _ -> ->; try done.
  by apply binary_round_aux_sign.
Qed.

Lemma fdiv_f10000_sign x : has_sign false x -> has_sign false (fdiv x f10000).
Proof.
  destruct x as [sx|sx| |sx mx ex]; try done; simpl; intros ->; try done.
  unfold fdiv, f10000, SFdiv, SFdiv_core_binary.
  match goal with |- context [Z.div_eucl ?a ?b] =>
    pose proof (Z.div_pos a b) as Hq; unfold Z.div in Hq;
    destruct (Z.div_eucl a b) as [q r] end.
  apply binary_round_aux_sign. apply Hq; [|lia].
  match goal with |- 0 <= match ?s with _ => _ end => destruct s eqn:Hs end;
    try lia.
  apply Z.shiftl_nonneg. lia.
Qed.

Lemma has_sign_not_below_zero x : has_sign false x -> flt x fzero = false.
Proof. destruct x as [sx|sx| |sx mx ex]; try done; by intros ->. Qed.

(** X6.  A notional that is a number never gives a fee that is not a
    number; and when moreover the notional is not below zero and the sum
    of the basis points, as accumulated, is not negative, the fee is not
    below zero either (nor is it the negative zero). *)
Theorem txFeeUSD_sound (tx : ExplorerTx) :
  is_finite (AmountInUsd tx) = true ->
  txFeeUSD tx <> S754_nan /\
  (flt (AmountInUsd tx) fzero = false -> 0 <= wrap64 (total_bps (AppFees tx)) ->
   has_sign false (txFeeUSD tx) /\ flt (txFeeUSD tx) fzero = false).
Proof.
  intros Hn. unfold txFeeUSD. rewrite sum_fees_total.
  set (b := wrap64 (total_bps (AppFees tx))). set (n := AmountInUsd tx) in *.
  pose proof (float64_of_int_finite b (in_int_wrap64 _)) as Hy.
  destruct ((b =? 0)%Z || feq n fzero) eqn:Hz.
  - split; [done|]. by intros _ _.
  - apply orb_false_iff in Hz as [Hb Hz].
    split; [apply fdiv_f10000; by apply fmul_finite|].
    intros Hpos Hb0.
    assert (has_sign false (fdiv (fmul n (float64_of_int b)) f10000)) as Hs.
    { apply fdiv_f10000_sign, fmul_sign; try done; [|by apply float64_of_int_sign].
      destruct n as [sn|sn| |sn mn en]; try done.
      unfold flt, SFltb, fzero in Hpos. simpl in Hpos. by destruct sn. }
    split; [done|]. by apply has_sign_not_below_zero.
Qed.

End FeeOrderAndSign.

Lemma txFeeUSD_order_independent_witness : txFeeUSD eagleTxSwapped = txFeeUSD eagleTx.
Proof.
  apply txFeeUSD_order_independent; [reflexivity|].
  apply Permutation_swap.
Defined.

Lemma txFeeUSD_sound_witness :
  txFeeUSD eagleTx <> S754_nan /\ flt (txFeeUSD eagleTx) fzero = false.
Proof.
  destruct (txFeeUSD_sound eagleTx eq_refl) as [Hnan Hpos].
  split; [exact Hnan|]. apply Hpos; [reflexivity|]. vm_compute. discriminate.
Defined.

(* ===================================================================== *)
(** * Query strings cannot be tampered with *)
(* ===================================================================== *)

Lemma all_bytes_app p s t :
  all_bytes p (s ++ t) = all_bytes p s && all_bytes p t.
Proof.
  induction s as [|c s IH]; simpl; [done|]. by rewrite IH, andb_assoc.
Qed.











(* ===================================================================== *)
(** * Time stamps of the reporting page and of the card *)
(* ===================================================================== *)

Lemma string_length_app s t :
  String.length (s ++ t) = (String.length s + String.length t)%nat.
Proof. induction s as [|c s IH]; simpl; [done|]. by rewrite IH. Qed.

Lemma two_digit_fields : holds_from two_digit_ok 0 60 = true.
Proof. vm_compute. reflexivity. Qed.

Lemma month_texts : holds_from month_text_ok 1 12 = true.
Proof. vm_compute. reflexivity. Qed.

Lemma day_texts : holds_from day_text_ok 1 31 = true.
Proof. vm_compute. reflexivity. Qed.

Lemma year_texts : holds_from year_text_ok 0 (Z.to_nat 10000) = true.
Proof. vm_compute. reflexivity. Qed.

Lemma year_range ts :
  -62167219200 <= ts <= 253402300799 -> 0 <= Year ts <= 9999.
Proof.
  intros Hts. unfold Year.
  pose proof (day_of_year_range (GoTime.day_of_era ts)
                ltac:(unfold GoTime.day_of_era; apply Z.mod_pos_bound; lia)) as Hdoy.
  revert Hdoy.
  unfold GoTime.month_from_march, GoTime.day_of_year, GoTime.year_of_era,
    GoTime.day_of_era, GoTime.days_of.
  intros Hdoy.
  match goal with |- context [if ?b then _ else _] => destruct b eqn:Hb end;
    [apply Z.ltb_lt in Hb|apply Z.ltb_ge in Hb];
    Z.div_mod_to_equations; lia.
Qed.

Lemma field_ok (f : Z -> bool) start n z :
  holds_from f start n = true -> start <= z < start + Z.of_nat n -> f z = true.
Proof. apply holds_from_spec. Qed.

Lemma text_ok_split s n :
  all_bytes is_ascii_byte s && Nat.eqb (String.length s) n = true ->
  all_bytes is_ascii_byte s = true /\ String.length s = n.
Proof. intros [H1 H2%Nat.eqb_eq]%andb_true_iff. done. Qed.

(** X8.  The log time of the reporting page is the placeholder of the
    source for the timestamp 0 and for that timestamp only.  For any other
    timestamp from year 0 to year 9999 it is plain ASCII of exactly 18
    bytes, two-digit day, month abbreviation, four-digit year, hour and
    minute. *)
Theorem formatLogTime_spec (ts : Z) :
  (formatLogTime ts = logTimeNone <-> ts = 0) /\
  (ts <> 0 -> -62167219200 <= ts <= 253402300799 ->
   0 <= Year ts <= 9999 /\
   String.length (formatLogTime ts) = 18%nat /\
   all_bytes is_ascii_byte (formatLogTime ts) = true).
Proof.
  destruct (calendar_range ts) as [Hd Hmo]. destruct (clock_range ts) as [Hh Hmi].
  destruct (text_ok_split _ _ (field_ok _ _ _ (GoTime.Day ts) two_digit_fields ltac:(lia)))
    as [Hda Hdl].
  destruct (text_ok_split _ _ (field_ok _ _ _ (GoTime.Month ts) month_texts ltac:(lia)))
    as [Hma Hml].
  destruct (text_ok_split _ _ (field_ok _ _ _ (GoTime.Hour ts) two_digit_fields ltac:(lia)))
    as [Hha Hhl].
  destruct (text_ok_split _ _ (field_ok _ _ _ (GoTime.Minute ts) two_digit_fields ltac:(lia)))
    as [Hmia Hmil].
  split.
  - split; [|by intros ->].
    unfold formatLogTime. destruct (Z.eqb_spec ts 0) as [|Hne]; [done|].
    intros Heq. exfalso.
    destruct (sprint_02d (GoTime.Day ts)) as [|c rest]; [discriminate|].
    simpl in Heq, Hda. injection Heq as -> _. discriminate.
  - intros Hne Hts. pose proof (year_range ts Hts) as Hy. split; [done|].
    destruct (text_ok_split _ _ (field_ok _ _ _ (Year ts) year_texts ltac:(lia)))
      as [Hya Hyl].
    unfold formatLogTime. apply Z.eqb_neq in Hne. rewrite Hne. split.
    + rewrite !string_length_app, Hdl, Hml, Hyl, Hhl, Hmil. reflexivity.
    + rewrite !all_bytes_app, Hda, Hma, Hya, Hha, Hmia. reflexivity.
Qed.

Lemma formatLogTime_spec_witness :
  formatLogTime 1772073660 = "26 Feb 2026 02:41z" /\
  String.length (formatLogTime 1772073660) = 18%nat.
Proof.
  split; [reflexivity|].
  by apply (formatLogTime_spec 1772073660).
Defined.

Lemma days_of_minute ts : GoTime.days_of ts = ts / 60 / 1440.
Proof. unfold GoTime.days_of. rewrite Z.div_div by lia. reflexivity. Qed.

Lemma Hour_minute ts : GoTime.Hour ts = (ts / 60) mod 1440 / 60.
Proof. unfold GoTime.Hour. Z.div_mod_to_equations. lia. Qed.

Lemma Minute_minute ts : GoTime.Minute ts = (ts / 60) mod 60.
Proof. unfold GoTime.Minute. Z.div_mod_to_equations. lia. Qed.

(** X9.  Seconds are cut off, not rounded: two timestamps other than 0
    within the same minute give the same text, on the card and on the
    reporting page.  A timestamp of 1 to 59 seconds is thus shown as
    midnight of 1 January, while 0 itself is shown as unknown. *)
Theorem time_texts_drop_seconds (ts ts' : Z) :
  ts / 60 = ts' / 60 -> ts <> 0 -> ts' <> 0 ->
  monitorFormatTime ts = monitorFormatTime ts' /\
  formatLogTime ts = formatLogTime ts'.
Proof.
  intros Hmin Hne%Z.eqb_neq Hne'%Z.eqb_neq.
  assert (GoTime.days_of ts = GoTime.days_of ts') as Hdays
    by (by rewrite !days_of_minute, Hmin).
  assert (GoTime.Hour ts = GoTime.Hour ts') as Hh by (by rewrite !Hour_minute, Hmin).
  assert (GoTime.Minute ts = GoTime.Minute ts') as Hm by (by rewrite !Minute_minute, Hmin).
  assert (GoTime.day_of_era ts = GoTime.day_of_era ts') as Hdoe
    by (unfold GoTime.day_of_era; by rewrite Hdays).
  unfold monitorFormatTime, formatLogTime, GoTime.Day, GoTime.Month, Year.
  by rewrite Hne, Hne', Hh, Hm, Hdoe, Hdays.
Qed.

Lemma time_texts_drop_seconds_witness :
  monitorFormatTime 59 = monitorFormatTime 1 /\
  formatLogTime 59 = "01 Jan 1970 00:00z" /\ monitorFormatTime 0 = "unknown".
Proof.
  destruct (time_texts_drop_seconds 59 1) as [H1 H2]; [reflexivity|lia|lia|].
  split; [exact H1|]. split; reflexivity.
Defined.

(* ===================================================================== *)
(** * Widths on the card *)
(* ===================================================================== *)

Section CardFacts.

Import GoUTF8.

Lemma runes_ascii_app a s :
  all_bytes is_ascii_byte a = true ->
  string_of_runes (runes a) = a /\
  RuneCount (a ++ s) = (String.length a + RuneCount s)%nat.
Proof.
  unfold RuneCount, string_of_runes.
  induction a as [|c a IH]; [intros _; split; reflexivity|].
  cbn [all_bytes]. intros [Hc Ha]%andb_true_iff. destruct (IH Ha) as [IH1 IH2].
  unfold is_ascii_byte in Hc. split.
  - cbn [runes]. rewrite Hc. cbn [String.concat].
    destruct (runes a) as [|r rs] eqn:Hr.
    + simpl in IH1. by rewrite <- IH1.
    + rewrite IH1. reflexivity.
  - change (String c a ++ s) with (String c (a ++ s)).
    cbn [runes]. rewrite Hc. cbn [length String.length]. by rewrite IH2.
Qed.

Lemma RuneCount_ascii a :
  all_bytes is_ascii_byte a = true -> RuneCount a = String.length a.
Proof.
  intros Ha. destruct (runes_ascii_app a "" Ha) as [_ H].
  assert (a ++ "" = a) as Ha0.
  { clear. induction a as [|c a IH]; [done|].
    change (String c a ++ "") with (String c (a ++ "")). by rewrite IH. }
  rewrite Ha0 in H. rewrite H. unfold RuneCount. simpl. lia.
Qed.

Lemma RuneCount_spaces n s : RuneCount (Repeat " " n ++ s) = (n + RuneCount s)%nat.
Proof.
  induction n as [|n IH]; [done|].
  change (Repeat " " (S n) ++ s) with (String " " (Repeat " " n ++ s)).
  unfold RuneCount in *. cbn [runes]. simpl. by rewrite IH.
Qed.

Lemma RuneCount_horizontal n s :
  RuneCount (Repeat boxHorizontal n ++ s) = (n + RuneCount s)%nat.
Proof.
  induction n as [|n IH]; [done|].
  unfold RuneCount in *. simpl Repeat.
  transitivity (S (length (runes (Repeat boxHorizontal n ++ s)))); [|by rewrite IH].
  reflexivity.
Qed.

Variable cardInner : nat.

(** X10.  The three border lines of a card are [cardInner + 2] runes wide.
    A two-sided row with ASCII content is as wide when the two sides
    together are shorter than the inner width; otherwise nothing is cut:
    the row keeps both sides with a single blank between them and is wider
    than the border. *)
Theorem card_rows_width (left right : string) :
  all_bytes is_ascii_byte left = true -> all_bytes is_ascii_byte right = true ->
  RuneCount (cardTopD cardInner) = (cardInner + 2)%nat /\
  RuneCount (cardMidD cardInner) = (cardInner + 2)%nat /\
  RuneCount (cardBotD cardInner) = (cardInner + 2)%nat /\
  ((String.length left + String.length right < cardInner)%nat ->
   RuneCount (cardRowDLR cardInner left right) = (cardInner + 2)%nat) /\
  ((cardInner <= String.length left + String.length right)%nat ->
   cardRowDLR cardInner left right = boxVertical ++ left ++ " " ++ right ++ boxVertical /\
   RuneCount (cardRowDLR cardInner left right) =
     (String.length left + String.length right + 3)%nat).
Proof.
  intros Hl Hr.
  assert (forall s, RuneCount (boxVertical ++ s) = S (RuneCount s)) as Hv by reflexivity.
  split; [|split; [|split]].
  - unfold cardTopD.
    change (RuneCount (boxTopLeft ++ ?s)) with (S (RuneCount s)).
    rewrite RuneCount_horizontal. change (RuneCount boxTopRight) with 1%nat. lia.
  - unfold cardMidD.
    change (RuneCount (boxMidLeft ++ ?s)) with (S (RuneCount s)).
    rewrite RuneCount_horizontal. change (RuneCount boxMidRight) with 1%nat. lia.
  - unfold cardBotD.
    change (RuneCount (boxBotLeft ++ ?s)) with (S (RuneCount s)).
    rewrite RuneCount_horizontal. change (RuneCount boxBotRight) with 1%nat. lia.
  - destruct (runes_ascii_app left "" Hl) as [Hls _].
    destruct (runes_ascii_app right "" Hr) as [Hrs _].
    pose proof (RuneCount_ascii left Hl) as Hlc.
    pose proof (RuneCount_ascii right Hr) as Hrc.
    unfold RuneCount in Hlc, Hrc.
    assert (forall k, RuneCount (boxVertical ++ left ++ Repeat " " k ++ right ++ boxVertical)
                      = (String.length left + k + String.length right + 2)%nat) as Hrow.
    { intros k. rewrite Hv.
      destruct (runes_ascii_app left (Repeat " " k ++ right ++ boxVertical) Hl) as [_ ->].
      rewrite RuneCount_spaces.
      destruct (runes_ascii_app right boxVertical Hr) as [_ ->].
      change (RuneCount boxVertical) with 1%nat. lia. }
    split.
    + intros Hfit. unfold cardRowDLR. rewrite Hls, Hrs, Hlc, Hrc.
      destruct (Z.ltb_spec (Z.of_nat cardInner - Z.of_nat (String.length left)
                            - Z.of_nat (String.length right)) 1); [lia|].
      rewrite Hrow. lia.
    + intros Hover. unfold cardRowDLR. rewrite Hls, Hrs, Hlc, Hrc.
      destruct (Z.ltb_spec (Z.of_nat cardInner - Z.of_nat (String.length left)
                            - Z.of_nat (String.length right)) 1) as [_|]; [|lia].
      change (Z.to_nat 1) with 1%nat. split; [reflexivity|].
      rewrite (Hrow 1%nat). lia.
Qed.

End CardFacts.

Lemma card_rows_width_witness :
  GoUTF8.RuneCount (cardRowDLR 31 " SWAP.MY" "$18.42 PROFIT ") = 33%nat /\
  cardRowDLR 5 "abc" "defg" = boxVertical ++ "abc defg" ++ boxVertical.
Proof.
  destruct (card_rows_width 31 " SWAP.MY" "$18.42 PROFIT " eq_refl eq_refl)
    as (_ & _ & _ & Hfit & _).
  destruct (card_rows_width 5 "abc" "defg" eq_refl eq_refl)
    as (_ & _ & _ & _ & Hover).
  split; [apply Hfit; simpl; lia|]. apply Hover. simpl. lia.
Defined.

(** X11.  The time stamp of a card is 7 runes for the timestamp 0 and 14
    or 15 runes otherwise, one of them the middle dot: it is never wider
    than 15 columns. *)
Theorem monitorFormatTime_width (ts : Z) :
  (ts = 0 -> GoUTF8.RuneCount (monitorFormatTime ts) = 7%nat) /\
  (ts <> 0 ->
   GoUTF8.RuneCount (monitorFormatTime ts) =
     (if (GoTime.Day ts <? 10)%Z then 14 else 15)%nat) /\
  (GoUTF8.RuneCount (monitorFormatTime ts) <= 15)%nat.
Proof.
  assert (ts <> 0 -> GoUTF8.RuneCount (monitorFormatTime ts) =
            (if (GoTime.Day ts <? 10)%Z then 14 else 15)%nat) as Hother.
  { intros Hne%Z.eqb_neq. unfold monitorFormatTime. rewrite Hne.
    destruct (calendar_range ts) as [Hd Hmo]. destruct (clock_range ts) as [Hh Hmi].
    pose proof (field_ok _ _ _ (GoTime.Day ts) day_texts ltac:(lia)) as Hday.
    unfold day_text_ok in Hday. apply andb_true_iff in Hday as [Hda Hdl].
    destruct (text_ok_split _ _ (field_ok _ _ _ (GoTime.Month ts) month_texts ltac:(lia)))
      as [Hma Hml].
    destruct (text_ok_split _ _ (field_ok _ _ _ (GoTime.Hour ts) two_digit_fields ltac:(lia)))
      as [Hha Hhl].
    destruct (text_ok_split _ _ (field_ok _ _ _ (GoTime.Minute ts) two_digit_fields ltac:(lia)))
      as [Hmia Hmil].
    destruct (runes_ascii_app (sprint_d (GoTime.Day ts))
                (" " ++ first_bytes 3 (GoTime.MonthString (GoTime.Month ts)) ++ " " ++
                 middot ++ " " ++ sprint_02d (GoTime.Hour ts) ++ ":" ++
                 sprint_02d (GoTime.Minute ts) ++ "z") Hda) as [_ ->].
    change (GoUTF8.RuneCount (" " ++ ?s)) with (S (GoUTF8.RuneCount s)).
    destruct (runes_ascii_app (first_bytes 3 (GoTime.MonthString (GoTime.Month ts)))
                (" " ++ middot ++ " " ++ sprint_02d (GoTime.Hour ts) ++ ":" ++
                 sprint_02d (GoTime.Minute ts) ++ "z") Hma) as [_ ->].
    change (GoUTF8.RuneCount (" " ++ middot ++ " " ++ ?s)) with (S (S (S (GoUTF8.RuneCount s)))).
    destruct (runes_ascii_app (sprint_02d (GoTime.Hour ts))
                (":" ++ sprint_02d (GoTime.Minute ts) ++ "z") Hha) as [_ ->].
    change (GoUTF8.RuneCount (":" ++ ?s)) with (S (GoUTF8.RuneCount s)).
    destruct (runes_ascii_app (sprint_02d (GoTime.Minute ts)) "z" Hmia) as [_ ->].
    change (GoUTF8.RuneCount "z") with 1%nat. rewrite Hml, Hhl, Hmil.
    revert Hdl. destruct (Z.ltb_spec (GoTime.Day ts) 10) as [Hlt|Hge].
    + assert ((10 <=? GoTime.Day ts)%Z = false) as -> by (apply Z.leb_gt; lia).
      rewrite andb_true_l, andb_false_l, orb_false_r. intros ->%Nat.eqb_eq. reflexivity.
    + assert ((10 <=? GoTime.Day ts)%Z = true) as -> by (apply Z.leb_le; lia).
      rewrite andb_true_l, andb_false_l, orb_false_l. intros ->%Nat.eqb_eq. reflexivity. }
  split; [by intros ->|]. split; [done|].
  destruct (Z.eq_dec ts 0) as [->|Hne]; [vm_compute; lia|].
  rewrite (Hother Hne). destruct (GoTime.Day ts <? 10)%Z; lia.
Qed.

Lemma monitorFormatTime_width_witness :
  GoUTF8.RuneCount (monitorFormatTime 1772073660) = 15%nat /\
  GoUTF8.RuneCount (monitorFormatTime 1) = 14%nat.
Proof.
  destruct (monitorFormatTime_width 1772073660) as (_ & H1 & _).
  destruct (monitorFormatTime_width 1) as (_ & H2 & _).
  split; [apply H1|apply H2]; lia.
Defined.

(* ===================================================================== *)
(** * Calls made for the channel description *)
(* ===================================================================== *)

(** X12.  With no main chat or no bot token configured a pass makes no
    call at all.  Otherwise it makes one [getChat] and after it at most one
    [setChatDescription], which is only made when [getChat] succeeded and
    carries the description with its first [$] replaced; earlier calls stay
    as they were.  The description changes only when that second call is
    made and succeeds. *)
Theorem description_calls (monitorMainChatID : Z) (tgBotToken : string)
    (formatUSD : float64 -> string) (getOk setOk : bool) (total : float64)
    (tg : Telegram) :
  let tg' := updateMainChatDescription monitorMainChatID tgBotToken formatUSD
               getOk setOk total tg in
  let newDesc := ReplaceFirst (tg_description tg) "$" (formatUSD total) in
  (monitorMainChatID = 0 \/ tgBotToken = "" -> tg' = tg) /\
  (monitorMainChatID <> 0 -> tgBotToken <> "" ->
   tg_calls tg' = (tg_calls tg ++ [GetChat monitorMainChatID])%list \/
   getOk = true /\
   tg_calls tg' = (tg_calls tg ++ [GetChat monitorMainChatID;
                                   SetChatDescription monitorMainChatID newDesc])%list) /\
  (tg_description tg' <> tg_description tg ->
   getOk = true /\ setOk = true /\ tg_description tg' = newDesc /\
   last (tg_calls tg') = Some (SetChatDescription monitorMainChatID newDesc)).
Proof.
  intros tg' newDesc. subst tg'. unfold updateMainChatDescription.
  split; [|split].
  - intros [-> | ->]; [done|]. by rewrite orb_true_r.
  - intros Hid%Z.eqb_neq Htok%String.eqb_neq. rewrite Hid, Htok. simpl.
    destruct getOk; simpl; [|by left].
    destruct (String.eqb (tg_description tg) ""); [by left|].
    destruct (Contains (tg_description tg) "$"); simpl; [|by left].
    right. split; [done|]. destruct setOk; simpl; by rewrite <- app_assoc.
  - destruct ((monitorMainChatID =? 0)%Z || String.eqb tgBotToken ""); [done|].
    destruct getOk; simpl; [|done].
    destruct (String.eqb (tg_description tg) ""); [done|].
    destruct (Contains (tg_description tg) "$"); simpl; [|done].
    destruct setOk; simpl; [|done].
    intros _. repeat split; try done. by rewrite last_snoc.
Qed.

Lemma description_calls_witness :
  let off := updateMainChatDescription 0 "token" formatBare true true fzero in
  let on := updateMainChatDescription 7 "token" formatBare true true fzero in
  let tg := {| tg_description := "Total profit: $"; tg_calls := [] |} in
  off tg = tg /\
  tg_calls (on tg) = [GetChat 7; SetChatDescription 7 "Total profit: 24,210"].
Proof.
  intros off on tg.
  destruct (description_calls 0 "token" formatBare true true fzero tg) as (Hoff & _ & _).
  destruct (description_calls 7 "token" formatBare true true fzero tg) as (_ & Hon & _).
  split; [apply Hoff; by left|].
  destruct Hon as [H|[_ H]]; [done|done| |exact H].
  vm_compute in H. discriminate.
Defined.
(* ===================================================================== *)
(** * Properties of the caller's address *)
(* ===================================================================== *)

Lemma TrimRight_idem s : TrimRight (TrimRight s) = TrimRight s.
Proof.
  induction s as [|c s IH]; [done|]. cbn [TrimRight].
  destruct (TrimRight s) as [|d t] eqn:Ht.
  - destruct (is_space c) eqn:Hc; [done|]. cbn [TrimRight]. by rewrite Hc.
  - cbn [TrimRight]. cbn [TrimRight] in IH. by rewrite IH.
Qed.

Lemma TrimLeft_head s :
  match TrimLeft s with String c _ => is_space c = false | EmptyString => True end.
Proof.
  induction s as [|c s IH]; [done|]. cbn [TrimLeft].
  by destruct (is_space c) eqn:Hc.
Qed.

Lemma TrimRight_head s :
  match s with String c _ => is_space c = false | EmptyString => True end ->
  TrimLeft (TrimRight s) = TrimRight s.
Proof.
  destruct s as [|c s]; [done|]. intros Hc. cbn [TrimRight].
  destruct (TrimRight s); [rewrite Hc|]; cbn [TrimLeft]; by rewrite Hc.
Qed.

Lemma TrimSpace_idem s : TrimSpace (TrimSpace s) = TrimSpace s.
Proof.
  unfold TrimSpace. rewrite (TrimRight_head _ (TrimLeft_head s)). apply TrimRight_idem.
Qed.

Lemma has_byte_TrimLeft c s : has_byte c s = false -> has_byte c (TrimLeft s) = false.
Proof.
  induction s as [|a s IH]; [done|]. cbn [TrimLeft]. destruct (is_space a); [|done].
  cbn [has_byte]. intros [_ H]%orb_false_iff. by apply IH.
Qed.

Lemma has_byte_TrimRight c s : has_byte c s = false -> has_byte c (TrimRight s) = false.
Proof.
  induction s as [|a s IH]; [done|]. cbn [has_byte TrimRight].
  intros [Ha H]%orb_false_iff. specialize (IH H).
  destruct (TrimRight s) as [|d t].
  - destruct (is_space a); [done|]. cbn [has_byte]. by rewrite Ha.
  - cbn [has_byte] in *. by rewrite Ha, IH.
Qed.

Lemma has_byte_before_first c s : has_byte c (before_first c s) = false.
Proof.
  unfold before_first. destruct (cut c s) as [[l r]|] eqn:Hc.
  - by apply cut_Some in Hc as [_ Hl].
  - by apply cut_None.
Qed.

Lemma TrimSpace_blank s : all_bytes is_space s = true -> TrimSpace s = "".
Proof. intros H. unfold TrimSpace. by rewrite (TrimLeft_blank s H). Qed.

(** X13.  A forwarding header that is not empty decides alone: the address
    is its first comma-separated element with the white space around it
    removed, whatever the connection's own address is.  It holds no comma
    and no white space at either end, and it is empty when that first
    element is blank.  The header is taken to be ASCII, for which the white
    space removed here is the one Go removes. *)
Theorem clientIP_forwarded (xff remoteAddr : string) :
  all_bytes is_ascii_byte xff = true ->
  xff <> "" ->
  clientIP xff remoteAddr = TrimSpace (before_first "," xff) /\
  has_byte "," (clientIP xff remoteAddr) = false /\
  TrimSpace (clientIP xff remoteAddr) = clientIP xff remoteAddr /\
  (all_bytes is_space (before_first "," xff) = true -> clientIP xff remoteAddr = "").
Proof.
  intros _ Hx%String.eqb_neq.
  assert (clientIP xff remoteAddr = TrimSpace (before_first "," xff)) as ->.
  { unfold clientIP. rewrite Hx. cbn [negb]. rewrite SplitN_2. unfold before_first.
    by destruct (cut "," xff) as [[l r]|]. }
  split; [done|]. split; [|split].
  - unfold TrimSpace. apply has_byte_TrimRight, has_byte_TrimLeft, has_byte_before_first.
  - apply TrimSpace_idem.
  - apply TrimSpace_blank.
Qed.

Lemma clientIP_forwarded_witness :
  clientIP " 203.0.113.7 , 10.0.0.1" "10.0.0.9:443" = "203.0.113.7" /\
  clientIP " ,203.0.113.7" "10.0.0.9:443" = "".
Proof.
  split.
  - by destruct (clientIP_forwarded " 203.0.113.7 , 10.0.0.1" "10.0.0.9:443" eq_refl)
      as (-> & _).
  - by apply (clientIP_forwarded " ,203.0.113.7" "10.0.0.9:443" eq_refl).
Defined.

Lemma LastIndex_absent c s : has_byte c s = false -> LastIndex s c = -1.
Proof.
  induction s as [|a s IH]; [done|]. cbn [has_byte LastIndex].
  intros [Ha H]%orb_false_iff. by rewrite (IH H), Ha.
Qed.

Lemma LastIndex_range c s : -1 <= LastIndex s c.
Proof.
  induction s as [|a s IH]; cbn [LastIndex]; [lia|].
  destruct (Z.leb_spec 0 (LastIndex s c)); [lia|]. destruct (Ascii.eqb a c); lia.
Qed.

Lemma LastIndex_last c host port :
  has_byte c port = false ->
  LastIndex (host ++ String c port) c = Z.of_nat (String.length host).
Proof.
  intros Hp. induction host as [|a host IH].
  - change ("" ++ String c port)%string with (String c port).
    cbn [LastIndex String.length]. by rewrite (LastIndex_absent c port Hp), Ascii.eqb_refl.
  - change (String a host ++ String c port) with (String a (host ++ String c port)).
    cbn [LastIndex String.length]. rewrite IH.
    destruct (Z.leb_spec 0 (Z.of_nat (String.length host))); lia.
Qed.

Lemma first_bytes_app s t : first_bytes (String.length s) (s ++ t) = s.
Proof.
  unfold first_bytes. induction s as [|a s IH].
  - cbn. by destruct t.
  - change (String a s ++ t)%string with (String a (s ++ t)).
    cbn [String.length String.substring]. by rewrite IH.
Qed.

(** X14.  Without a forwarding header the address is the connection's own
    with its port cut off at the last colon: [host:port] gives [host] when
    the host is not empty, also for a bracketed host that holds colons
    itself.  An address without a colon, or with its only colon in front,
    is returned as it is. *)
Theorem clientIP_remote (host port : string) :
  has_byte ":" port = false ->
  (host <> "" -> clientIP "" (host ++ String ":" port) = host) /\
  clientIP "" (String ":" port) = String ":" port /\
  clientIP "" port = port.
Proof.
  intros Hp. unfold clientIP. cbn [String.eqb negb]. split; [|split].
  - intros Hh. rewrite (LastIndex_last ":" host port Hp).
    destruct host as [|a host]; [done|]. cbn [String.length].
    destruct (Z.ltb_spec 0 (Z.of_nat (S (String.length host)))); [|lia].
    rewrite Nat2Z.id. apply (first_bytes_app (String a host)).
  - pose proof (LastIndex_last ":" "" port Hp) as H.
    change ("" ++ String ":" port)%string with (String ":" port) in H. by rewrite H.
  - by rewrite (LastIndex_absent ":" port Hp).
Qed.

Lemma clientIP_remote_witness :
  clientIP "" "198.51.100.4:55012" = "198.51.100.4" /\
  clientIP "" "[2001:db8::1]:443" = "[2001:db8::1]".
Proof.
  split.
  - by apply (clientIP_remote "198.51.100.4" "55012").
  - by apply (clientIP_remote "[2001:db8::1]" "443").
Defined.

(* ===================================================================== *)
(** * Properties of the currency search *)
(* ===================================================================== *)

Lemma prefix_app p s : String.prefix p s = true <-> exists r, s = p ++ r.
Proof.
  revert s. induction p as [|a p IH]; intros s.
  - split; [by exists s|]. by destruct s.
  - destruct s as [|b s]; cbn [String.prefix].
    + split; [discriminate|]. by intros [r Hr].
    + destruct (ascii_dec a b) as [->|Hne].
      * rewrite IH. split; intros [r Hr]; exists r.
        -- by rewrite Hr.
        -- by injection Hr.
      * split; [discriminate|]. intros [r Hr]. injection Hr as -> _. done.
Qed.

Lemma append_assoc (a b c : string) : (a ++ b) ++ c = a ++ b ++ c.
Proof.
  induction a as [|x a IH]; [done|].
  change ((String x a ++ b) ++ c) with (String x ((a ++ b) ++ c)).
  change (String x a ++ b ++ c) with (String x (a ++ b ++ c)). by rewrite IH.
Qed.

Lemma Contains_app s sub : Contains s sub = true <-> exists l r, s = l ++ sub ++ r.
Proof.
  induction s as [|a s IH]; cbn [Contains]; unfold HasPrefix.
  - rewrite orb_false_r, prefix_app. split.
    + intros [r Hr]. by exists "", r.
    + intros (l & r & H). destruct l; [by exists r|done].
  - rewrite orb_true_iff, prefix_app, IH. split.
    + intros [[r Hr]|(l & r & ->)]; [by exists "", r|]. by exists (String a l), r.
    + intros (l & r & H). destruct l as [|b l].
      * left. by exists r.
      * right. injection H as _ ->. by exists l, r.
Qed.

Lemma Contains_trans s mid sub :
  Contains s mid = true -> Contains mid sub = true -> Contains s sub = true.
Proof.
  rewrite !Contains_app. intros (l & r & ->) (l' & r' & ->).
  exists (l ++ l'), (r' ++ r). by rewrite !append_assoc.
Qed.

Lemma append_empty (s : string) : s ++ "" = s.
Proof.
  induction s as [|x s IH]; [done|].
  change (String x s ++ "") with (String x (s ++ "")). by rewrite IH.
Qed.

Lemma Contains_refl s : Contains s s = true.
Proof. apply Contains_app. exists "", "". cbn. by rewrite append_empty. Qed.

Lemma Contains_empty s : Contains s "" = true.
Proof. destruct s; cbn [Contains]; unfold HasPrefix; by destruct s || done. Qed.

Section NetworkFacts.

Local Close Scope string_scope.

Variable token : Type.
Variable tokenTicker : token -> string.
Variable tokenName : token -> string.


Lemma filter_narrow (p p' : token -> bool) l :
  (forall t, p' t = true -> p t = true) ->
  List.filter p' (List.filter p l) = List.filter p' l.
Proof.
  intros Hpp. induction l as [|t l IH]; [done|]. cbn [List.filter].
  destruct (p t) eqn:Hp; cbn [List.filter]; [by rewrite IH|].
  destruct (p' t) eqn:Hp'; [|done]. by rewrite (Hpp t Hp') in Hp.
Qed.

Lemma tokenMatches_narrow q q' ng t :
  Contains q' q = true -> tokenMatches tokenTicker tokenName q' ng t = true -> tokenMatches tokenTicker tokenName q ng t = true.
Proof.
  intros Hq. unfold tokenMatches. rewrite !orb_true_iff.
  intros [[H|H]|H]; [left; left|left; right|right]; by apply (Contains_trans _ q').
Qed.

Lemma filterGroups_narrow q q' networks :
  Contains q' q = true -> filterGroups tokenTicker tokenName q' (filterGroups tokenTicker tokenName q networks) = filterGroups tokenTicker tokenName q' networks.
Proof.
  intros Hq. induction networks as [|ng rest IH]; [done|]. cbn [filterGroups].
  pose proof (filter_narrow (tokenMatches tokenTicker tokenName q ng) (tokenMatches tokenTicker tokenName q' ng) (ng_Tokens ng)
                (fun t => tokenMatches_narrow q q' ng t Hq)) as Hn.
  destruct (List.filter (tokenMatches tokenTicker tokenName q ng) (ng_Tokens ng)) as [|t ts] eqn:Hf.
  - cbn in Hn |- *. by rewrite <- Hn.
  - cbn [length Nat.ltb Nat.leb filterGroups ng_Name ng_Tokens].
    change (tokenMatches tokenTicker tokenName q' {| ng_Name := ng_Name ng; ng_Tokens := t :: ts |})
      with (tokenMatches tokenTicker tokenName q' ng).
    by rewrite Hn, IH.
Qed.

(** X15.  Searching within the result of a search gives what searching
    the whole list gives, as soon as the later query contains the earlier
    one (letter case apart): typing on narrows the result and never
    depends on the steps before.  In particular a search applied twice
    changes nothing. *)
Theorem filterNetworks_narrowing (networks : list (NetworkGroup token))
    (query query' : string) :
  Contains (ToLower query') (ToLower query) = true ->
  filterNetworks tokenTicker tokenName
    (filterNetworks tokenTicker tokenName networks query) query' =
  filterNetworks tokenTicker tokenName networks query' /\
  filterNetworks tokenTicker tokenName
    (filterNetworks tokenTicker tokenName networks query) query =
  filterNetworks tokenTicker tokenName networks query.
Proof.
  intros Hq. unfold filterNetworks. split.
  - by apply filterGroups_narrow.
  - apply filterGroups_narrow, Contains_refl.
Qed.

Lemma filter_all (p : token -> bool) l :
  (forall t, p t = true) -> List.filter p l = l.
Proof.
  intros Hp. induction l as [|t l IH]; [done|]. cbn [List.filter]. by rewrite Hp, IH.
Qed.

(** X16.  The result of a search never holds a group without tokens, and
    every group in it comes from a group of the same name.  A group whose
    own name contains the query (letter case apart) is kept with all its
    tokens at its place at the head, and the empty query keeps every token:
    it drops nothing but the groups that were empty already. *)
Theorem filterNetworks_groups (networks : list (NetworkGroup token)) (query : string) :
  Forall (fun g => ng_Tokens g <> [] /\
                   exists ng, ng ∈ networks /\ ng_Name g = ng_Name ng /\
                     ng_Tokens g = List.filter (tokenMatches tokenTicker tokenName (ToLower query) ng) (ng_Tokens ng))
    (filterNetworks tokenTicker tokenName networks query) /\
  (forall ng rest, networks = ng :: rest -> ng_Tokens ng <> [] ->
     Contains (ToLower (ng_Name ng)) (ToLower query) = true ->
     filterNetworks tokenTicker tokenName networks query =
       ng :: filterNetworks tokenTicker tokenName rest query) /\
  filterNetworks tokenTicker tokenName networks EmptyString =
    List.filter (fun ng => (0 <? length (ng_Tokens ng))%nat) networks.
Proof.
  unfold filterNetworks. split; [|split].
  - induction networks as [|ng rest IH]; cbn [filterGroups]; [constructor|].
    assert (Forall (fun g => ng_Tokens g <> [] /\
                exists ng0, ng0 ∈ ng :: rest /\ ng_Name g = ng_Name ng0 /\
                  ng_Tokens g = List.filter (tokenMatches tokenTicker tokenName (ToLower query) ng0) (ng_Tokens ng0))
              (filterGroups tokenTicker tokenName (ToLower query) rest)) as Hrest.
    { eapply Forall_impl; [exact IH|]. intros g (Hg & ng0 & Hin & Hn & Ht).
      split; [done|]. exists ng0. split; [by apply list_elem_of_further|done]. }
    destruct (List.filter (tokenMatches tokenTicker tokenName (ToLower query) ng) (ng_Tokens ng)) as [|t ts] eqn:Hf;
      cbn [length Nat.ltb Nat.leb]; [done|].
    constructor; [|done]. split; [done|]. exists ng.
    split; [apply list_elem_of_here|]. split; [done|]. by rewrite Hf.
  - intros ng rest -> Hne Hc. cbn [filterGroups].
    rewrite (filter_all (tokenMatches tokenTicker tokenName (ToLower query) ng)).
    + destruct ng as [name [|t ts]]; [done|]. reflexivity.
    + intros t. unfold tokenMatches. cbn [ng_Name] in Hc. by rewrite Hc, orb_true_r.
  - change (ToLower EmptyString) with EmptyString.
    induction networks as [|ng rest IH]; [done|]. cbn [filterGroups List.filter].
    rewrite (filter_all (tokenMatches tokenTicker tokenName EmptyString ng)).
    + rewrite IH. destruct ng as [name [|t ts]]; reflexivity.
    + intros t. unfold tokenMatches. by rewrite !Contains_empty.
Qed.

End NetworkFacts.

Lemma filterNetworks_narrowing_witness :
  let networks := [ {| ng_Name := "Ethereum"; ng_Tokens := ["ETH"; "USDT"] |};
                    {| ng_Name := "TRON"; ng_Tokens := ["TRX"; "USDT"] |} ]%string in
  filterNetworks id id (filterNetworks id id networks "us") "USD" =
    [ {| ng_Name := "Ethereum"; ng_Tokens := ["USDT"] |};
      {| ng_Name := "TRON"; ng_Tokens := ["USDT"] |} ]%string.
Proof.
  intros networks.
  destruct (filterNetworks_narrowing string id id networks "us" "USD" eq_refl) as [-> _].
  reflexivity.
Defined.
(* ===================================================================== *)
(** * Properties of the subscriber store *)
(* ===================================================================== *)

(** ** Lines, numbers and hashes *)

Lemma is_plain_byte c a : is_plain a = true -> is_space c = true -> Ascii.eqb a c = false.
Proof.
  unfold is_plain. intros Ha Hc. apply Ascii.eqb_neq. intros ->. by rewrite Hc in Ha.
Qed.

Lemma plain_has_byte c s :
  all_bytes is_plain s = true -> is_space c = true -> has_byte c s = false.
Proof.
  intros Hs Hc. induction s as [|a s IH]; [done|]. cbn [all_bytes has_byte] in *.
  apply andb_true_iff in Hs as [Ha Hs]. by rewrite (is_plain_byte c a Ha Hc), (IH Hs).
Qed.

Lemma plain_dropCR s : all_bytes is_plain s = true -> GoBufio.dropCR s = s.
Proof.
  induction s as [|a s IH]; [done|]. cbn [all_bytes]. intros [Ha Hs]%andb_true_iff.
  destruct s as [|b s].
  - cbn [GoBufio.dropCR]. by rewrite (is_plain_byte carriage_return a Ha eq_refl).
  - change (GoBufio.dropCR (String a (String b s)))
      with (String a (GoBufio.dropCR (String b s))).
    by rewrite (IH Hs).
Qed.

Lemma plain_TrimLeft s : all_bytes is_plain s = true -> TrimLeft s = s.
Proof.
  destruct s as [|a s]; [done|]. cbn [all_bytes TrimLeft]. unfold is_plain.
  intros [Ha _]%andb_true_iff. by destruct (is_space a).
Qed.

Lemma plain_TrimRight s : all_bytes is_plain s = true -> TrimRight s = s.
Proof.
  induction s as [|a s IH]; [done|]. cbn [all_bytes TrimRight]. unfold is_plain at 1.
  intros [Ha Hs]%andb_true_iff. rewrite (IH Hs). destruct s; [|done].
  by destruct (is_space a).
Qed.

Lemma plain_TrimSpace s : all_bytes is_plain s = true -> TrimSpace s = s.
Proof. intros Hs. unfold TrimSpace. by rewrite (plain_TrimLeft s Hs), plain_TrimRight. Qed.

Lemma fileLine_app l rest : fileLine l ++ rest = l ++ String newline rest.
Proof. unfold fileLine. by rewrite append_assoc. Qed.

Lemma scan_line cur l rest :
  has_byte newline l = false -> GoBufio.fits (cur ++ l) = true ->
  GoBufio.scan cur (l ++ String newline rest) =
    GoBufio.dropCR (cur ++ l) :: GoBufio.scan "" rest.
Proof.
  revert cur. induction l as [|c l IH]; intros cur Hnl Hfit.
  - change ("" ++ String newline rest) with (String newline rest).
    rewrite append_empty in *. cbn [GoBufio.scan]. by rewrite Ascii.eqb_refl, Hfit.
  - change (String c l ++ String newline rest) with (String c (l ++ String newline rest)).
    cbn [GoBufio.scan has_byte] in *. apply orb_false_iff in Hnl as [Hc Hnl].
    rewrite Hc.
    assert (cur ++ String c l = (cur ++ String c "") ++ l) as Heq
      by (by rewrite append_assoc).
    rewrite Heq in *. by apply IH.
Qed.

Lemma Lines_unlines ls : Forall plain_line ls -> GoBufio.Lines (unlines ls) = ls.
Proof.
  unfold GoBufio.Lines. induction 1 as [|l ls [Hl Hfit] _ IH]; [done|].
  cbn [unlines]. rewrite fileLine_app, scan_line, IH; try done.
  - change ("" ++ l) with l. by rewrite plain_dropCR.
  - by apply plain_has_byte.
Qed.

Lemma uint_text_plain d : all_bytes is_plain (NilEmpty.string_of_uint d) = true.
Proof. induction d; cbn [NilEmpty.string_of_uint all_bytes]; by rewrite ?IHd. Qed.

Lemma uint_text_length d : String.length (NilEmpty.string_of_uint d) = Decimal.nb_digits d.
Proof. induction d; cbn [NilEmpty.string_of_uint String.length Decimal.nb_digits]; by rewrite ?IHd. Qed.

Lemma double_digits d :
  (Decimal.nb_digits (Decimal.Little.double d) <= S (Decimal.nb_digits d))%nat /\
  (Decimal.nb_digits (Decimal.Little.succ_double d) <= S (Decimal.nb_digits d))%nat.
Proof. induction d as [|d [IH1 IH2]|d [IH1 IH2]|d [IH1 IH2]|d [IH1 IH2]|d [IH1 IH2]
                        |d [IH1 IH2]|d [IH1 IH2]|d [IH1 IH2]|d [IH1 IH2]|d [IH1 IH2]];
  cbn [Decimal.Little.double Decimal.Little.succ_double Decimal.nb_digits]; lia.
Qed.

Lemma to_uint_digits p : (Decimal.nb_digits (Pos.to_uint p) <= Pos.size_nat p)%nat.
Proof.
  unfold Pos.to_uint. rewrite DecimalFacts.nb_digits_rev.
  induction p as [p IH|p IH|]; cbn [Pos.to_little_uint Pos.size_nat].
  - pose proof (double_digits (Pos.to_little_uint p)). lia.
  - pose proof (double_digits (Pos.to_little_uint p)). lia.
  - cbn. lia.
Qed.

Lemma size_nat_bound n p : (Z.pos p < 2 ^ Z.of_nat n)%Z -> (Pos.size_nat p <= n)%nat.
Proof.
  revert p. induction n as [|n IH]; intros p Hp.
  - cbn in Hp. lia.
  - rewrite Nat2Z.inj_succ, Z.pow_succ_r in Hp by lia.
    destruct p as [p|p|]; cbn [Pos.size_nat]; [| |lia]; apply le_n_S, IH; lia.
Qed.

Lemma uint_text_nonempty p : Pos.to_uint p <> Decimal.Nil.
Proof. apply DecimalPos.Unsigned.to_uint_nonnil. Qed.

Lemma sprint_d_plain z : all_bytes is_plain (sprint_d z) = true.
Proof.
  unfold sprint_d. destruct z as [|p|p]; cbn [Z.to_int NilZero.string_of_int]; [done| |].
  - unfold NilZero.string_of_uint. destruct (Pos.to_uint p); try done; apply uint_text_plain.
  - cbn [all_bytes]. unfold NilZero.string_of_uint.
    destruct (Pos.to_uint p); try done; apply uint_text_plain.
Qed.

Lemma sprint_d_length z :
  in_int z -> (String.length (sprint_d z) <= 65)%nat.
Proof.
  intros [Hlo Hhi]. unfold int_min, int_max in *.
  assert (forall p, (Z.pos p < 2 ^ Z.of_nat 64)%Z ->
            (String.length (NilZero.string_of_uint (Pos.to_uint p)) <= 64)%nat) as Hp.
  { intros p Hp. pose proof (to_uint_digits p). pose proof (size_nat_bound 64 p Hp).
    pose proof (uint_text_length (Pos.to_uint p)) as Hlen.
    unfold NilZero.string_of_uint.
    destruct (Pos.to_uint p) eqn:E; [by apply uint_text_nonempty in E|..]; lia. }
  unfold sprint_d. destruct z as [|p|p]; cbn [Z.to_int NilZero.string_of_int String.length].
  - cbn. lia.
  - specialize (Hp p). lia.
  - specialize (Hp p). lia.
Qed.

Lemma sprint_d_line z : in_int z -> plain_line (sprint_d z).
Proof.
  intros Hz. split; [apply sprint_d_plain|]. unfold GoBufio.fits, GoBufio.MaxScanTokenSize.
  pose proof (sprint_d_length z Hz). apply Z.ltb_lt. lia.
Qed.

Lemma uint_text_head d c s :
  NilZero.string_of_uint d = String c s ->
  Ascii.eqb c "+" = false /\ Ascii.eqb c "-" = false.
Proof.
  unfold NilZero.string_of_uint.
  destruct d; cbn [NilEmpty.string_of_uint]; intros [= <- _]; done.
Qed.

Lemma ParseInt_sprint_d z : in_int z -> GoStrconv.ParseInt (sprint_d z) = Some z.
Proof.
  intros [Hlo Hhi].
  assert (forall v, v = z ->
            (if (int_min <=? v)%Z && (v <=? int_max)%Z then Some v else None) = Some z) as Hrange.
  { intros v ->. destruct (Z.leb_spec int_min z); [|lia].
    destruct (Z.leb_spec z int_max); [done|lia]. }
  pose proof (DecimalZ.of_to z) as Hz. unfold sprint_d.
  destruct (Z.to_int z) as [d|d] eqn:Hd; cbn [NilZero.string_of_int Z.of_int] in *.
  - assert (d <> Decimal.Nil) as Hnil.
    { destruct z; cbn [Z.to_int] in Hd; try discriminate; injection Hd as <-;
        [done|apply uint_text_nonempty]. }
    pose proof (NilZero.usu d Hnil) as Hu.
    destruct (NilZero.string_of_uint d) as [|c s] eqn:Hs; [done|].
    destruct (uint_text_head d c s Hs) as [Hplus Hminus].
    unfold GoStrconv.ParseInt. rewrite Hplus, Hminus. cbn [orb]. rewrite Hu.
    by apply Hrange.
  - assert (d <> Decimal.Nil) as Hnil.
    { destruct z; cbn [Z.to_int] in Hd; try discriminate. injection Hd as <-.
      apply uint_text_nonempty. }
    pose proof (NilZero.usu d Hnil) as Hu.
    unfold GoStrconv.ParseInt. cbn [Ascii.eqb Bool.eqb orb andb]. rewrite Hu.
    by apply Hrange.
Qed.

Lemma be_bytes_length n z : length (GoSHA256.be_bytes n z) = n.
Proof.
  revert z. induction n as [|n IH]; intros z; [done|].
  cbn [GoSHA256.be_bytes]. rewrite length_app, IH. cbn. lia.
Qed.

Lemma be_bytes_range n z : Forall (fun b => 0 <= b < 256)%Z (GoSHA256.be_bytes n z).
Proof.
  revert z. induction n as [|n IH]; intros z; cbn [GoSHA256.be_bytes]; [constructor|].
  apply Forall_app. split; [apply IH|]. constructor; [|constructor].
  apply Z.mod_pos_bound. lia.
Qed.

Lemma lower_hex_digit_hex n : (0 <= n < 16)%Z -> is_lower_hex (lower_hex_digit n) = true.
Proof.
  intros Hn.
  apply (holds_from_spec (fun i => is_lower_hex (lower_hex_digit i)) 16 0 n); [reflexivity|].
  cbn. lia.
Qed.

Lemma EncodeToString_hex bytes :
  Forall (fun b => 0 <= b < 256)%Z bytes ->
  all_bytes is_lower_hex (EncodeToString bytes) = true /\
  String.length (EncodeToString bytes) = (2 * length bytes)%nat.
Proof.
  induction 1 as [|b bytes Hb _ [IH1 IH2]]; [done|].
  cbn [EncodeToString all_bytes String.length length].
  rewrite !lower_hex_digit_hex, IH1, IH2.
  - split; [done|lia].
  - apply Z.mod_pos_bound. lia.
  - split; [apply Z.div_pos; lia|]. apply Z.div_lt_upper_bound; lia.
Qed.

Lemma hashChatID_line chatID : hash_line (hashChatID chatID).
Proof.
  unfold hash_line, hashChatID, GoSHA256.Sum256.
  set (d := GoSHA256.blocks _ _ _).
  destruct (EncodeToString_hex (GoSHA256.sum_bytes d)) as [Hhex Hlen].
  - unfold GoSHA256.sum_bytes. rewrite !Forall_app. repeat split; apply be_bytes_range.
  - split; [done|]. rewrite Hlen. unfold GoSHA256.sum_bytes.
    by rewrite !length_app, !be_bytes_length.
Qed.

(** X17.  The hash of a chat ID is 64 lowercase hexadecimal digits,
    whatever the chat ID. *)
Theorem hashChatID_format (chatID : Z) :
  String.length (hashChatID chatID) = 64%nat /\
  all_bytes is_lower_hex (hashChatID chatID) = true.
Proof. destruct (hashChatID_line chatID). by split. Qed.

(** ** What the files hold *)

Lemma lower_hex_plain c : implb (is_lower_hex c) (is_plain c) = true.
Proof. each_byte c. Qed.

Lemma all_bytes_impl (p q : ascii -> bool) s :
  (forall c, implb (p c) (q c) = true) -> all_bytes p s = true -> all_bytes q s = true.
Proof.
  intros Hpq. induction s as [|c s IH]; [done|]. cbn [all_bytes].
  intros [Hc Hs]%andb_true_iff. specialize (Hpq c). rewrite Hc in Hpq.
  cbn in Hpq. by rewrite Hpq, IH.
Qed.

Lemma hash_line_plain h : hash_line h -> plain_line h /\ h <> "".
Proof.
  intros [Hhex Hlen]. split; [split|].
  - exact (all_bytes_impl is_lower_hex is_plain h lower_hex_plain Hhex).
  - unfold GoBufio.fits. by rewrite Hlen.
  - intros ->. discriminate.
Qed.

Lemma unlines_app ls ls' : unlines (ls ++ ls')%list = unlines ls ++ unlines ls'.
Proof.
  induction ls as [|l ls IH]; [done|]. cbn [unlines app]. change (l :: ls ++ ls')%list
    with (l :: (ls ++ ls'))%list. cbn [unlines]. by rewrite IH, append_assoc.
Qed.

Lemma file_holds_append file ls l :
  file_holds file ls ->
  file_holds (Subscribers.appendTo file (fileLine l)) (ls ++ [l])%list.
Proof.
  intros [[-> ->]| ->]; right; unfold Subscribers.appendTo; cbn [default app unlines].
  - by rewrite append_empty.
  - by rewrite unlines_app; cbn [unlines]; rewrite append_empty.
Qed.

Section StoreFacts.

Import Subscribers.

Local Close Scope string_scope.

Lemma loadIDs_lines zs acc :
  Forall in_int zs -> loadIDs (map sprint_d zs) acc = list_to_set zs ∪ acc.
Proof.
  revert acc. induction zs as [|z zs IH]; intros acc Hzs; cbn [map loadIDs list_to_set].
  - by rewrite (left_id_L ∅ (∪)).
  - apply Forall_cons_1 in Hzs as [Hz Hzs].
    rewrite (plain_TrimSpace _ (sprint_d_plain z)), (ParseInt_sprint_d z Hz), (IH _ Hzs).
    by rewrite (assoc_L (∪)), (comm_L (∪) (list_to_set zs)).
Qed.

Lemma loadHashes_lines hs acc :
  Forall hash_line hs -> loadHashes hs acc = list_to_set hs ∪ acc.
Proof.
  revert acc. induction hs as [|h hs IH]; intros acc Hhs; cbn [loadHashes list_to_set].
  - by rewrite (left_id_L ∅ (∪)).
  - apply Forall_cons_1 in Hhs as [Hh Hhs].
    destruct (hash_line_plain h Hh) as [[Hp _] Hne].
    rewrite (plain_TrimSpace _ Hp). apply String.eqb_neq in Hne. rewrite Hne. cbn [negb].
    rewrite (IH _ Hhs). by rewrite (assoc_L (∪)), (comm_L (∪) (list_to_set hs)).
Qed.

Lemma kept_restart b zs hs :
  kept b zs hs ->
  subscribers (restart b) = {| ids := list_to_set zs; unsubs := list_to_set hs |}.
Proof.
  intros (Hz & Hh & Hzs & Hhs & _). unfold restart, load.
  cbn [subscribers disk ids unsubs]. f_equal.
  - destruct Hz as [[-> Hnil]| ->].
    + by destruct zs.
    + rewrite Lines_unlines, loadIDs_lines; [by rewrite (right_id_L ∅ (∪))|done|].
      apply Forall_fmap. eapply Forall_impl; [exact Hzs|]. apply sprint_d_line.
  - destruct Hh as [[-> ->]| ->]; [done|].
    rewrite Lines_unlines, loadHashes_lines; [by rewrite (right_id_L ∅ (∪))|done|].
    eapply Forall_impl; [exact Hhs|]. intros h Hl. by apply hash_line_plain.
Qed.

Lemma range_elem {A} `{Countable A} (l : list A) (s : gset A) x :
  l ≡ₚ elements s -> x ∈ l <-> x ∈ s.
Proof. intros ->. apply elem_of_elements. Qed.

Lemma range_set {A} `{Countable A} (l : list A) (s : gset A) :
  l ≡ₚ elements s -> list_to_set l = s.
Proof. intros Hl. apply set_eq. intros x. by rewrite elem_of_list_to_set, (range_elem l s). Qed.

Lemma range_Forall {A} `{Countable A} (P : A -> Prop) (l : list A) (s : gset A) :
  l ≡ₚ elements s -> set_Forall P s -> Forall P l.
Proof.
  intros Hl Hs. apply Forall_forall. intros x Hx. by apply Hs, (range_elem l s).
Qed.

Lemma set_Forall_insert {A} `{Countable A} (P : A -> Prop) x (X : gset A) :
  P x -> set_Forall P X -> set_Forall P ({[x]} ∪ X).
Proof. intros Hx HX. apply set_Forall_union; [by apply set_Forall_singleton|done]. Qed.

Lemma set_Forall_remove {A} `{Countable A} (P : A -> Prop) x (X : gset A) :
  set_Forall P X -> set_Forall P (X ∖ {[x]}).
Proof. intros HX z [Hz _]%elem_of_difference. by apply HX. Qed.

Lemma elem_insert {A} `{Countable A} x (X : gset A) : x ∈ {[x]} ∪ X.
Proof. apply elem_of_union. left. by apply elem_of_singleton. Qed.

Lemma list_to_set_snoc {A} `{Countable A} (l : list A) x :
  list_to_set (l ++ [x]) =@{gset A} {[x]} ∪ list_to_set l.
Proof.
  rewrite list_to_set_app_L. cbn [list_to_set].
  by rewrite (right_id_L ∅ (∪)), (comm_L (∪)).
Qed.

Lemma elem_snoc {A} (l : list A) x y : y ∈ l ++ [x] -> (y ∈ l) \/ y = x.
Proof. intros [Hy|Hy%list_elem_of_singleton]%elem_of_app; [by left|by right]. Qed.

Ltac kept_side :=
  first
    [ done
    | by left
    | by right
    | by rewrite map_app; apply file_holds_append
    | by apply file_holds_append
    | by rewrite Forall_app, Forall_singleton
    | by apply set_Forall_insert
    | by apply set_Forall_remove
    | by eapply range_Forall; [|apply set_Forall_remove]
    | by apply range_set
    | by intros [[=] _]
    | by intros [_ [=]]
    | by intros _ _; apply range_set
    | by intros _ <-; apply list_to_set_snoc
    | by intros ? [=]
    | by intros ? _ [=] ].

Lemma kept_step b o c zs hs :
  kept b zs hs -> fair_range o -> in_int (chat_of c) ->
  exists zs' hs',
    kept (step b (o, c)) zs' hs' /\
    (forall z, z ∈ zs' -> (z ∈ zs) \/ (z ∈ ids (subscribers (step b (o, c))))) /\
    (forall h, h ∈ hs -> h ∈ unsubs (subscribers (step b (o, c))) -> h ∈ hs') /\
    (io_ok o -> list_to_set zs = ids (subscribers b) ->
     list_to_set zs' = ids (subscribers (step b (o, c)))) /\
    (io_ok o -> list_to_set hs = unsubs (subscribers b) ->
     list_to_set hs' = unsubs (subscribers (step b (o, c)))) /\
    (forall chatID, c = Forget chatID -> createOk o = true ->
     (forall z, z ∈ zs' -> z ∈ ids (subscribers (step b (o, c)))) /\
     (appendOk o = true -> hashChatID chatID ∈ hs')).
Proof.
  intros Hk [Hri Hrh] Hc. pose proof Hk as (Hz & Hh & Hzs & Hhs & Hids & Hun).
  pose proof (hashChatID_line (chat_of c)) as Hhash.
  destruct c as [chatID|chatID|chatID]; cbn [chat_of] in *; unfold step; cbn [fst snd].
  - unfold track. case_bool_decide as Hin.
    { exists zs, hs. split; [done|]. split; [by left|]. split_and!; done. }
    case_bool_decide as Hblock.
    { exists zs, hs. split; [done|]. split; [by left|]. split_and!; done. }
    destruct (appendOk o) eqn:Ha; cbn [negb].
    + exists (zs ++ [chatID]), hs. unfold kept, io_ok.
      cbn [subscribers disk ids unsubs subscriberFile unsubscriberFile sent].
      split_and!; try kept_side.
      intros z [Hzz| ->]%elem_snoc; [by left|right; apply elem_insert].
    + exists zs, hs. unfold kept, io_ok. rewrite Ha.
      cbn [subscribers disk ids unsubs subscriberFile unsubscriberFile sent].
      split_and!; try kept_side.
  - unfold forget. destruct (createOk o) eqn:Hcr; cbn [negb].
    2:{ exists zs, hs. unfold kept, io_ok. rewrite Hcr.
        cbn [subscribers disk ids unsubs subscriberFile unsubscriberFile sent].
        split_and!; try kept_side. }
    destruct (appendOk o) eqn:Ha; cbn [negb].
    + exists (rangeIDs o (ids (subscribers b) ∖ {[chatID]})), (hs ++ [hashChatID chatID]).
      unfold kept, io_ok.
      cbn [subscribers disk ids unsubs subscriberFile unsubscriberFile sent].
      split_and!; try kept_side.
      * intros z Hzz. right. by apply (range_elem _ _ z (Hri _)) in Hzz.
      * intros h Hhh _. apply elem_of_app. by left.
      * intros ? [= <-] _. split.
        -- intros z Hzz. by apply (range_elem _ _ z (Hri _)) in Hzz.
        -- intros _. apply elem_of_app. right. by apply list_elem_of_singleton.
    + exists (rangeIDs o (ids (subscribers b) ∖ {[chatID]})), hs.
      unfold kept, io_ok. rewrite Ha.
      cbn [subscribers disk ids unsubs subscriberFile unsubscriberFile sent].
      split_and!; try kept_side.
      * intros z Hzz. right. by apply (range_elem _ _ z (Hri _)) in Hzz.
      * intros ? [= <-] _. split; [|done].
        intros z Hzz. by apply (range_elem _ _ z (Hri _)) in Hzz.
  - unfold resubscribe. destruct (createOk o) eqn:Hcr; cbn [negb].
    2:{ exists zs, hs. unfold kept, io_ok. rewrite Hcr.
        cbn [subscribers disk ids unsubs subscriberFile unsubscriberFile sent].
        split_and!; try kept_side. }
    case_bool_decide as Hin; cbn [negb].
    { exists zs, (rangeHashes o (unsubs (subscribers b) ∖ {[hashChatID chatID]})).
      unfold kept, io_ok.
      cbn [subscribers disk ids unsubs subscriberFile unsubscriberFile sent].
      split_and!; try kept_side.
      intros h _ Hhh. by apply (range_elem _ _ h (Hrh _)). }
    destruct (appendOk o) eqn:Ha; cbn [negb].
    + exists (zs ++ [chatID]), (rangeHashes o (unsubs (subscribers b) ∖ {[hashChatID chatID]})).
      unfold kept, io_ok.
      cbn [subscribers disk ids unsubs subscriberFile unsubscriberFile sent].
      split_and!; try kept_side.
      * intros z [Hzz| ->]%elem_snoc; [by left|right; apply elem_insert].
      * intros h _ Hhh. by apply (range_elem _ _ h (Hrh _)).
    + exists zs, (rangeHashes o (unsubs (subscribers b) ∖ {[hashChatID chatID]})).
      unfold kept, io_ok. rewrite Ha.
      cbn [subscribers disk ids unsubs subscriberFile unsubscriberFile sent].
      split_and!; try kept_side.
      intros h _ Hhh. by apply (range_elem _ _ h (Hrh _)).
Qed.

End StoreFacts.

Section StoreRuns.

Import Subscribers.

Local Close Scope string_scope.

Lemma kept_boot : kept boot [] [].
Proof. unfold kept, boot. cbn. split_and!; try done; by left. Qed.

Lemma run_snoc script oc b : run (script ++ [oc]) b = step (run script b) oc.
Proof. unfold run. by rewrite fold_left_app. Qed.

Lemma run_app script script' b : run (script ++ script') b = run script' (run script b).
Proof. unfold run. by rewrite fold_left_app. Qed.

Lemma kept_run script b zs hs :
  kept b zs hs -> Forall sound_call script ->
  exists zs' hs', kept (run script b) zs' hs'.
Proof.
  intros Hk Hs. revert b zs hs Hk.
  induction Hs as [|[o c] script [Hfair Hint] _ IH]; intros b zs hs Hk.
  - by exists zs, hs.
  - destruct (kept_step b o c zs hs Hk Hfair Hint) as (zs' & hs' & Hk' & _).
    by apply (IH _ zs' hs').
Qed.

(** ** What a call does to the maps and to the messages *)

Lemma sent_to_snoc chatID b other text (l : list (Z * string)) :
  sent b = l ->
  List.filter (fun m => (fst m =? chatID)%Z) (l ++ [(other, text)]) =
    if (other =? chatID)%Z then List.filter (fun m => (fst m =? chatID)%Z) l ++ [(other, text)]
    else List.filter (fun m => (fst m =? chatID)%Z) l.
Proof.
  intros _. rewrite List.filter_app. cbn [List.filter fst].
  destruct (other =? chatID)%Z; [done|]. by rewrite app_nil_r.
Qed.

Lemma track_effect o chatID b :
  unsubs (subscribers (track o chatID b)) = unsubs (subscribers b) /\
  (forall z, z ∈ ids (subscribers b) -> z ∈ ids (subscribers (track o chatID b))) /\
  (forall z, z ∈ ids (subscribers (track o chatID b)) ->
             z = chatID \/ (z ∈ ids (subscribers b))) /\
  (sent (track o chatID b) = sent b \/
   (chatID ∉ ids (subscribers b)) /\ (hashChatID chatID ∉ unsubs (subscribers b)) /\
   chatID ∈ ids (subscribers (track o chatID b)) /\
   sent (track o chatID b) = sent b ++ [(chatID, greeting)]).
Proof.
  unfold track. case_bool_decide as Hin; [split_and!; auto|].
  case_bool_decide as Hblock; [split_and!; auto|].
  destruct (appendOk o); cbn [negb subscribers ids unsubs sent]; split_and!; try done.
  - intros z Hz. apply elem_of_union. by right.
  - intros z [->%elem_of_singleton|Hz]%elem_of_union; [by left|by right].
  - right. split_and!; try done. apply elem_insert.
  - intros z Hz. apply elem_of_union. by right.
  - intros z [->%elem_of_singleton|Hz]%elem_of_union; [by left|by right].
  - by left.
Qed.

(** X18.  However often chats are tracked, one chat is greeted at most
    once: calls of [track] add at most one message for it, and none when it
    is subscribed already or has opted out. *)
Theorem greeted_once (chatID : Z) (script : list (outcome * call)) (b : Bot) :
  Forall is_track script ->
  (length (sent_to chatID (run script b)) <= S (length (sent_to chatID b)))%nat /\
  ((chatID ∈ ids (subscribers b)) \/ (hashChatID chatID ∈ unsubs (subscribers b)) ->
   sent_to chatID (run script b) = sent_to chatID b).
Proof.
  intros Hs.
  assert (forall b, (chatID ∈ ids (subscribers b)) \/
                    (hashChatID chatID ∈ unsubs (subscribers b)) ->
            sent_to chatID (run script b) = sent_to chatID b) as Hquiet.
  { induction Hs as [|[o c] script Hc _ IH]; intros b0 Hb; [done|].
    destruct c as [other| |]; try done. cbn [run fold_left step fst snd].
    destruct (track_effect o other b0) as (Hun & Hgrow & _ & Hsent).
    fold (run script (track o other b0)). rewrite IH.
    - unfold sent_to. destruct Hsent as [->|(Ho & Hh & _ & ->)]; [done|].
      rewrite (sent_to_snoc chatID b0 other greeting _ eq_refl).
      destruct (Z.eqb_spec other chatID) as [->|]; [|done]. by destruct Hb.
    - rewrite Hun. destruct Hb as [Hb|Hb]; [left; by apply Hgrow|by right]. }
  split; [|apply Hquiet]. clear Hquiet. revert b.
  induction Hs as [|[o c] script Hc Hs IH]; intros b; [cbn; lia|].
  destruct c as [other| |]; try done. cbn [run fold_left step fst snd].
  fold (run script (track o other b)).
  destruct (track_effect o other b) as (Hun & Hgrow & _ & Hsent).
  destruct Hsent as [Hsame|(Ho & Hh & Hin & Hmore)].
  - specialize (IH (track o other b)). unfold sent_to in *. by rewrite Hsame in IH.
  - destruct (Z.eqb_spec other chatID) as [->|Hne].
    + assert (sent_to chatID (run script (track o chatID b)) = sent_to chatID (track o chatID b))
        as ->.
      { clear IH. revert Hin. generalize (track o chatID b). clear -Hs.
        induction Hs as [|[o c] script Hc _ IH]; intros b0 Hb; [done|].
        destruct c as [other| |]; try done. cbn [run fold_left step fst snd].
        destruct (track_effect o other b0) as (Hun & Hgrow & _ & Hsent).
        fold (run script (track o other b0)). rewrite IH by (by apply Hgrow).
        unfold sent_to. destruct Hsent as [->|(Ho & Hh & _ & ->)]; [done|].
        rewrite (sent_to_snoc chatID b0 other greeting _ eq_refl).
        destruct (Z.eqb_spec other chatID) as [->|]; done. }
      unfold sent_to. rewrite Hmore, (sent_to_snoc chatID b chatID greeting _ eq_refl).
      rewrite Z.eqb_refl, length_app. cbn. lia.
    + specialize (IH (track o other b)). unfold sent_to in *.
      rewrite Hmore, (sent_to_snoc chatID b other greeting _ eq_refl) in IH.
      apply Z.eqb_neq in Hne. by rewrite Hne in IH.
Qed.

Lemma step_blocked chatID b oc :
  chatID ∉ ids (subscribers b) -> hashChatID chatID ∈ unsubs (subscribers b) ->
  spares chatID oc ->
  (chatID ∉ ids (subscribers (step b oc))) /\
  hashChatID chatID ∈ unsubs (subscribers (step b oc)) /\
  sent_to chatID (step b oc) = sent_to chatID b.
Proof.
  intros Hout Hblock Hsp. destruct oc as [o [other|other|other]];
    unfold spares in Hsp; cbn [snd] in Hsp; unfold step; cbn [fst snd].
  - destruct (Z.eq_dec other chatID) as [->|Hne].
    { assert (track o chatID b = b) as ->; [|done]. unfold track.
      by rewrite (bool_decide_eq_false_2 _ Hout), (bool_decide_eq_true_2 _ Hblock). }
    destruct (track_effect o other b) as (Hun & _ & Hids & Hsent). rewrite Hun.
    split_and!; [|done|].
    + intros [->|Hin]%Hids; done.
    + unfold sent_to. destruct Hsent as [->|(Ho & Hh & _ & ->)]; [done|].
      rewrite (sent_to_snoc chatID b other greeting _ eq_refl).
      destruct (Z.eqb_spec other chatID) as [->|]; done.
  - unfold forget, sent_to.
    destruct (createOk o); [destruct (appendOk o)|]; cbn [negb subscribers ids unsubs sent];
      split_and!; try done;
      try (by intros [Hin _]%elem_of_difference);
      apply elem_of_union; by right.
  - assert (hashChatID chatID ∈ unsubs (subscribers b) ∖ {[hashChatID other]}) as Hstill.
    { apply elem_of_difference. split; [done|]. intros Heq%elem_of_singleton. by rewrite Heq in Hsp. }
    assert (chatID ∉ {[other]} ∪ ids (subscribers b)) as Hout'.
    { intros [Heq%elem_of_singleton|Hin]%elem_of_union; [|done]. by rewrite Heq in Hsp. }
    unfold resubscribe, sent_to.
    destruct (createOk o); [case_bool_decide; [|destruct (appendOk o)]|];
      cbn [negb subscribers ids unsubs sent]; split_and!; done.
Qed.

Lemma run_blocked chatID script b :
  chatID ∉ ids (subscribers b) -> hashChatID chatID ∈ unsubs (subscribers b) ->
  Forall (spares chatID) script ->
  (chatID ∉ ids (subscribers (run script b))) /\
  hashChatID chatID ∈ unsubs (subscribers (run script b)) /\
  sent_to chatID (run script b) = sent_to chatID b.
Proof.
  intros Hout Hblock Hs. revert b Hout Hblock.
  induction Hs as [|oc script Hoc _ IH]; intros b Hout Hblock; [done|].
  destruct (step_blocked chatID b oc Hout Hblock Hoc) as (Hout' & Hblock' & Hsent).
  cbn [run fold_left]. fold (run script (step b oc)).
  destruct (IH _ Hout' Hblock') as (? & ? & ->). done.
Qed.

Lemma forget_blocks o chatID b :
  createOk o = true ->
  (chatID ∉ ids (subscribers (forget o chatID b))) /\
  hashChatID chatID ∈ unsubs (subscribers (forget o chatID b)) /\
  sent (forget o chatID b) = sent b.
Proof.
  intros Hcr. unfold forget. rewrite Hcr.
  destruct (appendOk o); cbn [negb subscribers ids unsubs sent]; split_and!; try done;
    try apply elem_insert; intros [_ Hne]%elem_of_difference; apply Hne; by apply elem_of_singleton.
Qed.

(** X19.  An opt-out holds: once [forget] has rewritten the subscriber
    file, the chat is in no later state a subscriber, its hash stays in the
    opt-out map and no message is sent to it, whatever calls follow and
    whatever fails during them, as long as none of them is a [resubscribe]
    of the chat (or of one with the same hash). *)
Theorem forget_is_honoured (o : outcome) (chatID : Z) (b : Bot)
    (script : list (outcome * call)) :
  createOk o = true -> Forall (spares chatID) script ->
  (chatID ∉ ids (subscribers (run script (forget o chatID b)))) /\
  hashChatID chatID ∈ unsubs (subscribers (run script (forget o chatID b))) /\
  sent_to chatID (run script (forget o chatID b)) = sent_to chatID b.
Proof.
  intros Hcr Hs. destruct (forget_blocks o chatID b Hcr) as (Hout & Hblock & Hsent).
  destruct (run_blocked chatID script _ Hout Hblock Hs) as (? & ? & ->).
  split_and!; try done. unfold sent_to. by rewrite Hsent.
Qed.

(** X20.  An opt-out survives a restart.  In any run from the start of the
    process in which [forget] could rewrite the subscriber file, a process
    started anew on the files left behind does not have the chat among its
    subscribers; and when [forget] could also append to the opt-out file,
    the new process has the hash in its opt-out map.  Calls before and
    after may fail as they like; after it no [resubscribe] of the chat is
    made. *)
Theorem forget_survives_restart (before after : list (outcome * call))
    (o : outcome) (chatID : Z) :
  Forall sound_call before -> fair_range o -> in_int chatID ->
  createOk o = true ->
  Forall sound_call after -> Forall (spares chatID) after ->
  (chatID ∉ ids (subscribers (restart (run (before ++ (o, Forget chatID) :: after) boot)))) /\
  (appendOk o = true ->
   hashChatID chatID ∈
     unsubs (subscribers (restart (run (before ++ (o, Forget chatID) :: after) boot)))).
Proof.
  intros Hbefore Hfair Hint Hcr Hafter Hspare.
  destruct (kept_run before boot [] [] kept_boot Hbefore) as (zs0 & hs0 & Hk0).
  rewrite run_app. cbn [run fold_left]. fold (run after (step (run before boot) (o, Forget chatID))).
  set (b0 := run before boot) in *.
  destruct (kept_step b0 o (Forget chatID) zs0 hs0 Hk0 Hfair Hint)
    as (zs1 & hs1 & Hk1 & _ & _ & _ & _ & Hforget).
  destruct (Hforget chatID eq_refl Hcr) as [Hzs1 Hhs1].
  destruct (forget_blocks o chatID b0 Hcr) as (Hout1 & Hblock1 & _).
  change (forget o chatID b0) with (step b0 (o, Forget chatID)) in Hout1, Hblock1.
  set (b1 := step b0 (o, Forget chatID)) in *.
  assert (chatID ∉ zs1) as Hno1 by (intros Hin; by apply Hzs1 in Hin).
  clear Hforget Hzs1 Hk0. clearbody b1. clear b0.
  assert (exists zs hs, kept (run after b1) zs hs /\ (chatID ∉ zs) /\
            (appendOk o = true -> hashChatID chatID ∈ hs)) as (zs & hs & Hk & Hno & Hyes).
  { revert b1 zs1 hs1 Hk1 Hout1 Hblock1 Hno1 Hhs1.
    induction Hafter as [|[o' c] after [Hfair' Hint'] _ IH]; intros b1 zs1 hs1 Hk1 Hout1 Hblock1 Hno1 Hhs1.
    - by exists zs1, hs1.
    - apply Forall_cons_1 in Hspare as [Hsp Hspare].
      destruct (kept_step b1 o' c zs1 hs1 Hk1 Hfair' Hint')
        as (zs2 & hs2 & Hk2 & Hzs2 & Hhs2 & _).
      destruct (step_blocked chatID b1 (o', c) Hout1 Hblock1 Hsp) as (Hout2 & Hblock2 & _).
      cbn [run fold_left]. fold (run after (step b1 (o', c))).
      apply (IH Hspare _ zs2 hs2); try done.
      + intros [Hin|Hin]%Hzs2; done.
      + intros Ha. apply Hhs2; [by apply Hhs1|done]. }
  rewrite (kept_restart _ zs hs Hk). cbn [ids unsubs]. split.
  - by rewrite elem_of_list_to_set.
  - intros Ha. rewrite elem_of_list_to_set. by apply Hyes.
Qed.

(** X21.  What the store holds is what the files hold: after any calls
    from the start of the process during which no file operation failed, a
    process started anew on the same files loads exactly the subscribers
    and the opt-out hashes the running one has in memory. *)
Theorem restart_restores_store (script : list (outcome * call)) :
  Forall (fun oc => sound_call oc /\ io_ok (fst oc)) script ->
  subscribers (restart (run script boot)) = subscribers (run script boot).
Proof.
  intros Hs.
  assert (exists zs hs, kept (run script boot) zs hs /\
            list_to_set zs = ids (subscribers (run script boot)) /\
            list_to_set hs = unsubs (subscribers (run script boot)))
    as (zs & hs & Hk & Hzs & Hhs).
  { induction script as [|[o c] script IH] using rev_ind.
    - exists [], []. split; [apply kept_boot|done].
    - apply Forall_app in Hs as [Hs [[[Hfair Hint] Hio] _]%Forall_cons_1].
      destruct (IH Hs) as (zs & hs & Hk & Hzs & Hhs). rewrite run_snoc.
      destruct (kept_step _ o c zs hs Hk Hfair Hint)
        as (zs' & hs' & Hk' & _ & _ & Hzs' & Hhs' & _).
      exists zs', hs'. split; [done|]. split; [by apply Hzs'|by apply Hhs']. }
  rewrite (kept_restart _ zs hs Hk), Hzs, Hhs. by destruct (subscribers (run script boot)).
Qed.


End StoreRuns.

Lemma fair_range_elements (createOk appendOk : bool) :
  fair_range {| Subscribers.createOk := createOk; Subscribers.appendOk := appendOk;
                Subscribers.rangeIDs := elements; Subscribers.rangeHashes := elements |}.
Proof. split; intros s; reflexivity. Qed.

Lemma in_int_small z : (- 1000 <= z <= 1000)%Z -> in_int z.
Proof. unfold in_int, int_min, int_max. lia. Qed.

Lemma greeted_once_witness :
  let script := [(allGood, Track 42); (diskDown, Track 42); (allGood, Track 42)] in
  (length (sent_to 42 (run script boot)) <= 1)%nat.
Proof.
  intros script.
  destruct (greeted_once 42 script boot) as [H _]; [|exact H].
  repeat (constructor; [exact I|]). constructor.
Defined.

Lemma forget_is_honoured_witness :
  let b := run [(allGood, Track 42)] boot in
  let script := [(allGood, Track 42); (allGood, Track 7); (diskDown, Forget 7)] in
  sent_to 42 (run script (Subscribers.forget allGood 42 b)) = sent_to 42 b.
Proof.
  intros b script.
  apply (forget_is_honoured allGood 42 b script); [reflexivity|].
  repeat (constructor; [exact I|]). constructor.
Defined.

Lemma forget_survives_restart_witness :
  let before := [(allGood, Track 42); (diskDown, Track 9)] in
  let after := [(allGood, Track 42); (allGood, Track 7)] in
  42 ∉ Subscribers.ids (Subscribers.subscribers
         (restart (run (before ++ (allGood, Forget 42) :: after) boot))).
Proof.
  intros before after.
  apply (forget_survives_restart before after allGood 42).
  - repeat (constructor; [split; [apply fair_range_elements|apply in_int_small; cbn; lia]|]).
    constructor.
  - apply fair_range_elements.
  - apply in_int_small. lia.
  - reflexivity.
  - repeat (constructor; [split; [apply fair_range_elements|apply in_int_small; cbn; lia]|]).
    constructor.
  - repeat (constructor; [exact I|]). constructor.
Defined.

Lemma restart_restores_store_witness :
  let script := [(allGood, Track 42); (allGood, Track 7); (allGood, Forget 42);
                 (allGood, Resubscribe 42); (allGood, Forget 7)] in
  Subscribers.subscribers (restart (run script boot)) =
  Subscribers.subscribers (run script boot).
Proof.
  intros script. apply restart_restores_store.
  repeat (constructor;
          [split; [split; [apply fair_range_elements|apply in_int_small; cbn; lia]
                  |split; reflexivity]|]).
  constructor.
Defined.

